(** * noir-mcp-server: repository synchronisation and search

    A shallow embedding of [src/utils/git.ts], [src/repos/config.ts],
    the sync tool ([syncRepos]) and [src/utils/search.ts], followed by the
    properties of the synchronisation engine and of the search subsystem.

    Conventions of the embedding.
    - A JavaScript string is a [string]: a sequence of code units, each one
      an [ascii]; the model covers the code units below 256 (Latin-1).
    - A JavaScript number that counts things ([maxResults], a line number)
      is a [Z]: limits and line numbers are integers, of any sign.
    - An optional field ([tag?: string]) is an [option]; the test
      [if (config.tag)] is JavaScript truthiness, [Js.truthy].
    - A call that may reject or throw returns an [Outcome]; [try]/[catch]
      is [try_catch].
    - Everything outside the repository (the file system, git, the shell,
      the regular-expression engine, Node's [path] module) is a field of an
      environment class and the theorems hold for every environment. *)

From Stdlib Require Import ZArith Ascii String List Lia Bool DecimalString.
From stdpp Require Import base option gmap strings.

Open Scope Z_scope.

(** ** JavaScript strings *)

Module Js.

Definition code (c : ascii) : N := N_of_ascii c.
Definition chr (n : N) : ascii := ascii_of_N n.

Definition dquote : ascii := chr 34.
Definition dollar : ascii := chr 36.
Definition backtick : ascii := chr 96.
Definition bslash : ascii := chr 92.
Definition bang : ascii := chr 33.
Definition newline : ascii := chr 10.
Definition creturn : ascii := chr 13.
Definition colon : ascii := chr 58.
Definition slash : ascii := chr 47.

Definition ceq (a b : ascii) : bool := Ascii.eqb a b.

(** [str1 (c)] is the one-character string. *)
Definition str1 (c : ascii) : string := String c EmptyString.

(** Truthiness of a string value: every string but the empty one. *)
Definition truthy (s : string) : bool :=
  match s with EmptyString => false | String _ _ => true end.

(** Truthiness of an optional string field ([undefined] is falsy). *)
Definition truthy_opt (o : option string) : bool :=
  match o with Some s => truthy s | None => false end.

(** [a || b] on optional strings. *)
Definition or_else (a b : option string) : option string :=
  if truthy_opt a then a else b.

(** [s.startsWith(p)] *)
Fixpoint startsWith (s p : string) : bool :=
  match p with
  | EmptyString => true
  | String b p' =>
      match s with
      | EmptyString => false
      | String a s' => ceq a b && startsWith s' p'
      end
  end.

(** [s.substring(0, n)] *)
Fixpoint take (n : nat) (s : string) : string :=
  match n, s with
  | O, _ => EmptyString
  | S _, EmptyString => EmptyString
  | S n', String c s' => String c (take n' s')
  end.

(** [s.includes(sub)] *)
Fixpoint includes (s sub : string) : bool :=
  startsWith s sub ||
  match s with
  | EmptyString => false
  | String _ s' => includes s' sub
  end.

(** [toLowerCase] on one code unit of the Latin-1 range: A-Z and the
    accented capitals 0xC0-0xDE (the sign 0xD7 apart) move by 32. *)
Definition lower (c : ascii) : ascii :=
  let n := code c in
  if ((65 <=? n) && (n <=? 90))%N then chr (n + 32)
  else if ((192 <=? n) && (n <=? 222) && negb (n =? 215))%N then chr (n + 32)
  else c.

Fixpoint toLowerCase (s : string) : string :=
  match s with
  | EmptyString => EmptyString
  | String c s' => String (lower c) (toLowerCase s')
  end.

(** White space and line terminators, as [trim] strips them. *)
Definition is_white (c : ascii) : bool :=
  let n := code c in
  ((9 <=? n) && (n <=? 13) || (n =? 32) || (n =? 160))%N.

Fixpoint trimStart (s : string) : string :=
  match s with
  | EmptyString => EmptyString
  | String c s' => if is_white c then trimStart s' else s
  end.

Fixpoint trimEnd (s : string) : string :=
  match s with
  | EmptyString => EmptyString
  | String c s' =>
      match trimEnd s' with
      | EmptyString => if is_white c then EmptyString else str1 c
      | String d t => String c (String d t)
      end
  end.

(** [s.trim()] *)
Definition trim (s : string) : string := trimEnd (trimStart s).

(** [s.split(sep)] for a one-character separator: never empty. *)
Fixpoint split (sep : ascii) (s : string) : list string :=
  match s with
  | EmptyString => [EmptyString]
  | String c s' =>
      if ceq c sep then EmptyString :: split sep s'
      else match split sep s' with
           | h :: t => String c h :: t
           | [] => [str1 c]
           end
  end.

(** [l.join(sep)] *)
Fixpoint join (sep : string) (l : list string) : string :=
  match l with
  | [] => EmptyString
  | [x] => x
  | x :: rest => x +:+ sep +:+ join sep rest
  end.

(** [l.filter(Boolean)] on strings. *)
Definition filterBoolean (l : list string) : list string :=
  List.filter truthy l.

(** [s.replace(pat, rep)] with a string pattern: the first occurrence
    only; [rep] holds no dollar sign at the call sites. *)
Fixpoint drop (n : nat) (s : string) : string :=
  match n, s with
  | O, _ => s
  | S _, EmptyString => EmptyString
  | S n', String _ s' => drop n' s'
  end.

Fixpoint replaceFirst (pat rep s : string) : string :=
  if startsWith s pat then rep +:+ drop (String.length pat) s
  else match s with
       | EmptyString => EmptyString
       | String c s' => String c (replaceFirst pat rep s')
       end.

(** [String(n)] for an integer. *)
Definition ofZ (n : Z) : string := NilEmpty.string_of_int (Z.to_int n).

Definition is_digit (c : ascii) : bool :=
  let n := code c in ((48 <=? n) && (n <=? 57))%N.

(** [parseInt(s, 10)] on a string of decimal digits. *)
Fixpoint parseDigits (acc : Z) (s : string) : Z :=
  match s with
  | EmptyString => acc
  | String c s' => parseDigits (10 * acc + (Z.of_N (code c) - 48)) s'
  end.

Definition parseInt (s : string) : Z := parseDigits 0 s.

Fixpoint allb (p : ascii -> bool) (s : string) : bool :=
  match s with
  | EmptyString => true
  | String c s' => p c && allb p s'
  end.

(** [s.replace(/[class]/g, "\\$&")]: a backslash before every code unit
    of the class. *)
Fixpoint escapeClass (cls : ascii -> bool) (s : string) : string :=
  match s with
  | EmptyString => EmptyString
  | String c s' =>
      if cls c then String bslash (String c (escapeClass cls s'))
      else String c (escapeClass cls s')
  end.

End Js.

(** ** Exceptions *)

(** A thrown value: an [Error] instance with its [name] and [message], or
    anything else, kept as the text [String(v)] gives. *)
Inductive Thrown : Type :=
| ErrorObj (ename emessage : string)
| OtherValue (text : string).

(** [error instanceof Error ? error.message : String(error)] *)
Definition thrown_message (e : Thrown) : string :=
  match e with
  | ErrorObj _ m => m
  | OtherValue t => t
  end.

(** The text a template literal gives a thrown value: for an [Error],
    [Error.prototype.toString]. *)
Definition thrown_toString (e : Thrown) : string :=
  match e with
  | ErrorObj n m =>
      match n, m with
      | EmptyString, _ => m
      | _, EmptyString => n
      | _, _ => n +:+ ": " +:+ m
      end
  | OtherValue t => t
  end.

Inductive Outcome (A : Type) : Type :=
| Ret (a : A)
| Throw (e : Thrown).
Arguments Ret {A} a.
Arguments Throw {A} e.

Definition try_catch {A} (body : Outcome A) (handler : Thrown -> Outcome A)
  : Outcome A :=
  match body with
  | Ret a => Ret a
  | Throw e => handler e
  end.

Definition obind {A B} (c : Outcome A) (k : A -> Outcome B) : Outcome B :=
  match c with
  | Ret a => k a
  | Throw e => Throw e
  end.

Global Instance Outcome_ret : MRet Outcome := fun _ a => Ret a.
Global Instance Outcome_bind : MBind Outcome := fun _ _ k c => obind c k.

(** ** The host: Node's [path] module, [os.homedir] and the environment
    variables the modules read when they load. *)

Class HostEnv : Type := {
  path_join : string -> string -> string;
  path_relative : string -> string -> string;
  homedir : string;
  env_NOIR_MCP_REPOS_DIR : option string;
  env_NOIR_DEFAULT_VERSION : option string;
  env_BB_DEFAULT_VERSION : option string;
}.

(** ** [src/repos/config.ts] *)

Module Config.

Inductive RepoCategory : Type := core | libraries | reference.

Definition category_eqb (a b : RepoCategory) : bool :=
  match a, b with
  | core, core | libraries, libraries | reference, reference => true
  | _, _ => false
  end.

Record SearchPatterns : Type := {
  code : option (list string);
  docs : option (list string);
}.

Record RepoConfig : Type := {
  name : string;
  url : string;
  branch : option string;
  tag : option string;
  commit : option string;
  sparse : option (list string);
  description : string;
  category : RepoCategory;
  searchPatterns : option SearchPatterns;
}.

Definition with_tag (r : RepoConfig) (t : option string) : RepoConfig :=
  {| name := name r; url := url r; branch := branch r; tag := t;
     commit := commit r; sparse := sparse r; description := description r;
     category := category r; searchPatterns := searchPatterns r |}.

Definition base (n u b : string) (sp : option (list string)) (d : string)
    (c : RepoCategory) (cd dc : option (list string)) : RepoConfig :=
  {| name := n; url := u; branch := Some b; tag := None; commit := None;
     sparse := sp; description := d; category := c;
     searchPatterns := Some {| code := cd; docs := dc |} |}.

(** The table of repositories, before the version tag is attached. *)
Definition BASE_REPOS : list RepoConfig :=
  [ base "noir" "https://github.com/noir-lang/noir" "master"
      (Some ["docs"; "noir_stdlib"; "tooling"; "examples"])
      "Noir language compiler, standard library, tooling, and documentation"
      core (Some ["*.nr"; "*.rs"]) (Some ["*.md"; "*.mdx"]);
    base "noir-examples" "https://github.com/noir-lang/noir-examples"
      "master" None "Official Noir example circuits and projects"
      core (Some ["*.nr"; "*.ts"]) (Some ["*.md"]);
    base "noir-bignum" "https://github.com/noir-lang/noir-bignum" "main" None
      "Big integer arithmetic — foundational for most crypto operations"
      libraries (Some ["*.nr"]) None;
    base "noir_bigcurve" "https://github.com/noir-lang/noir_bigcurve" "main"
      None "Elliptic curve operations over arbitrary prime fields"
      libraries (Some ["*.nr"]) None;
    base "noir_json_parser" "https://github.com/noir-lang/noir_json_parser"
      "main" None "JSON string parsing (RFC 8259) in Noir"
      libraries (Some ["*.nr"]) None;
    base "noir_string_search"
      "https://github.com/noir-lang/noir_string_search" "main" None
      "Substring search and proof in Noir" libraries (Some ["*.nr"]) None;
    base "noir_sort" "https://github.com/noir-lang/noir_sort" "main" None
      "Array sorting in Noir" libraries (Some ["*.nr"]) None;
    base "poseidon" "https://github.com/noir-lang/poseidon" "master" None
      "Poseidon hash function implementation for Noir"
      libraries (Some ["*.nr"]) None;
    base "sparse_array" "https://github.com/noir-lang/sparse_array" "master"
      None "Sparse array implementation for Noir"
      libraries (Some ["*.nr"]) None;
    base "zk-kit.noir"
      "https://github.com/privacy-scaling-explorations/zk-kit.noir" "main"
      None
      "Algorithm & utility collection (Merkle trees, ECDH, etc.) for Noir"
      libraries (Some ["*.nr"]) None;
    base "bb.js" "https://github.com/AztecProtocol/aztec-packages" "next"
      (Some ["barretenberg/ts"])
      "Aztec Barretenberg TypeScript/JavaScript bindings for proving backends"
      libraries (Some ["*.ts"; "*.js"]) None;
    base "awesome-noir" "https://github.com/noir-lang/awesome-noir" "main"
      None
      "Curated ecosystem index — searchable for finding libraries & projects"
      reference None (Some ["*.md"]) ].

Section WithHost.
Context `{HostEnv}.

(** [process.env.X || fallback] *)
Definition env_or (v : option string) (fallback : string) : string :=
  match v with
  | Some s => if Js.truthy s then s else fallback
  | None => fallback
  end.

Definition DEFAULT_NOIR_VERSION : string :=
  env_or env_NOIR_DEFAULT_VERSION "v1.0.0-beta.18".

Definition DEFAULT_BB_VERSION : string :=
  env_or env_BB_DEFAULT_VERSION "v3.0.0-nightly.20260102".

Definition getNoirRepos (version : option string) : list RepoConfig :=
  let tag := env_or version DEFAULT_NOIR_VERSION in
  map (fun repo =>
         with_tag repo
           (if String.eqb (name repo) "noir" then Some tag
            else if String.eqb (name repo) "bb.js"
                 then Some DEFAULT_BB_VERSION
                 else None))
      BASE_REPOS.

Definition NOIR_REPOS : list RepoConfig := getNoirRepos None.
End WithHost.

End Config.

(** ** [src/utils/git.ts] *)

Module Git.
Import Config.

(** What the mirror store holds for one repository directory: whether
    the metadata directory [.git] is there ([has_git]), what
    [git.log(["-1"])] answers in it, reduced to the hash of [latest] if
    any ([log_latest]), and what
    [git.raw(["describe", "--tags", "--exact-match", "HEAD"])] answers
    ([describe_head]); either query may reject. *)
Record MirrorEntry : Type := {
  has_git : bool;
  log_latest : Outcome (option string);
  describe_head : Outcome string;
}.

(** The git commands that change something, as simple-git is called. *)
Inductive GitCmd : Type :=
| GClone (url path : string) (opts : list string)
| GRaw (path : string) (args : list string)
| GFetch (path : string) (args : list string)
| GCheckout (path : string) (ref : string)
| GReset (path : string) (args : list string)
| GPull (path : string).

Inductive Event : Type :=
| EvMkdir (path : string)
| EvRm (path : string)
| EvGit (c : GitCmd).

(** What git and the network do is not decided by this program: a
    command maps the mirror store and the state of the outside world to
    an outcome and to new ones. *)
Class GitEnv : Type := {
  Remote : Type;
  git_exec : GitCmd -> Remote -> gmap string MirrorEntry ->
             Outcome unit * Remote * gmap string MirrorEntry;
}.

Section WithEnv.
Context `{HostEnv} `{GitEnv}.

Record World : Type := {
  store : gmap string MirrorEntry;
  remote : Remote;
  trace : list Event;
}.

Definition M (A : Type) : Type := World -> Outcome A * World.

Definition ret {A} (a : A) : M A := fun w => (Ret a, w).
Definition throw {A} (e : Thrown) : M A := fun w => (Throw e, w).
Definition bind {A B} (c : M A) (k : A -> M B) : M B :=
  fun w => match c w with
           | (Ret a, w') => k a w'
           | (Throw e, w') => (Throw e, w')
           end.
Definition catch {A} (body : M A) (handler : Thrown -> M A) : M A :=
  fun w => match body w with
           | (Ret a, w') => (Ret a, w')
           | (Throw e, w') => handler e w'
           end.
Definition gets {A} (f : gmap string MirrorEntry -> A) : M A :=
  fun w => (Ret (f (store w)), w).
Definition emit (ev : Event) : World -> World :=
  fun w => {| store := store w; remote := remote w;
              trace := trace w ++ [ev] |}.

Global Instance M_ret : MRet M := @ret.
Global Instance M_bind : MBind M := fun _ _ k c => bind c k.

(** Base directory for cloned repos *)
Definition REPOS_DIR : string :=
  path_join
    (match env_NOIR_MCP_REPOS_DIR with
     | Some d => if Js.truthy d then d else path_join homedir ".noir-mcp"
     | None => path_join homedir ".noir-mcp"
     end)
    "repos".

(** [mkdirSync(REPOS_DIR, { recursive: true })]; like [rmSync] below it
    is taken to succeed. *)
Definition ensureReposDir : M unit :=
  fun w => (Ret tt, emit (EvMkdir REPOS_DIR) w).

Definition getRepoPath (repoName : string) : string :=
  path_join REPOS_DIR repoName.

(** [existsSync(path)] for a repository directory. *)
Definition existsSync (s : gmap string MirrorEntry) (path : string)
  : bool :=
  match s !! path with Some _ => true | None => false end.

(** [existsSync(join(repoPath, ".git"))] *)
Definition isRepoCloned (s : gmap string MirrorEntry) (repoName : string)
  : bool :=
  match s !! getRepoPath repoName with
  | Some e => has_git e
  | None => false
  end.

(** [rmSync(path, { recursive: true, force: true })] *)
Definition rmSync (path : string) : M unit :=
  fun w => (Ret tt,
            {| store := delete path (store w); remote := remote w;
               trace := trace w ++ [EvRm path] |}).

(** One changing git command. *)
Definition git (c : GitCmd) : M unit :=
  fun w => match git_exec c (remote w) (store w) with
           | (o, r', s') =>
               (o, {| store := s'; remote := r';
                      trace := trace w ++ [EvGit c] |})
           end.

Definition no_directory : Thrown :=
  ErrorObj "Error"
    "Cannot use simple-git on a directory that does not exist".

(** [simpleGit(path).log(["-1"])], reduced to [latest?.hash]. *)
Definition git_log (path : string) : M (option string) :=
  fun w => match store w !! path with
           | Some e => (log_latest e, w)
           | None => (Throw no_directory, w)
           end.

(** [simpleGit(path).raw(["describe", "--tags", "--exact-match", "HEAD"])] *)
Definition git_describe (path : string) : M string :=
  fun w => match store w !! path with
           | Some e => (describe_head e, w)
           | None => (Throw no_directory, w)
           end.

(** Update an existing repository *)
Definition updateRepo (repoName : string) : M string :=
  let repoPath := getRepoPath repoName in
  cloned ← gets (fun s => isRepoCloned s repoName);
  if negb cloned then
    throw (ErrorObj "Error" ("Repository " +:+ repoName +:+ " is not cloned"))
  else
    catch
      (git (GFetch repoPath ["--depth=1"]);;
       git (GReset repoPath ["--hard"; "origin/HEAD"]);;
       ret ("Updated " +:+ repoName))
      (fun _ =>
         catch
           (git (GPull repoPath);;
            ret ("Updated " +:+ repoName))
           (fun pullError =>
              ret ("Failed to update " +:+ repoName +:+ ": "
                   +:+ thrown_toString pullError))).

(** Get the current commit hash for a repo *)
Definition getRepoCommit (repoName : string) (full : bool)
  : M (option string) :=
  cloned ← gets (fun s => isRepoCloned s repoName);
  if negb cloned then ret None
  else
    latest ← git_log (getRepoPath repoName);
    match latest with
    | None => ret None
    | Some hash =>
        if negb (Js.truthy hash) then ret None
        else ret (Some (if full then hash else Js.take 7 hash))
    end.

(** Get the current tag for a repo (if HEAD points to a tag) *)
Definition getRepoTag (repoName : string) : M (option string) :=
  let repoPath := getRepoPath repoName in
  cloned ← gets (fun s => isRepoCloned s repoName);
  if negb cloned then ret None
  else
    catch
      (result ← git_describe repoPath;
       let t := Js.trim result in
       ret (if Js.truthy t then Some t else None))
      (fun _ => ret None).

(** [a !== b] between [string | null] and [string | undefined]. *)
Definition strict_neq (a b : option string) : bool :=
  match a, b with
  | Some x, Some y => negb (String.eqb x y)
  | _, _ => true
  end.

(** Check if the cloned repo matches the requested config.
    Returns true if re-clone is needed. *)
Definition needsReclone (config : RepoConfig) : M bool :=
  cloned ← gets (fun s => isRepoCloned s (name config));
  if negb cloned then ret true
  else if Js.truthy_opt (commit config) then
    currentCommit ← getRepoCommit (name config) true;
    ret (negb (match currentCommit with
               | Some h =>
                   Js.startsWith h (Js.take 7 (default EmptyString (commit config)))
               | None => false
               end))
  else if Js.truthy_opt (tag config) then
    currentTag ← getRepoTag (name config);
    ret (strict_neq currentTag (tag config))
  else ret false.

(** [${v}] for a value that may be [undefined]. *)
Definition show_opt (v : option string) : string :=
  match v with Some s => s | None => "undefined" end.

Definition branch_opts (config : RepoConfig) : list string :=
  match branch config with
  | Some b => if Js.truthy b then ["-b"; b] else []
  | None => []
  end.

Definition tag_refspec (t : string) : string :=
  "refs/tags/" +:+ t +:+ ":refs/tags/" +:+ t.

(** The part of [cloneRepo] after the early return: a fresh checkout,
    ref resolution order commit > tag > branch. *)
Definition freshCheckout (config : RepoConfig) : M string :=
  let repoPath := getRepoPath (name config) in
  let ref := Js.or_else (Js.or_else (commit config) (tag config))
                        (branch config) in
  let refType :=
    if Js.truthy_opt (commit config) then "commit"
    else if Js.truthy_opt (tag config) then "tag" else "branch" in
  match sparse config with
  | Some (p :: ps) =>
      let paths := p :: ps in
      (if Js.truthy_opt (commit config) then
         let c := default EmptyString (commit config) in
         git (GClone (url config) repoPath
                ["--filter=blob:none"; "--sparse"; "--no-checkout"]);;
         git (GRaw repoPath ("sparse-checkout" :: "set" :: paths));;
         git (GFetch repoPath ["origin"; c]);;
         git (GCheckout repoPath c)
       else if Js.truthy_opt (tag config) then
         let t := default EmptyString (tag config) in
         git (GClone (url config) repoPath
                ["--filter=blob:none"; "--sparse"; "--no-checkout"]);;
         git (GRaw repoPath ("sparse-checkout" :: "set" :: paths));;
         git (GFetch repoPath ["--depth=1"; "origin"; tag_refspec t]);;
         git (GCheckout repoPath t)
       else
         git (GClone (url config) repoPath
                (["--filter=blob:none"; "--sparse"; "--depth=1"]
                 ++ branch_opts config));;
         git (GRaw repoPath ("sparse-checkout" :: "set" :: paths)));;
      ret ("Cloned " +:+ name config +:+ " @ " +:+ show_opt ref +:+ " ("
           +:+ refType +:+ ", sparse: " +:+ Js.join ", " paths +:+ ")")
  | _ =>
      (if Js.truthy_opt (commit config) then
         let c := default EmptyString (commit config) in
         git (GClone (url config) repoPath ["--no-checkout"]);;
         git (GFetch repoPath ["origin"; c]);;
         git (GCheckout repoPath c)
       else if Js.truthy_opt (tag config) then
         let t := default EmptyString (tag config) in
         git (GClone (url config) repoPath ["--no-checkout"]);;
         git (GFetch repoPath ["--depth=1"; "origin"; tag_refspec t]);;
         git (GCheckout repoPath t)
       else
         git (GClone (url config) repoPath
                ("--depth=1" :: branch_opts config)));;
      ret ("Cloned " +:+ name config +:+ " @ " +:+ show_opt ref +:+ " ("
           +:+ refType +:+ ")")
  end.

(** Clone a repository with optional sparse checkout and tag support *)
Definition cloneRepo (config : RepoConfig) (force : bool) : M string :=
  ensureReposDir;;
  let repoPath := getRepoPath (name config) in
  versionMismatch ← needsReclone config;
  there ← gets (fun s => existsSync s repoPath);
  (if (force || versionMismatch) && there then rmSync repoPath else ret tt);;
  cloned ← gets (fun s => isRepoCloned s (name config));
  if (cloned : bool) then updateRepo (name config)
  else freshCheckout config.

End WithEnv.
End Git.

(** ** The sync tool: [syncRepos] *)

Module Sync.
Import Config Git.

Record RepoStatus : Type := {
  name : string;
  status : string;
  commit : option string;
}.

Record SyncResult : Type := {
  success : bool;
  message : string;
  version : string;
  repos : list RepoStatus;
}.

Record SyncOptions : Type := {
  opt_force : option bool;
  opt_repos : option (list string);
  opt_version : option string;
  opt_categories : option (list RepoCategory);
}.

(** [names.includes(n)] *)
Definition includes_name (names : list string) (n : string) : bool :=
  existsb (String.eqb n) names.

Definition includes_category (cs : list RepoCategory) (c : RepoCategory)
  : bool :=
  existsb (category_eqb c) cs.

(** The marker test of [syncRepos]:
    [r.status.toLowerCase().includes("error")]. *)
Definition looks_failed (r : RepoStatus) : bool :=
  Js.includes (Js.toLowerCase (status r)) "error".

Section WithEnv.
Context `{HostEnv} `{GitEnv}.

Definition configuredRepos (options : SyncOptions) : list RepoConfig :=
  if Js.truthy_opt (opt_version options)
  then getNoirRepos (opt_version options)
  else NOIR_REPOS.

Definition effectiveVersion (options : SyncOptions) : string :=
  env_or (opt_version options) DEFAULT_NOIR_VERSION.

Definition reposToSync (options : SyncOptions) : list RepoConfig :=
  match opt_repos options with
  | Some (n :: ns) =>
      List.filter (fun r => includes_name (n :: ns) (Config.name r))
                  (configuredRepos options)
  | _ =>
      match opt_categories options with
      | Some (c :: cs) =>
          List.filter (fun r => includes_category (c :: cs) (category r))
                      (configuredRepos options)
      | _ =>
          List.filter (fun r => category_eqb (category r) core)
                      (configuredRepos options)
      end
  end.

(** One turn of the loop body: the [try] around [cloneRepo]. *)
Definition syncOne (force : bool) (config : RepoConfig) : M RepoStatus :=
  catch
    (status ← cloneRepo config force;
     ret {| name := Config.name config; status := status; commit := None |})
    (fun error =>
       ret {| name := Config.name config;
              status := "Error: " +:+ thrown_message error;
              commit := None |}).

(** [for (const config of reposToSync) { ... results.push(...) }] *)
Fixpoint syncLoop (force : bool) (todo : list RepoConfig)
    (results : list RepoStatus) : M (list RepoStatus) :=
  match todo with
  | [] => ret results
  | config :: rest =>
      r ← syncOne force config;
      syncLoop force rest (results ++ [r])
  end.

(** Sync repositories (clone if missing, update if exists). *)
Definition syncRepos (options : SyncOptions) : M SyncResult :=
  let force := default false (opt_force options) in
  let todo := reposToSync options in
  match todo with
  | [] =>
      ret {| success := false;
             message :=
               "No repositories matched the specified names or categories";
             version := effectiveVersion options;
             repos := [] |}
  | _ :: _ =>
      results ← syncLoop force todo [];
      let allSuccess := forallb (fun r => negb (looks_failed r)) results in
      ret {| success := allSuccess;
             message :=
               if allSuccess
               then "Successfully synced "
                    +:+ Js.ofZ (Z.of_nat (length results))
                    +:+ " repositories to " +:+ REPOS_DIR
               else "Some repositories failed to sync";
             version := effectiveVersion options;
             repos := results |}
  end.

End WithEnv.
End Sync.

(** ** [src/utils/search.ts] *)

Module Search.

Record SearchResult : Type := {
  file : string;
  line : option Z;
  content : string;
  repo : string;
}.

Record SearchOptions : Type := {
  filePattern : option string;
  opt_repo : option string;
  maxResults : option Z;
  caseSensitive : option bool;
}.

(** A compiled regular expression, as this module uses it: [test] on one
    line, always from [lastIndex = 0] (the loop resets it after each
    test). *)
Definition RegExp : Type := string -> bool.

(** The file system, the shell and the regular-expression engine:
    - [globbySync pattern cwd] is
      [globbySync(pattern, { cwd, absolute: true, ignore: [...] })];
    - [execSync command] is [execSync(command, { encoding: "utf-8", ... })];
    - [RegExp_new source ignoreCase] is [new RegExp(source, flags)] with
      the flags [g] or [gi]. *)
Class SearchEnv : Type := {
  existsSync : string -> bool;
  readFileSync : string -> Outcome string;
  globbySync : string -> string -> Outcome (list string);
  execSync : string -> Outcome string;
  RegExp_new : string -> bool -> Outcome RegExp;
}.

(** The class of [escapeShell]: double quote, dollar, backtick,
    backslash, exclamation mark. *)
Definition shell_special (c : ascii) : bool :=
  Js.ceq c Js.dquote || Js.ceq c Js.dollar || Js.ceq c Js.backtick
  || Js.ceq c Js.bslash || Js.ceq c Js.bang.

(** Escape a string for safe use inside double quotes in a shell command. *)
Definition escapeShell (str : string) : string :=
  Js.escapeClass shell_special str.

(** The class of the fallback's escape: the fourteen characters
    . * + ? ^ $ { } ( ) | [ ] and the backslash. *)
Definition regex_special (c : ascii) : bool :=
  let n := Js.code c in
  ((n =? 46) || (n =? 42) || (n =? 43) || (n =? 63) || (n =? 94)
   || (n =? 36) || (n =? 123) || (n =? 125) || (n =? 40) || (n =? 41)
   || (n =? 124) || (n =? 91) || (n =? 93) || (n =? 92))%N.

Definition escapeRegExp (query : string) : string :=
  Js.escapeClass regex_special query.

(** The dot of a regular expression without the [s] flag: every code
    unit but a line terminator. *)
Definition is_dot (c : ascii) : bool :=
  negb (Js.ceq c Js.newline || Js.ceq c Js.creturn).

(** Greedy [\d*]: the digits in front and the rest. *)
Fixpoint span_digits (s : string) : string * string :=
  match s with
  | EmptyString => (EmptyString, EmptyString)
  | String c s' =>
      if Js.is_digit c
      then let (ds, r) := span_digits s' in (String c ds, r)
      else (EmptyString, s)
  end.

(** The rest of the pattern, anchored at the start of [s]: a colon, one
    or more digits (second group), a colon, then dots up to the end of
    the input (third group). *)
Definition match_tail (s : string) : option (string * string) :=
  match s with
  | EmptyString => None
  | String c s1 =>
      if negb (Js.ceq c Js.colon) then None
      else
        match span_digits s1 with
        | (EmptyString, _) => None
        | (_, EmptyString) => None
        | (ds, String c2 s3) =>
            if Js.ceq c2 Js.colon && Js.allb is_dot s3
            then Some (ds, s3) else None
        end
  end.

(** The lazy group [(.+?)]: [acc] is what it holds so far; it grows one
    code unit at a time until the rest matches. *)
Fixpoint match_lazy (acc : string) (s : string)
  : option (string * string * string) :=
  match match_tail s with
  | Some (ds, c) => Some (acc, ds, c)
  | None =>
      match s with
      | EmptyString => None
      | String ch s' =>
          if is_dot ch then match_lazy (acc +:+ Js.str1 ch) s' else None
      end
  end.

(** [line.match(...)] with the pattern of [parseRgOutput]: a lazy
    non-empty run of dots (the file path), then [match_tail]. *)
Definition match_rg_line (line : string)
  : option (string * string * string) :=
  match line with
  | EmptyString => None
  | String ch s' => if is_dot ch then match_lazy (Js.str1 ch) s' else None
  end.

Section WithEnv.
Context `{HostEnv} `{SearchEnv}.

(** [for (const line of lines)] of [parseRgOutput]. *)
Fixpoint parseLines (lines : list string) (maxResults : Z)
    (results : list SearchResult) : list SearchResult :=
  match lines with
  | [] => results
  | line :: rest =>
      if Z.of_nat (length results) >=? maxResults then results
      else
        match match_rg_line line with
        | Some (filePath, lineNum, content) =>
            let relativePath := path_relative Git.REPOS_DIR filePath in
            let repoPart :=
              hd EmptyString (Js.split Js.slash relativePath) in
            parseLines rest maxResults
              (results ++
               [{| file := relativePath;
                   line := Some (Js.parseInt lineNum);
                   content := Js.trim content;
                   repo := repoPart |}])
        | None => parseLines rest maxResults results
        end
  end.

Definition parseRgOutput (output : string) (maxResults : Z)
  : list SearchResult :=
  let lines := Js.filterBoolean (Js.split Js.newline output) in
  parseLines lines maxResults [].

(** [for (let i = 0; i < lines.length; i++)] of [manualSearch]. *)
Fixpoint scanLines (searchRegex : RegExp) (maxResults : Z) (file : string)
    (lines : list string) (i : Z) (results : list SearchResult)
  : list SearchResult :=
  match lines with
  | [] => results
  | l :: rest =>
      if Z.of_nat (length results) >=? maxResults then results
      else
        scanLines searchRegex maxResults file rest (i + 1)
          (if searchRegex l then
             let relativePath := path_relative Git.REPOS_DIR file in
             let repoPart :=
               hd EmptyString (Js.split Js.slash relativePath) in
             results ++
             [{| file := relativePath;
                 line := Some (i + 1);
                 content := Js.trim l;
                 repo := repoPart |}]
           else results)
  end.

(** [for (const file of files)] of [manualSearch]; a file that cannot be
    read is skipped. *)
Fixpoint scanFiles (searchRegex : RegExp) (maxResults : Z)
    (files : list string) (results : list SearchResult)
  : list SearchResult :=
  match files with
  | [] => results
  | file :: rest =>
      if Z.of_nat (length results) >=? maxResults then results
      else
        scanFiles searchRegex maxResults rest
          (match readFileSync file with
           | Ret content =>
               scanLines searchRegex maxResults file
                 (Js.split Js.newline content) 0 results
           | Throw _ => results
           end)
  end.

(** The fallback scan. The outer [catch] returns [results], still empty
    when [globbySync] or the second [new RegExp] throws: results are only
    pushed in the loop, where nothing escapes. *)
Definition manualSearch (query searchPath filePattern : string)
    (maxResults : Z) (caseSensitive : bool) : Outcome (list SearchResult) :=
  let pattern := Js.replaceFirst "*." "**/*." filePattern in
  try_catch
    (files ← globbySync pattern searchPath;
     searchRegex ←
       try_catch (RegExp_new query (negb caseSensitive))
         (fun _ => RegExp_new (escapeRegExp query) (negb caseSensitive));
     Ret (scanFiles searchRegex maxResults files []))
    (fun _ => Ret []).

Definition searchPathOf (options : SearchOptions) : string :=
  match opt_repo options with
  | Some r => if Js.truthy r then Git.getRepoPath r else Git.REPOS_DIR
  | None => Git.REPOS_DIR
  end.

(** The command line of the primary path. *)
Definition rgCommand (query : string) (filePattern : string)
    (maxResults : Z) (caseSensitive : bool) (searchPath : string) : string :=
  let rgFlags :=
    Js.join " "
      (Js.filterBoolean
         [ if caseSensitive then EmptyString else "-i"; "-n"; "--no-heading";
           "-g"; filePattern; "-m"; Js.ofZ (maxResults * 2) ]) in
  "rg " +:+ rgFlags +:+ " " +:+ Js.str1 Js.dquote +:+ escapeShell query
  +:+ Js.str1 Js.dquote +:+ " " +:+ Js.str1 Js.dquote +:+ searchPath
  +:+ Js.str1 Js.dquote.

(** Search code using ripgrep (falls back to manual search if rg not
    available) *)
Definition searchCode (query : string) (options : SearchOptions)
  : Outcome (list SearchResult) :=
  let filePattern := default "*.nr" (filePattern options) in
  let maxResults := default 50 (maxResults options) in
  let caseSensitive := default false (caseSensitive options) in
  let searchPath := searchPathOf options in
  if negb (existsSync searchPath) then Ret []
  else
    try_catch
      (result ← execSync
                  (rgCommand query filePattern maxResults caseSensitive
                     searchPath);
       Ret (parseRgOutput result maxResults))
      (fun _ =>
         manualSearch query searchPath filePattern maxResults caseSensitive).

(** Read a specific file *)
Definition readFile (filePath : string) : Outcome (option string) :=
  let fullPath :=
    if Js.startsWith filePath "/" then filePath
    else path_join Git.REPOS_DIR filePath in
  if negb (existsSync fullPath) then Ret None
  else
    try_catch
      (text ← readFileSync fullPath; Ret (Some text))
      (fun _ => Ret None).

Record ReadResult : Type := {
  read_success : bool;
  read_content : option string;
  read_message : string;
}.

(** Read any file from cloned repos (the tool over [readFile]). *)
Definition readRepoFile (path : string) : Outcome ReadResult :=
  content ← readFile path;
  match content with
  | Some text =>
      if Js.truthy text then
        Ret {| read_success := true; read_content := Some text;
               read_message := "Read file: " +:+ path |}
      else
        Ret {| read_success := false; read_content := None;
               read_message :=
                 "File not found: " +:+ path
                 +:+ ". Make sure the path is relative to the repos directory." |}
  | None =>
      Ret {| read_success := false; read_content := None;
             read_message :=
               "File not found: " +:+ path
               +:+ ". Make sure the path is relative to the repos directory." |}
  end.

End WithEnv.
End Search.

(** ** [src/repos/config.ts]: the accessors of the table *)

Module Repos.
Import Config.

Section WithHost.
Context `{HostEnv}.

(** Get repos filtered by category *)
Definition getReposByCategory (category : RepoCategory)
    (version : option string) : list RepoConfig :=
  let repos :=
    if Js.truthy_opt version then getNoirRepos version else NOIR_REPOS in
  List.filter (fun r => category_eqb (Config.category r) category) repos.

(** Get all available category names *)
Definition getCategoryNames : list RepoCategory :=
  [core; libraries; reference].

(** Get repo config by name *)
Definition getRepoConfig (name : string) : option RepoConfig :=
  List.find (fun repo => String.eqb (Config.name repo) name) NOIR_REPOS.

(** Get all repo names *)
Definition getRepoNames : list string := map Config.name NOIR_REPOS.

End WithHost.
End Repos.

(** ** [src/utils/git.ts] and the sync tool: the status of the mirror *)

Module Status.
Import Config Git.

(** A value of the map [getReposStatus] builds. *)
Record RepoState : Type := {
  st_cloned : bool;
  st_commit : option string;
}.

Record StatusEntry : Type := {
  name : string;
  description : string;
  category : RepoCategory;
  cloned : bool;
  commit : option string;
}.

Record StatusReport : Type := {
  reposDir : string;
  repos : list StatusEntry;
}.

(** [v || undefined] on [string | null]. *)
Definition or_undefined (v : option string) : option string :=
  match v with
  | Some s => if Js.truthy s then Some s else None
  | None => None
  end.

Section WithEnv.
Context `{HostEnv} `{GitEnv}.

(** [for (const config of configs) { ... status.set(config.name, ...) }].
    The map is only read with [get], so the order of insertion of the
    JavaScript [Map] is not kept. *)
Fixpoint statusLoop (configs : list RepoConfig)
    (status : gmap string RepoState) : M (gmap string RepoState) :=
  match configs with
  | [] => ret status
  | config :: rest =>
      cloned ← gets (fun s => isRepoCloned s (Config.name config));
      commit ← (if (cloned : bool)
                then c ← getRepoCommit (Config.name config) false;
                     ret (or_undefined c)
                else ret None);
      statusLoop rest
        (<[Config.name config :=
             {| st_cloned := cloned; st_commit := commit |}]> status)
  end.

(** Get status of all repos *)
Definition getReposStatus (configs : list RepoConfig)
  : M (gmap string RepoState) :=
  statusLoop configs ∅.

(** Get status of all configured repositories *)
Definition getStatus : M StatusReport :=
  statusMap ← getReposStatus NOIR_REPOS;
  ret {| reposDir := REPOS_DIR;
         repos :=
           map (fun config =>
                  let status := statusMap !! Config.name config in
                  {| name := Config.name config;
                     description := Config.description config;
                     category := Config.category config;
                     cloned :=
                       match status with
                       | Some st => st_cloned st
                       | None => false
                       end;
                     commit :=
                       match status with
                       | Some st => st_commit st
                       | None => None
                       end |})
               NOIR_REPOS |}.

End WithEnv.
End Status.

(** ** [src/utils/search.ts]: the derived searches and the listings *)

Module SearchLib.
Import Config Search.

Inductive FileType : Type :=
| circuit | test | typescript | docs | other.

(** [name] is [undefined] when the path has no segment to take it
    from. *)
Record FileInfo : Type := {
  path : string;
  name : option string;
  repo : string;
  type : FileType;
}.

Record LibraryInfo : Type := {
  lib_name : string;
  lib_description : string;
  lib_category : RepoCategory;
  lib_url : string;
  lib_cloned : bool;
}.

(** [parts.indexOf(x)]: [None] is -1. *)
Fixpoint indexOf (x : string) (parts : list string) : option nat :=
  match parts with
  | [] => None
  | p :: rest =>
      if String.eqb p x then Some O
      else match indexOf x rest with
           | Some i => Some (S i)
           | None => None
           end
  end.

(** [srcIndex > 0 ? parts[srcIndex - 1] : parts[parts.length - 2]] *)
Definition circuitName (parts : list string) : option string :=
  match indexOf "src" parts with
  | Some (S i) => nth_error parts i
  | _ =>
      match length parts with
      | S (S k) => nth_error parts k
      | _ => None
      end
  end.

(** What reading a property of [undefined] throws. *)
Definition type_error : Thrown :=
  ErrorObj "TypeError" "Cannot read properties of undefined".

(** [name.toLowerCase()] on a name that may be [undefined]. *)
Definition lowerName (e : FileInfo) : Outcome string :=
  match name e with
  | Some n => Ret (Js.toLowerCase n)
  | None => Throw type_error
  end.

(** [l.filter(p)] and [l.find(p)] with a callback that may throw. *)
Fixpoint filter_exn {A} (p : A -> Outcome bool) (l : list A)
  : Outcome (list A) :=
  match l with
  | [] => Ret []
  | x :: rest =>
      keep ← p x;
      kept ← filter_exn p rest;
      Ret (if (keep : bool) then x :: kept else kept)
  end.

Fixpoint find_exn {A} (p : A -> Outcome bool) (l : list A)
  : Outcome (option A) :=
  match l with
  | [] => Ret None
  | x :: rest =>
      hit ← p x;
      if (hit : bool) then Ret (Some x) else find_exn p rest
  end.

(** [e.name.toLowerCase().includes(q) || e.path.toLowerCase().includes(q)] *)
Definition mentions (q : string) (e : FileInfo) : Outcome bool :=
  n ← lowerName e;
  Ret (Js.includes n q || Js.includes (Js.toLowerCase (path e)) q).

(** [e.name.toLowerCase() === q] *)
Definition named (q : string) (e : FileInfo) : Outcome bool :=
  n ← lowerName e;
  Ret (String.eqb n q).

Section WithEnv.
Context `{HostEnv} `{SearchEnv}.

(** [isRepoCloned] of [git.ts], on this module's view of the file
    system. *)
Definition isRepoCloned (repoName : string) : bool :=
  existsSync (path_join (Git.getRepoPath repoName) ".git").

(** Search Noir documentation files. The section directory is
    [join(REPOS_DIR, "noir", "docs", section)], joined one segment at a
    time. *)
Definition searchDocs (query : string) (section : option string)
    (limit : option Z) : Outcome (list SearchResult) :=
  let maxResults := default 30 limit in
  let repo :=
    match section with
    | Some s =>
        if Js.truthy s then
          let docsPath :=
            path_join (path_join (path_join Git.REPOS_DIR "noir") "docs") s in
          if existsSync docsPath then Some ("noir/docs/" +:+ s) else None
        else None
    | None => None
    end in
  searchCode query
    {| filePattern := Some "*.{md,mdx}";
       opt_repo := Some (default "noir" (Js.or_else repo (Some "noir")));
       maxResults := Some maxResults;
       caseSensitive := None |}.

(** Search the Noir standard library (.nr files in noir_stdlib) *)
Definition searchStdlib (query : string) (limit : option Z)
  : Outcome (list SearchResult) :=
  let maxResults := default 30 limit in
  let stdlibPath := path_join (Git.getRepoPath "noir") "noir_stdlib" in
  if negb (existsSync stdlibPath) then Ret []
  else
    searchCode query
      {| filePattern := Some "*.nr";
         opt_repo := Some "noir/noir_stdlib";
         maxResults := Some maxResults;
         caseSensitive := None |}.

(** [for (const file of files)] of [findCircuits]. *)
Definition circuitOf (repoName : string) (file : string) : FileInfo :=
  let relativePath := path_relative Git.REPOS_DIR file in
  let parts := Js.split Js.slash relativePath in
  {| path := relativePath; name := circuitName parts; repo := repoName;
     type := circuit |}.

Definition findCircuits (basePath repoName : string) : list FileInfo :=
  match globbySync "**/src/main.nr" basePath with
  | Ret files => map (circuitOf repoName) files
  | Throw _ => []
  end.

(** List example circuits *)
Definition listExamples (category : option string)
  : Outcome (list FileInfo) :=
  let examplesPath := Git.getRepoPath "noir-examples" in
  let noirExamplesPath := path_join (Git.getRepoPath "noir") "examples" in
  let examples :=
    (if existsSync examplesPath
     then findCircuits examplesPath "noir-examples" else [])
    ++ (if existsSync noirExamplesPath
        then findCircuits noirExamplesPath "noir" else []) in
  match category with
  | Some c =>
      if Js.truthy c
      then filter_exn (mentions (Js.toLowerCase c)) examples
      else Ret examples
  | None => Ret examples
  end.

(** List library repos with their metadata and clone status *)
Definition listLibraries (category : option RepoCategory)
  : list LibraryInfo :=
  let categoriesToShow :=
    match category with
    | Some c => [c]
    | None => [libraries; reference]
    end in
  map (fun r =>
         {| lib_name := Config.name r;
            lib_description := Config.description r;
            lib_category := Config.category r;
            lib_url := Config.url r;
            lib_cloned := isRepoCloned (Config.name r) |})
      (List.filter
         (fun r => existsb (category_eqb (Config.category r)) categoriesToShow)
         NOIR_REPOS).

(** Find an example circuit by name *)
Definition findExample (query : string) : Outcome (option FileInfo) :=
  examples ← listExamples None;
  let lowerQuery := Js.toLowerCase query in
  exact ← find_exn (named lowerQuery) examples;
  match exact with
  | Some e => Ret (Some e)
  | None => find_exn (mentions lowerQuery) examples
  end.

End WithEnv.
End SearchLib.

(** ** [src/tools/search.ts] *)

Module Tools.
Import Config Search SearchLib.

Record SearchReply : Type := {
  success : bool;
  results : list SearchResult;
  message : string;
}.

Record LibrariesReply : Type := {
  lib_success : bool;
  lib_libraries : list LibraryInfo;
  lib_message : string;
}.

(** [example] and [content] are absent from a reply that does not set
    them. *)
Record ExampleReply : Type := {
  ex_success : bool;
  ex_example : option FileInfo;
  ex_content : option string;
  ex_message : string;
}.

Record SearchRequest : Type := {
  query : string;
  req_filePattern : option string;
  req_repo : option string;
  req_maxResults : option Z;
}.

(** [results.length > 0 ? `Found ${n} <what>` : <none>] *)
Definition countMessage (what none : string) (results : list SearchResult)
  : string :=
  match results with
  | [] => none
  | _ :: _ =>
      "Found " +:+ Js.ofZ (Z.of_nat (length results)) +:+ " " +:+ what
  end.

(** The category a caller names, when it is one of the two this tool
    accepts. *)
Definition validCategory (category : option string) : option RepoCategory :=
  match category with
  | Some c =>
      if String.eqb c "libraries" then Some libraries
      else if String.eqb c "reference" then Some reference
      else None
  | None => None
  end.

Section WithEnv.
Context `{HostEnv} `{SearchEnv}.

(** Search Noir code (.nr files, TypeScript, etc.) *)
Definition searchNoirCode (options : SearchRequest) : Outcome SearchReply :=
  let filePattern := default "*.nr" (req_filePattern options) in
  let maxResults := default 30 (req_maxResults options) in
  let repo := req_repo options in
  if Js.truthy_opt repo && negb (isRepoCloned (default EmptyString repo))
  then
    Ret {| success := false; results := [];
           message := "Repository '" +:+ default EmptyString repo
                      +:+ "' is not cloned. Run noir_sync_repos first." |}
  else if negb (existsb isRepoCloned Repos.getRepoNames) then
    Ret {| success := false; results := [];
           message := "No repositories are cloned. Run noir_sync_repos first." |}
  else
    found ← searchCode (query options)
               {| filePattern := Some filePattern; opt_repo := repo;
                  maxResults := Some maxResults; caseSensitive := None |};
    Ret {| success := true; results := found;
           message := countMessage "matches" "No matches found" found |}.

(** Search Noir documentation *)
Definition searchNoirDocs (q : string) (section : option string)
    (limit : option Z) : Outcome SearchReply :=
  let maxResults := default 20 limit in
  if negb (isRepoCloned "noir") then
    Ret {| success := false; results := [];
           message :=
             "noir repo is not cloned. Run noir_sync_repos first to get documentation." |}
  else
    found ← searchDocs q section (Some maxResults);
    Ret {| success := true; results := found;
           message := countMessage "documentation matches"
                        "No documentation matches found" found |}.

(** Search Noir standard library *)
Definition searchNoirStdlib (q : string) (limit : option Z)
  : Outcome SearchReply :=
  let maxResults := default 30 limit in
  if negb (isRepoCloned "noir") then
    Ret {| success := false; results := [];
           message :=
             "noir repo is not cloned. Run noir_sync_repos first to search the standard library." |}
  else
    found ← searchStdlib q (Some maxResults);
    Ret {| success := true; results := found;
           message := countMessage "stdlib matches"
                        "No stdlib matches found" found |}.

(** Read an example circuit. [`${example.name}`] prints [undefined] for
    a name that is not defined. *)
Definition readNoirExample (exampleName : string) : Outcome ExampleReply :=
  example ← findExample exampleName;
  match example with
  | None =>
      Ret {| ex_success := false; ex_example := None; ex_content := None;
             ex_message :=
               "Example '" +:+ exampleName
               +:+ "' not found. Use noir_list_examples to see available examples." |}
  | Some e =>
      content ← readFile (path e);
      if Js.truthy_opt content then
        Ret {| ex_success := true; ex_example := Some e;
               ex_content := content;
               ex_message :=
                 "Read " +:+ default "undefined" (name e) +:+ " from "
                 +:+ repo e |}
      else
        Ret {| ex_success := false; ex_example := Some e;
               ex_content := None;
               ex_message := "Could not read example file: " +:+ path e |}
  end.

(** List Noir libraries with descriptions and clone status *)
Definition listNoirLibraries (category : option string) : LibrariesReply :=
  let libs := listLibraries (validCategory category) in
  {| lib_success := true; lib_libraries := libs;
     lib_message := "Found " +:+ Js.ofZ (Z.of_nat (length libs))
                    +:+ " library/reference repos" |}.

End WithEnv.
End Tools.

(** ** Notions the properties are stated with *)

Module Shell.















End Shell.

Module GitSpec.
Import Config Git.

Section WithEnv.
Context `{HostEnv} `{GitEnv}.

(** The three commands of an update in place. *)
Definition fetch_shallow (repoPath : string) : GitCmd :=
  GFetch repoPath ["--depth=1"].
Definition reset_hard (repoPath : string) : GitCmd :=
  GReset repoPath ["--hard"; "origin/HEAD"].

Definition update_event (repoPath : string) (ev : Event) : Prop :=
  ev = EvGit (fetch_shallow repoPath) \/ ev = EvGit (reset_hard repoPath)
  \/ ev = EvGit (GPull repoPath).

(** The first attempt of an update in place: shallow fetch, hard reset. *)
Definition fetch_and_reset (repoPath : string) : M unit :=
  git (fetch_shallow repoPath);; git (reset_hard repoPath).

(** An assumption on git, not on this program: a command that fails
    leaves the mirror store as it was, and a fetch, which only brings
    objects and remote-tracking refs, never changes what the store
    records of the working tree. *)
Definition quiet_failures : Prop :=
  (forall c r s e r' s', git_exec c r s = (Throw e, r', s') -> s' = s)
  /\ (forall path args r s o r' s',
        git_exec (GFetch path args) r s = (o, r', s') -> s' = s).

(** The last resort of [updateRepo]: a conventional pull, whose failure
    becomes a status. *)
Definition pull_phase (repoName : string) (w : World)
  : Outcome string * World :=
  match git (GPull (getRepoPath repoName)) w with
  | (Ret _, w') => (Ret ("Updated " +:+ repoName), w')
  | (Throw e, w') =>
      (Ret ("Failed to update " +:+ repoName +:+ ": " +:+ thrown_toString e),
       w')
  end.

(** A computation that only reads the mirror store: its outcome depends
    on the store alone and the world comes back unchanged. *)
Definition reads {A} (m : M A) : Prop :=
  forall w1 w2 : World, store w1 = store w2 -> m w2 = (fst (m w1), w2).


(** The world after the first two steps of [cloneRepo] when the old
    directory goes: the base directory ensured, the directory removed. *)
Definition removed (repoPath : string) (w : World) : World :=
  {| store := delete repoPath (store w); remote := remote w;
     trace := trace w ++ [EvMkdir REPOS_DIR; EvRm repoPath] |}.

(** The world after the first two steps when nothing is removed. *)
Definition kept (w : World) : World := emit (EvMkdir REPOS_DIR) w.

End WithEnv.
End GitSpec.

Module SyncSpec.
Import Config Git Sync.

Section WithEnv.
Context `{HostEnv} `{GitEnv}.

(** What the batch records for one pin, run from world [w]: the status
    [cloneRepo] returned, or, when it raised, the failure status made of
    the marker and the message of what was thrown. *)
Definition recorded (force : bool) (config : RepoConfig) (w : World)
    (r : RepoStatus) (w' : World) : Prop :=
  Sync.name r = Config.name config
  /\ ((exists status,
         cloneRepo config force w = (Ret status, w')
         /\ Sync.status r = status)
      \/ (exists e,
            cloneRepo config force w = (Throw e, w')
            /\ Sync.status r = "Error: " +:+ thrown_message e)).

(** The pins processed one after the other, each from the world the
    previous one left, with one outcome per pin. *)
Inductive Processed (force : bool)
  : list RepoConfig -> World -> list RepoStatus -> World -> Prop :=
| Processed_nil (w : World) : Processed force [] w [] w
| Processed_cons (config : RepoConfig) (rest : list RepoConfig)
    (w w1 w2 : World) (r : RepoStatus) (rs : list RepoStatus) :
    recorded force config w r w1 ->
    Processed force rest w1 rs w2 ->
    Processed force (config :: rest) w (r :: rs) w2.

End WithEnv.
End SyncSpec.

Module SearchSpec.
Import Search.

(** The characters of a pattern that stand for themselves once escaped:
    [decode_literal source] reads a pattern made only of ordinary
    characters and of escaped syntax characters and gives the text it
    denotes; any other pattern is outside this fragment. *)
Fixpoint decode_literal (source : string) : option string :=
  match source with
  | EmptyString => Some EmptyString
  | String c rest =>
      if Js.ceq c Js.bslash then
        match rest with
        | EmptyString => None
        | String d rest' =>
            if regex_special d
            then option_map (String d) (decode_literal rest')
            else None
        end
      else if regex_special c then None
      else option_map (String c) (decode_literal rest)
  end.

(** Case folding of the [i] flag on one code unit of the Latin-1 range:
    the small letters move to the capitals. The two letters whose capital
    lies beyond the range (the micro sign, y with diaeresis) and the sharp
    s stay as they are, which keeps them distinct from every other code
    unit of the range, as the engine has it. *)
Definition canonicalize (c : ascii) : ascii :=
  let n := Js.code c in
  if ((97 <=? n) && (n <=? 122))%N then Js.chr (n - 32)
  else if ((224 <=? n) && (n <=? 254) && negb (n =? 247))%N
       then Js.chr (n - 32)
       else c.

Fixpoint fold_case (s : string) : string :=
  match s with
  | EmptyString => EmptyString
  | String c s' => String (canonicalize c) (fold_case s')
  end.

(** [text] occurs in [l] as a literal substring, up to case when the
    search ignores case. *)
Definition literal_test (ignoreCase : bool) (text : string) : RegExp :=
  fun l =>
    if ignoreCase then Js.includes (fold_case l) (fold_case text)
    else Js.includes l text.

Section WithEnv.
Context `{HostEnv} `{SearchEnv}.


(** The result built from a raw path, a line number and a line. *)
Definition normalized (rawPath : string) (n : Z) (text : string)
  : SearchResult :=
  let relativePath := path_relative Git.REPOS_DIR rawPath in
  {| file := relativePath;
     line := Some n;
     content := Js.trim text;
     repo := hd EmptyString (Js.split Js.slash relativePath) |}.

(** The shape of a result: a path relative to the mirror root, a line
    number, a content without white space at either end, and the first
    segment of the path as its repository. *)
Definition well_shaped (r : SearchResult) : Prop :=
  (exists rawPath, file r = path_relative Git.REPOS_DIR rawPath)
  /\ (exists n, line r = Some n)
  /\ Js.trim (content r) = content r
  /\ repo r = hd EmptyString (Js.split Js.slash (file r)).

(** Where a result of the primary path comes from: a line of the
    matcher's output of the form path, colon, digits, colon, text. *)
Definition from_matcher (output : string) (r : SearchResult) : Prop :=
  exists l filePath lineNum text,
    In l (Js.split Js.newline output)
    /\ match_rg_line l = Some (filePath, lineNum, text)
    /\ r = normalized filePath (Js.parseInt lineNum) text.

(** Where a result of the fallback comes from: line [i] (from 0) of a
    readable file among [files], accepted by the expression, reported
    with the number [i + 1]. *)
Definition from_scan (searchRegex : RegExp) (files : list string)
    (r : SearchResult) : Prop :=
  exists f text i l,
    In f files
    /\ readFileSync f = Ret text
    /\ nth_error (Js.split Js.newline text) i = Some l
    /\ searchRegex l = true
    /\ r = normalized f (Z.of_nat i + 1) l.

End WithEnv.
End SearchSpec.

(** ** Notions for the further properties *)

Module MirrorSpec.
Import Config Git.

(** The directory a recorded event touches. *)
Definition cmd_path (c : GitCmd) : string :=
  match c with
  | GClone _ p _ | GRaw p _ | GFetch p _ | GCheckout p _ | GReset p _
  | GPull p => p
  end.

Definition event_path (ev : Event) : string :=
  match ev with
  | EvMkdir p | EvRm p => p
  | EvGit c => cmd_path c
  end.

Definition is_checkout (ev : Event) : bool :=
  match ev with
  | EvGit (GCheckout _ _) => true
  | _ => false
  end.

(** The ref a pin fixes, commit before tag; none for a branch pin. *)
Definition pinned_ref (config : RepoConfig) : option string :=
  if Js.truthy_opt (commit config) then commit config
  else if Js.truthy_opt (tag config) then tag config
  else None.

Definition has_sparse (config : RepoConfig) : bool :=
  match sparse config with
  | Some (_ :: _) => true
  | _ => false
  end.

(** The fresh checkout as one plan: the options of the clone say
    whether the transfer is filtered (sparse paths given) and whether a
    tree is checked out at once (branch pin, shallow) or not (commit or
    tag pin); the sparse paths are set next; a pinned ref is then fetched
    and checked out. *)
Definition clone_options (config : RepoConfig) : list string :=
  (if has_sparse config then ["--filter=blob:none"; "--sparse"] else [])
  ++ match pinned_ref config with
     | Some _ => ["--no-checkout"]
     | None => "--depth=1" :: branch_opts config
     end.

Definition sparse_commands (config : RepoConfig) (repoPath : string)
  : list GitCmd :=
  match sparse config with
  | Some (p :: ps) => [GRaw repoPath ("sparse-checkout" :: "set" :: p :: ps)]
  | _ => []
  end.

Definition pin_commands (config : RepoConfig) (repoPath : string)
  : list GitCmd :=
  if Js.truthy_opt (commit config) then
    let c := default EmptyString (commit config) in
    [GFetch repoPath ["origin"; c]; GCheckout repoPath c]
  else if Js.truthy_opt (tag config) then
    let t := default EmptyString (tag config) in
    [GFetch repoPath ["--depth=1"; "origin"; tag_refspec t];
     GCheckout repoPath t]
  else [].

(** The status a fresh checkout reports. *)
Definition checkout_status (config : RepoConfig) : string :=
  let ref := Js.or_else (Js.or_else (commit config) (tag config))
                        (branch config) in
  let refType :=
    if Js.truthy_opt (commit config) then "commit"
    else if Js.truthy_opt (tag config) then "tag" else "branch" in
  "Cloned " +:+ name config +:+ " @ " +:+ show_opt ref +:+ " (" +:+ refType
  +:+ match sparse config with
      | Some (p :: ps) => ", sparse: " +:+ Js.join ", " (p :: ps) +:+ ")"
      | _ => ")"
      end.

Section WithEnv.
Context `{HostEnv} `{GitEnv}.

Definition checkout_plan (config : RepoConfig) : list GitCmd :=
  let repoPath := getRepoPath (name config) in
  GClone (url config) repoPath (clone_options config)
  :: sparse_commands config repoPath ++ pin_commands config repoPath.

(** The commands of a plan, one after the other, up to the first that
    fails. *)
Fixpoint run_plan (cmds : list GitCmd) : M unit :=
  match cmds with
  | [] => ret tt
  | c :: rest => bind (git c) (fun _ => run_plan rest)
  end.

End WithEnv.
End MirrorSpec.

Module TableSpec.
Import Config.

Section WithHost.
Context `{HostEnv}.

(** The tag [getNoirRepos] gives the repository of a name. *)
Definition tag_for (version : option string) (n : string) : option string :=
  if String.eqb n "noir" then Some (env_or version DEFAULT_NOIR_VERSION)
  else if String.eqb n "bb.js" then Some DEFAULT_BB_VERSION
  else None.

End WithHost.
End TableSpec.

Module StatusSpec.
Import Config Git Status.

Section WithEnv.
Context `{HostEnv} `{GitEnv}.

(** The commit lookup of a repository rejects with [e]. *)
Definition lookup_rejects (w : World) (repoName : string) (e : Thrown)
  : Prop :=
  exists entry,
    store w !! getRepoPath repoName = Some entry
    /\ has_git entry = true
    /\ log_latest entry = Throw e.

End WithEnv.
End StatusSpec.

Module ScanSpec.
Import Search SearchSpec.

(** A line of the matcher: path, colon, line number, colon, text. *)
Definition rg_line (filePath lineNum text : string) : string :=
  filePath +:+ Js.str1 Js.colon +:+ lineNum +:+ Js.str1 Js.colon +:+ text.

(** A character a path may hold for the line to be read back as it was
    written: no colon, no line terminator. *)
Definition path_char (c : ascii) : bool :=
  is_dot c && negb (Js.ceq c Js.colon).

(** The inverse of [escapeShell]: a backslash is dropped and the
    character after it kept. *)
Fixpoint unescape (s : string) : string :=
  match s with
  | EmptyString => EmptyString
  | String c rest =>
      if Js.ceq c Js.bslash then
        match rest with
        | EmptyString => EmptyString
        | String d rest' => String d (unescape rest')
        end
      else String c (unescape rest)
  end.

Section WithEnv.
Context `{HostEnv} `{SearchEnv}.

(** What one line of the matcher's output contributes. *)
Definition parsed_line (l : string) : list SearchResult :=
  match match_rg_line l with
  | Some (filePath, lineNum, text) =>
      [normalized filePath (Js.parseInt lineNum) text]
  | None => []
  end.

(** The matches of the lines of a file, from line number [i + 1] on. *)
Fixpoint line_hits (re : RegExp) (f : string) (lines : list string) (i : Z)
  : list SearchResult :=
  match lines with
  | [] => []
  | l :: rest =>
      (if re l then [normalized f (i + 1) l] else [])
      ++ line_hits re f rest (i + 1)
  end.

(** The matches of a file; none when it cannot be read. *)
Definition file_hits (re : RegExp) (f : string) : list SearchResult :=
  match readFileSync f with
  | Ret text => line_hits re f (Js.split Js.newline text) 0
  | Throw _ => []
  end.

Definition readable (f : string) : bool :=
  match readFileSync f with
  | Ret _ => true
  | Throw _ => false
  end.

End WithEnv.
End ScanSpec.

Module ExampleSpec.
Import SearchLib.

(** The two tests of [findExample] and [listExamples] on an example whose
    name is defined. *)
Definition named_b (q : string) (e : FileInfo) : bool :=
  match name e with
  | Some n => String.eqb (Js.toLowerCase n) q
  | None => false
  end.

Definition mentions_b (q : string) (e : FileInfo) : bool :=
  match name e with
  | Some n =>
      Js.includes (Js.toLowerCase n) q
      || Js.includes (Js.toLowerCase (path e)) q
  | None => false
  end.

Definition has_name (e : FileInfo) : Prop := name e <> None.

End ExampleSpec.

Module LibrarySpec.
Import Config.

(** The categories [listNoirLibraries] shows for the category string a
    caller passes. *)
Definition shows (category : option string) (c : RepoCategory) : Prop :=
  c <> core
  /\ (category = Some "libraries" -> c = libraries)
  /\ (category = Some "reference" -> c = reference).

End LibrarySpec.

(** ** Concrete environments, for the examples *)

Module Demo.
Import Config Git.

(** Paths joined with a slash; [relative] strips the base directory. *)
Definition host : HostEnv := {|
  path_join := fun a b => a +:+ "/" +:+ b;
  path_relative := fun from to =>
    if Js.startsWith to (from +:+ "/")
    then Js.drop (S (String.length from)) to else to;
  homedir := "/home/dev";
  env_NOIR_MCP_REPOS_DIR := None;
  env_NOIR_DEFAULT_VERSION := None;
  env_BB_DEFAULT_VERSION := None;
|}.

Definition cloned_at (hash : option string) (described : Outcome string)
  : MirrorEntry :=
  {| has_git := true; log_latest := Ret hash; describe_head := described |}.

Definition not_a_tag : Thrown :=
  ErrorObj "Error" "fatal: no tag exactly matches HEAD".

Definition offline : Thrown :=
  ErrorObj "Error" "fatal: unable to access the remote".

Definition not_found : Thrown :=
  ErrorObj "Error" "fatal: repository not found".

(** A git that works while the network is up ([true]) and fails, leaving
    the mirror as it is, while it is down; a clone creates the entry,
    except for the one remote that is gone. *)
Definition demo_exec (c : GitCmd) (online : bool)
    (s : gmap string MirrorEntry)
  : Outcome unit * bool * gmap string MirrorEntry :=
  if negb online then (Throw offline, online, s)
  else match c with
       | GClone u path _ =>
           if String.eqb u "https://github.com/noir-lang/noir-examples"
           then (Throw not_found, online, s)
           else
             (Ret tt, online,
              <[path := cloned_at (Some "abc1234def5678")
                          (Throw not_a_tag)]> s)
       | _ => (Ret tt, online, s)
       end.

Definition git_env : GitEnv := Build_GitEnv bool demo_exec.

Definition pin (n : string) (t c : option string) (cat : RepoCategory)
  : RepoConfig :=
  {| name := n; url := "https://example.org/" +:+ n; branch := Some "main";
     tag := t; commit := c; sparse := None; description := n;
     category := cat; searchPatterns := None |}.

Definition world (online : bool) (s : gmap string MirrorEntry)
  : @World git_env :=
  @Build_World git_env s online [].

Definition noir_path : string := "/home/dev/.noir-mcp/repos/noir".

End Demo.

Module DemoSearch.
Import Search SearchSpec.

Definition repos_dir : string := "/home/dev/.noir-mcp/repos".
Definition main_nr : string := "/home/dev/.noir-mcp/repos/noir/src/main.nr".

Definition main_text : string :=
  "fn main() {" +:+ Js.str1 Js.newline
  +:+ "    let a = [unterminated;  " +:+ Js.str1 Js.newline
  +:+ "}".

Definition syntax_error : Thrown :=
  ErrorObj "SyntaxError" "Invalid regular expression".

(** One file under the mirror root, one file outside of it, no external
    matcher, and an engine that knows the literal fragment only. *)
Definition search_env : SearchEnv := {|
  existsSync := fun p =>
    String.eqb p repos_dir || String.eqb p main_nr
    || String.eqb p "/etc/hostname";
  readFileSync := fun p =>
    if String.eqb p main_nr then Ret main_text
    else if String.eqb p "/etc/hostname" then Ret "devbox"
    else Throw (ErrorObj "Error" "ENOENT: no such file or directory");
  globbySync := fun _ cwd =>
    if String.eqb cwd repos_dir then Ret [main_nr] else Ret [];
  execSync := fun _ => Throw (ErrorObj "Error" "rg: command not found");
  RegExp_new := fun source ignoreCase =>
    match decode_literal source with
    | Some text => Ret (literal_test ignoreCase text)
    | None => Throw syntax_error
    end;
|}.

Definition options (limit : Z) : SearchOptions :=
  {| filePattern := None; opt_repo := None; maxResults := Some limit;
     caseSensitive := None |}.

End DemoSearch.

Module DemoScan.
Import Search SearchSpec.

Definition lib_nr : string := "/home/dev/.noir-mcp/repos/noir/src/lib.nr".
Definition locked_nr : string :=
  "/home/dev/.noir-mcp/repos/noir/src/locked.nr".
Definition main_nr : string := "/home/dev/.noir-mcp/repos/noir/src/main.nr".

Definition lib_text : string :=
  "fn helper() {}" +:+ Js.str1 Js.newline +:+ "fn other() {}".
Definition main_text : string :=
  "use lib;" +:+ Js.str1 Js.newline +:+ "fn main() {}".

(** Three files, the second of which cannot be read, and no external
    matcher. *)
Definition search_env : SearchEnv := {|
  existsSync := fun _ => true;
  readFileSync := fun p =>
    if String.eqb p lib_nr then Ret lib_text
    else if String.eqb p main_nr then Ret main_text
    else Throw (ErrorObj "Error" "EACCES: permission denied");
  globbySync := fun _ _ => Ret [lib_nr; locked_nr; main_nr];
  execSync := fun _ => Throw (ErrorObj "Error" "rg: command not found");
  RegExp_new := fun source ignoreCase =>
    Ret (literal_test ignoreCase source);
|}.

End DemoScan.

Module DemoExamples.
Import Search.

Definition examples_dir : string := "/home/dev/.noir-mcp/repos/noir-examples".
Definition recursion_nr : string :=
  "/home/dev/.noir-mcp/repos/noir-examples/recursion/src/main.nr".
Definition recursion_lib_nr : string :=
  "/home/dev/.noir-mcp/repos/noir-examples/recursion_lib/src/main.nr".

(** Two example circuits under [noir-examples]; nothing else exists. *)
Definition search_env : SearchEnv := {|
  existsSync := fun p => String.eqb p examples_dir;
  readFileSync := fun _ =>
    Throw (ErrorObj "Error" "ENOENT: no such file or directory");
  globbySync := fun _ cwd =>
    if String.eqb cwd examples_dir
    then Ret [recursion_lib_nr; recursion_nr] else Ret [];
  execSync := fun _ => Throw (ErrorObj "Error" "rg: command not found");
  RegExp_new := fun _ _ => Throw (ErrorObj "SyntaxError" "unsupported");
|}.

End DemoExamples.

Module DemoExamplesList.
Import SearchLib.

Definition recursion_lib : FileInfo :=
  {| path := "noir-examples/recursion_lib/src/main.nr";
     name := Some "recursion_lib"; repo := "noir-examples";
     type := circuit |}.

Definition recursion : FileInfo :=
  {| path := "noir-examples/recursion/src/main.nr";
     name := Some "recursion"; repo := "noir-examples"; type := circuit |}.

Definition examples : list FileInfo := [recursion_lib; recursion].

End DemoExamplesList.

(** * Properties *)

Create HintDb mirror.

(** ** Code units *)

Lemma ceq_true (a b : ascii) : Js.ceq a b = true <-> a = b.
Proof. apply Ascii.eqb_eq. Qed.

Lemma ceq_false (a b : ascii) : Js.ceq a b = false <-> a <> b.
Proof. apply Ascii.eqb_neq. Qed.



Lemma append_nil_l (t : string) : EmptyString +:+ t = t.
Proof. reflexivity. Qed.

Lemma append_cons (c : ascii) (s t : string) :
  String c s +:+ t = String c (s +:+ t).
Proof. reflexivity. Qed.

Lemma append_assoc (s t u : string) : (s +:+ t) +:+ u = s +:+ (t +:+ u).
Proof.
  induction s as [|c s IH]; [reflexivity|].
  rewrite !append_cons, IH. reflexivity.
Qed.

Lemma append_nil_r (s : string) : s +:+ EmptyString = s.
Proof.
  induction s as [|a s IH]; [reflexivity|].
  rewrite append_cons, IH. reflexivity.
Qed.

(** ** The shell escape *)



(** *** The command line, as the shell cuts it *)










(** ** The version reconciler *)

#[local] Arguments Js.take : simpl never.
#[local] Arguments Js.startsWith : simpl never.

Section Reconciler.
Import Config Git.
Context `{HostEnv} `{GitEnv}.

(** Unfolding one monadic step. *)
Ltac run :=
  unfold mbind, M_bind, bind, catch, gets, ret, throw; simpl.

Lemma isRepoCloned_entry (s : gmap string MirrorEntry) (n : string) :
  isRepoCloned s n = true ->
  exists e, s !! getRepoPath n = Some e /\ has_git e = true.
Proof.
  unfold isRepoCloned. destruct (s !! getRepoPath n) as [e|]; [|discriminate].
  intros He. exists e. split; [reflexivity|exact He].
Qed.

(** [getRepoTag] never rejects and leaves the world as it is. *)
Lemma getRepoTag_total (n : string) (w : World) :
  exists cur, getRepoTag n w = (Ret cur, w).
Proof.
  unfold getRepoTag. run.
  destruct (isRepoCloned (store w) n); simpl; [|eauto].
  unfold git_describe.
  destruct (store w !! getRepoPath n) as [e|]; [|eauto].
  destruct (describe_head e); eauto.
Qed.

Lemma getRepoTag_not_on_tag (n : string) (w : World) (e : MirrorEntry)
    (err : Thrown) :
  store w !! getRepoPath n = Some e -> describe_head e = Throw err ->
  getRepoTag n w = (Ret None, w).
Proof.
  intros He Hd. unfold getRepoTag, isRepoCloned. run. rewrite He.
  destruct (has_git e); simpl; [|reflexivity].
  unfold git_describe. rewrite He, Hd. reflexivity.
Qed.

Lemma strict_neq_spec (a : option string) (b : string) :
  strict_neq a (Some b) = bool_decide (a <> Some b).
Proof.
  destruct a as [x|]; unfold strict_neq.
  - destruct (String.eqb_spec x b) as [->|Hne]; symmetry.
    + apply bool_decide_eq_false_2. intros Hn. apply Hn. reflexivity.
    + apply bool_decide_eq_true_2. congruence.
  - symmetry. apply bool_decide_eq_true_2. discriminate.
Qed.

(** The amended C1. For every pin whose [commit] is set (a non-empty
    string): [needsReclone] returns true when the repository is not
    cloned; when it is cloned and the commit lookup answers, it returns
    false exactly when the mirror's full commit hash starts with the
    first seven characters of the pin's commit string, and true when the
    lookup finds no hash. *)
Theorem needsReclone_commit_pin :
  forall (config : RepoConfig) (w : World) (c : string),
    commit config = Some c -> Js.truthy c = true ->
    (isRepoCloned (store w) (name config) = false ->
     needsReclone config w = (Ret true, w))
    /\ (forall e latest,
          store w !! getRepoPath (name config) = Some e ->
          has_git e = true -> log_latest e = Ret latest ->
          exists answer,
            needsReclone config w = (Ret answer, w)
            /\ (answer = false <->
                exists hash, latest = Some hash /\ Js.truthy hash = true
                  /\ Js.startsWith hash (Js.take 7 c) = true)).
Proof.
  intros config w c Hc Ht. split.
  - intros Hn. unfold needsReclone. run. rewrite Hn. reflexivity.
  - intros e latest He Hg Hl.
    unfold needsReclone, getRepoCommit, isRepoCloned, git_log. run.
    rewrite He, Hg, Hc. simpl. rewrite Ht, He, Hg. simpl. rewrite He, Hl.
    destruct latest as [hash|]; simpl.
    + destruct (Js.truthy hash) eqn:Hh; simpl.
      * eexists. split; [reflexivity|].
        rewrite negb_false_iff. split.
        -- intros Hs. exists hash. auto.
        -- intros (h' & Heq & _ & Hs). congruence.
      * eexists. split; [reflexivity|].
        split; [discriminate|]. intros (h' & Heq & Hh' & _). congruence.
    + eexists. split; [reflexivity|].
      split; [discriminate|]. intros (h' & Heq & _). discriminate.
Qed.

(** The tag [getRepoTag] gives for a cloned repository: the trimmed
    answer of the describe query, none when it rejects or answers only
    white space. *)
Lemma getRepoTag_cloned (n : string) (w : World) (e : MirrorEntry) :
  store w !! getRepoPath n = Some e -> has_git e = true ->
  getRepoTag n w
  = (Ret match describe_head e with
         | Ret out =>
             if Js.truthy (Js.trim out) then Some (Js.trim out) else None
         | Throw _ => None
         end, w).
Proof.
  intros He Hg. unfold getRepoTag, isRepoCloned, git_describe. run.
  rewrite He, Hg. simpl. rewrite He.
  destruct (describe_head e) as [out|err]; reflexivity.
Qed.

(** C8. For every pin with a [tag] set and no [commit] whose repository
    is cloned, [needsReclone] returns true exactly when the mirror's
    current exact tag differs from the pin's tag. The current tag is what
    [getRepoTag] gives: the trimmed answer of the describe query on HEAD,
    and none when that query fails because HEAD is on no tag (or answers
    nothing); so [needsReclone] returns false exactly when the describe
    query answers the pinned tag, and true when HEAD is on no tag. For
    every branch-only pin (no commit, no tag) whose repository is cloned
    it returns false. A field is set when it holds a non-empty string,
    which is what the code tests. *)
Theorem needsReclone_tag_and_branch_pins :
  forall (config : RepoConfig) (w : World),
    isRepoCloned (store w) (name config) = true ->
    Js.truthy_opt (commit config) = false ->
    (forall t, tag config = Some t -> Js.truthy t = true ->
       exists current,
         getRepoTag (name config) w = (Ret current, w)
         /\ needsReclone config w = (Ret (bool_decide (current <> Some t)), w)
         /\ (forall e,
               store w !! getRepoPath (name config) = Some e ->
               current
               = match describe_head e with
                 | Ret out =>
                     if Js.truthy (Js.trim out)
                     then Some (Js.trim out) else None
                 | Throw _ => None
                 end
               /\ (needsReclone config w = (Ret false, w)
                   <-> exists out,
                         describe_head e = Ret out /\ Js.trim out = t)
               /\ (needsReclone config w = (Ret true, w)
                   <-> forall out,
                         describe_head e = Ret out -> Js.trim out <> t))
         /\ (forall e err,
               store w !! getRepoPath (name config) = Some e ->
               describe_head e = Throw err ->
               current = None
               /\ needsReclone config w = (Ret true, w)))
    /\ (Js.truthy_opt (tag config) = false ->
        needsReclone config w = (Ret false, w)).
Proof.
  intros config w Hcl Hc. split.
  - intros t Ht Htt.
    destruct (getRepoTag_total (name config) w) as [cur Hcur].
    exists cur. split; [exact Hcur|].
    assert (Hn : needsReclone config w
                 = (Ret (bool_decide (cur <> Some t)), w)).
    { unfold needsReclone. run. rewrite Hcl, Hc. simpl.
      rewrite Ht. simpl. rewrite Htt, Hcur. rewrite strict_neq_spec.
      reflexivity. }
    split; [exact Hn|]. split.
    + intros e He.
      destruct (isRepoCloned_entry _ _ Hcl) as (e' & He' & Hg).
      rewrite He in He'. injection He' as <-.
      rewrite (getRepoTag_cloned _ _ _ He Hg) in Hcur.
      injection Hcur as Hcur.
      split; [symmetry; exact Hcur|]. rewrite Hn.
      assert (Hsame : cur = Some t
                      <-> exists out,
                            describe_head e = Ret out /\ Js.trim out = t).
      { rewrite <- Hcur. destruct (describe_head e) as [out|err].
        - destruct (Js.truthy (Js.trim out)) eqn:Hout.
          + split.
            * intros [= Heq]. exists out. split; [reflexivity|exact Heq].
            * intros (out' & [= <-] & Heq). rewrite Heq. reflexivity.
          + split; [discriminate|].
            intros (out' & [= <-] & Heq). rewrite Heq in Hout. congruence.
        - split; [discriminate|]. intros (out' & Hd & _). discriminate. }
      split.
      * rewrite <- Hsame. split.
        -- intros [= Hb]. apply bool_decide_eq_false in Hb.
           destruct (decide (cur = Some t)) as [Heq|Hne]; [exact Heq|].
           contradiction.
        -- intros Heq. f_equal. f_equal. apply bool_decide_eq_false.
           intros Hne. contradiction.
      * split.
        -- intros [= Hb]. apply bool_decide_eq_true in Hb.
           intros out Hd Heq. apply Hb. apply Hsame. exists out. auto.
        -- intros Hall. f_equal. f_equal. apply bool_decide_eq_true.
           intros Heq. apply Hsame in Heq as (out & Hd & Ht').
           exact (Hall out Hd Ht').
    + intros e err He Hd.
      rewrite (getRepoTag_not_on_tag _ _ _ _ He Hd) in Hcur.
      injection Hcur as <-. split; [reflexivity|]. rewrite Hn. reflexivity.
  - intros Ht. unfold needsReclone. run. rewrite Hcl, Hc, Ht. reflexivity.
Qed.

End Reconciler.

(** C1, as stated, fails. The pin asks for commit [abcdef1234]; the
    mirror is at [abcdef1999aaaa], which does not start with the pin's
    commit string, and [needsReclone] still answers false: only the
    first seven characters are compared. *)
Lemma needsReclone_full_commit_counterexample :
  let config := Demo.pin "noir" None (Some "abcdef1234") Config.core in
  let w := Demo.world true
             {[ Demo.noir_path :=
                  Demo.cloned_at (Some "abcdef1999aaaa")
                    (Throw Demo.not_a_tag) ]} in
  Config.commit config = Some "abcdef1234"
  /\ Git.isRepoCloned (H := Demo.host) (Git.store w) "noir" = true
  /\ fst (Git.getRepoCommit (H := Demo.host) "noir" true w)
     = Ret (Some "abcdef1999aaaa")
  /\ Js.startsWith "abcdef1999aaaa" "abcdef1234" = false
  /\ fst (Git.needsReclone (H := Demo.host) config w) = Ret false.
Proof. intros config w. repeat apply conj; vm_compute; reflexivity. Qed.

Lemma needsReclone_commit_pin_witness :
  let config := Demo.pin "noir" None (Some "abc1234") Config.core in
  let w := Demo.world true
             {[ Demo.noir_path :=
                  Demo.cloned_at (Some "abc1234def5678")
                    (Throw Demo.not_a_tag) ]} in
  Git.needsReclone (H := Demo.host) config w = (Ret false, w).
Proof.
  intros config w.
  destruct (needsReclone_commit_pin (H := Demo.host) config w "abc1234"
              eq_refl eq_refl) as [_ Hcloned].
  destruct (Hcloned (Demo.cloned_at (Some "abc1234def5678")
                       (Throw Demo.not_a_tag))
              (Some "abc1234def5678") eq_refl eq_refl eq_refl)
    as (answer & Hrun & Hiff).
  rewrite Hrun. f_equal. f_equal. apply Hiff.
  exists "abc1234def5678". repeat split; reflexivity.
Defined.

Lemma needsReclone_tag_and_branch_pins_witness :
  let config := Demo.pin "noir" (Some "v1.0.0") None Config.core in
  let on_tag := Demo.cloned_at (Some "abc1234def5678")
                  (Ret ("v1.0.0" +:+ Js.str1 Js.newline)) in
  let on_other := Demo.cloned_at (Some "abc1234def5678")
                    (Ret ("v0.9.0" +:+ Js.str1 Js.newline)) in
  let off_tag := Demo.cloned_at (Some "abc1234def5678")
                   (Throw Demo.not_a_tag) in
  let w_on := Demo.world true {[ Demo.noir_path := on_tag ]} in
  let w_other := Demo.world true {[ Demo.noir_path := on_other ]} in
  let w_off := Demo.world true {[ Demo.noir_path := off_tag ]} in
  Git.needsReclone (H := Demo.host) config w_on = (Ret false, w_on)
  /\ Git.needsReclone (H := Demo.host) config w_other = (Ret true, w_other)
  /\ Git.needsReclone (H := Demo.host) config w_off = (Ret true, w_off).
Proof.
  intros config on_tag on_other off_tag w_on w_other w_off.
  split; [|split].
  - destruct (needsReclone_tag_and_branch_pins (H := Demo.host) config w_on
                eq_refl eq_refl) as [Htag _].
    destruct (Htag "v1.0.0" eq_refl eq_refl)
      as (current & _ & _ & Hmirror & _).
    destruct (Hmirror on_tag eq_refl) as (_ & Hfalse & _).
    apply Hfalse. exists ("v1.0.0" +:+ Js.str1 Js.newline).
    split; reflexivity.
  - destruct (needsReclone_tag_and_branch_pins (H := Demo.host) config
                w_other eq_refl eq_refl) as [Htag _].
    destruct (Htag "v1.0.0" eq_refl eq_refl)
      as (current & _ & _ & Hmirror & _).
    destruct (Hmirror on_other eq_refl) as (_ & _ & Htrue).
    apply Htrue. intros out [= <-]. vm_compute. discriminate.
  - destruct (needsReclone_tag_and_branch_pins (H := Demo.host) config w_off
                eq_refl eq_refl) as [Htag _].
    destruct (Htag "v1.0.0" eq_refl eq_refl)
      as (current & _ & _ & _ & Hnone).
    apply (Hnone off_tag Demo.not_a_tag eq_refl eq_refl).
Defined.

(** ** Update in place *)

Section Update.
Import Config Git GitSpec.
Context `{HostEnv} `{GitEnv}.

Ltac run :=
  unfold mbind, M_bind, bind, catch, gets, ret, throw; simpl.

Lemma git_run (c : GitCmd) (w : World) :
  exists o r' s',
    git_exec c (remote w) (store w) = (o, r', s')
    /\ git c w = (o, {| store := s'; remote := r';
                        trace := trace w ++ [EvGit c] |}).
Proof.
  unfold git. destruct (git_exec c (remote w) (store w)) as [[o r'] s'].
  eauto.
Qed.

Lemma git_trace (c : GitCmd) (w w' : World) (o : Outcome unit) :
  git c w = (o, w') -> trace w' = trace w ++ [EvGit c].
Proof.
  destruct (git_run c w) as (o' & r' & s' & _ & ->).
  intros [= _ <-]. reflexivity.
Qed.

Lemma git_store_quiet (c : GitCmd) (w w' : World) (e : Thrown) :
  quiet_failures -> git c w = (Throw e, w') -> store w' = store w.
Proof.
  intros [Hq _]. destruct (git_run c w) as (o' & r' & s' & Hx & ->).
  intros [= -> <-]. simpl. eapply Hq, Hx.
Qed.

Lemma fetch_store_quiet (path : string) (args : list string) (w w' : World)
    (o : Outcome unit) :
  quiet_failures -> git (GFetch path args) w = (o, w') -> store w' = store w.
Proof.
  intros [_ Hf].
  destruct (git_run (GFetch path args) w) as (o' & r' & s' & Hx & ->).
  intros [= _ <-]. simpl. eapply Hf, Hx.
Qed.

Lemma updateRepo_not_cloned (repoName : string) (w : World) :
  isRepoCloned (store w) repoName = false ->
  updateRepo repoName w
  = (Throw (ErrorObj "Error"
              ("Repository " +:+ repoName +:+ " is not cloned")), w).
Proof. intros Hn. unfold updateRepo. run. rewrite Hn. reflexivity. Qed.

Lemma updateRepo_cloned (repoName : string) (w : World) :
  isRepoCloned (store w) repoName = true ->
  updateRepo repoName w
  = match fetch_and_reset (getRepoPath repoName) w with
    | (Ret _, w') => (Ret ("Updated " +:+ repoName), w')
    | (Throw _, w') => pull_phase repoName w'
    end.
Proof.
  intros Hc. unfold updateRepo, fetch_and_reset, pull_phase. run.
  rewrite Hc. simpl. unfold fetch_shallow, reset_hard.
  destruct (git (GFetch _ _) w) as [[[]|e] w1].
  - destruct (git (GReset _ _) w1) as [[[]|e] w2]; [reflexivity|].
    destruct (git (GPull _) w2) as [[[]|e'] w3]; reflexivity.
  - destruct (git (GPull _) w1) as [[[]|e'] w3]; reflexivity.
Qed.

Lemma updateRepo_returns (repoName : string) (w : World) :
  isRepoCloned (store w) repoName = true ->
  exists status w', updateRepo repoName w = (Ret status, w').
Proof.
  intros Hc. rewrite (updateRepo_cloned _ _ Hc). unfold pull_phase.
  destruct (fetch_and_reset _ w) as [[[]|e] w1]; [eauto|].
  destruct (git (GPull _) w1) as [[[]|e'] w2]; eauto.
Qed.

Lemma update_event_fetch (p : string) :
  update_event p (EvGit (fetch_shallow p)).
Proof. unfold update_event. auto. Qed.

Lemma update_event_reset (p : string) :
  update_event p (EvGit (reset_hard p)).
Proof. unfold update_event. auto. Qed.

Lemma update_event_pull (p : string) : update_event p (EvGit (GPull p)).
Proof. unfold update_event. auto. Qed.

#[local] Hint Resolve update_event_fetch update_event_reset
  update_event_pull : mirror.
#[local] Hint Constructors Forall : mirror.

Lemma fetch_and_reset_trace (repoPath : string) (w w' : World)
    (o : Outcome unit) :
  fetch_and_reset repoPath w = (o, w') ->
  exists evs, trace w' = trace w ++ evs
              /\ Forall (update_event repoPath) evs.
Proof.
  unfold fetch_and_reset. run.
  destruct (git (fetch_shallow repoPath) w) as [[[]|e] w1] eqn:H1.
  - destruct (git (reset_hard repoPath) w1) as [o2 w2] eqn:H2.
    apply git_trace in H1, H2. intros Hrun.
    exists [EvGit (fetch_shallow repoPath); EvGit (reset_hard repoPath)].
    split; [|auto with mirror].
    destruct o2; injection Hrun as _ <-;
      rewrite H2, H1, <- app_assoc; reflexivity.
  - intros [= _ <-]. apply git_trace in H1.
    exists [EvGit (fetch_shallow repoPath)]. split; [exact H1|].
    auto with mirror.
Qed.

Lemma fetch_and_reset_quiet (repoPath : string) (w w' : World) (e : Thrown) :
  quiet_failures ->
  fetch_and_reset repoPath w = (Throw e, w') -> store w' = store w.
Proof.
  intros Hq. unfold fetch_and_reset. run.
  destruct (git (fetch_shallow repoPath) w) as [[[]|e1] w1] eqn:H1.
  - destruct (git (reset_hard repoPath) w1) as [[[]|e2] w2] eqn:H2;
      [discriminate|].
    intros [= _ <-]. rewrite (git_store_quiet _ _ _ _ Hq H2).
    eapply fetch_store_quiet; eauto.
  - intros [= _ <-]. eapply git_store_quiet; eauto.
Qed.

(** Whatever happens, an update in place only issues its own three
    commands. *)
Lemma updateRepo_trace (repoName : string) (w w' : World)
    (o : Outcome string) :
  updateRepo repoName w = (o, w') ->
  exists evs, trace w' = trace w ++ evs
              /\ Forall (update_event (getRepoPath repoName)) evs.
Proof.
  destruct (isRepoCloned (store w) repoName) eqn:Hc.
  - rewrite (updateRepo_cloned _ _ Hc).
    destruct (fetch_and_reset _ w) as [[[]|e] w1] eqn:H1;
      apply fetch_and_reset_trace in H1 as (evs & Ht & Hf).
    + intros [= _ <-]. eauto.
    + unfold pull_phase.
      destruct (git (GPull _) w1) as [o2 w2] eqn:H2.
      apply git_trace in H2.
      assert (Hw : trace w2 = trace w ++ (evs ++ [EvGit (GPull (getRepoPath repoName))])).
      { rewrite H2, Ht, <- app_assoc. reflexivity. }
      assert (Hall : Forall (update_event (getRepoPath repoName))
                       (evs ++ [EvGit (GPull (getRepoPath repoName))])).
      { apply Forall_app. split; [exact Hf|]. auto with mirror. }
      destruct o2 as [[]|e2]; intros [= _ <-]; eauto.
  - rewrite (updateRepo_not_cloned _ _ Hc). intros [= _ <-].
    exists []. rewrite app_nil_r. split; [reflexivity|constructor].
Qed.

(** C7. [updateRepo] raises if and only if the named repository is not
    cloned. When it is cloned and the shallow fetch plus hard reset
    fails, a conventional pull is tried in the world that failure left:
    if the pull succeeds the status is the one of an update; if the pull
    fails too, the function returns, without raising, a status that
    describes the failure and contains [Failed]; on that path it has
    issued only its own fetch, reset and pull commands, so that, as long
    as a failing git command and a fetch leave the mirror store alone,
    the mirror store is the one it started from. *)
Theorem updateRepo_raises_only_when_not_cloned :
  forall (repoName : string) (w : World),
    ((exists e w', updateRepo repoName w = (Throw e, w'))
     <-> isRepoCloned (store w) repoName = false)
    /\ (isRepoCloned (store w) repoName = true ->
        forall err w1,
          fetch_and_reset (getRepoPath repoName) w = (Throw err, w1) ->
          (forall w2,
             git (GPull (getRepoPath repoName)) w1 = (Ret tt, w2) ->
             updateRepo repoName w = (Ret ("Updated " +:+ repoName), w2))
          /\ (forall perr w2,
                git (GPull (getRepoPath repoName)) w1 = (Throw perr, w2) ->
                let status := "Failed to update " +:+ repoName +:+ ": "
                              +:+ thrown_toString perr in
                updateRepo repoName w = (Ret status, w2)
                /\ Js.includes status "Failed" = true
                /\ (exists evs,
                      trace w2 = trace w ++ evs
                      /\ Forall (update_event (getRepoPath repoName)) evs)
                /\ (quiet_failures -> store w2 = store w))).
Proof.
  intros repoName w. split.
  - split.
    + intros (e & w' & Hr).
      destruct (isRepoCloned (store w) repoName) eqn:Hc; [|reflexivity].
      destruct (updateRepo_returns _ _ Hc) as (st & w'' & Hs). congruence.
    + intros Hn. rewrite (updateRepo_not_cloned _ _ Hn). eauto.
  - intros Hc err w1 H1. split.
    + intros w2 H2. rewrite (updateRepo_cloned _ _ Hc), H1.
      unfold pull_phase. rewrite H2. reflexivity.
    + intros perr w2 H2 status.
      assert (Hrun : updateRepo repoName w = (Ret status, w2)).
      { rewrite (updateRepo_cloned _ _ Hc), H1. unfold pull_phase.
        rewrite H2. reflexivity. }
      split; [exact Hrun|]. split; [reflexivity|].
      split; [eapply updateRepo_trace, Hrun|].
      intros Hq. rewrite (git_store_quiet _ _ _ _ Hq H2).
      eapply fetch_and_reset_quiet; eauto.
Qed.

End Update.

Lemma updateRepo_raises_only_when_not_cloned_witness :
  let w := Demo.world false
             {[ Demo.noir_path :=
                  Demo.cloned_at (Some "abc1234def5678")
                    (Throw Demo.not_a_tag) ]} in
  exists w2,
    Git.updateRepo (H := Demo.host) "noir" w
    = (Ret "Failed to update noir: Error: fatal: unable to access the remote",
       w2)
    /\ Git.store w2 = Git.store w.
Proof.
  intros w.
  destruct (updateRepo_raises_only_when_not_cloned (H := Demo.host) "noir" w)
    as [_ Hcloned].
  destruct (Hcloned eq_refl Demo.offline
              (Git.emit (Git.EvGit (GitSpec.fetch_shallow Demo.noir_path)) w)
              eq_refl) as [_ Hfail].
  destruct (Hfail Demo.offline
              (Git.emit (Git.EvGit (Git.GPull Demo.noir_path))
                 (Git.emit
                    (Git.EvGit (GitSpec.fetch_shallow Demo.noir_path)) w))
              eq_refl) as (Hrun & _ & _ & Hstore).
  eexists. split; [exact Hrun|].
  apply Hstore. split.
  - intros c r s e r' s'. unfold Git.git_exec; simpl. unfold Demo.demo_exec.
    destruct (negb r); [intros [= _ _ <-]; reflexivity|].
    destruct c; try discriminate.
    destruct (String.eqb _ _); [intros [= _ _ <-]; reflexivity|discriminate].
  - intros path args r s o r' s'. unfold Git.git_exec; simpl.
    unfold Demo.demo_exec.
    destruct (negb r); intros [= _ _ <-]; reflexivity.
Defined.

(** ** The checkout strategy *)

Section Checkout.
Import Config Git GitSpec.
Context `{HostEnv} `{GitEnv}.

Ltac run :=
  unfold mbind, M_bind, bind, catch, gets, ret, throw; simpl.

(** Computations that only read the store. *)
Lemma reads_ret {A} (a : A) : reads (ret a).
Proof. intros w1 w2 _. reflexivity. Qed.

Lemma reads_gets {A} (f : gmap string MirrorEntry -> A) : reads (gets f).
Proof. intros w1 w2 Hs. unfold gets. rewrite Hs. reflexivity. Qed.

Lemma reads_self {A} (m : M A) (w : World) :
  reads m -> m w = (fst (m w), w).
Proof. intros Hm. apply Hm. reflexivity. Qed.

Lemma reads_bind {A B} (m : M A) (k : A -> M B) :
  reads m -> (forall a, reads (k a)) -> reads (bind m k).
Proof.
  intros Hm Hk w1 w2 Hs. unfold bind.
  rewrite (Hm w1 w2 Hs), (reads_self m w1 Hm). simpl.
  destruct (fst (m w1)) as [a|e]; [|reflexivity].
  apply Hk, Hs.
Qed.

Lemma reads_catch {A} (m : M A) (h : Thrown -> M A) :
  reads m -> (forall e, reads (h e)) -> reads (catch m h).
Proof.
  intros Hm Hh w1 w2 Hs. unfold catch.
  rewrite (Hm w1 w2 Hs), (reads_self m w1 Hm). simpl.
  destruct (fst (m w1)) as [a|e]; [reflexivity|].
  apply Hh, Hs.
Qed.

Lemma reads_git_log (path : string) : reads (git_log path).
Proof.
  intros w1 w2 Hs. unfold git_log. rewrite Hs.
  destruct (store w2 !! path); reflexivity.
Qed.

Lemma reads_git_describe (path : string) : reads (git_describe path).
Proof.
  intros w1 w2 Hs. unfold git_describe. rewrite Hs.
  destruct (store w2 !! path); reflexivity.
Qed.

#[local] Hint Resolve reads_ret reads_gets reads_git_log reads_git_describe
  : mirror.

Ltac reads_step :=
  first [ apply reads_bind; [|intros ?]
        | apply reads_catch; [|intros ?]
        | solve [auto with mirror] ].

Lemma getRepoCommit_reads (n : string) (full : bool) :
  reads (getRepoCommit n full).
Proof.
  unfold getRepoCommit, mbind, M_bind. reads_step; [reads_step|].
  destruct (negb a); [reads_step|]. reads_step; [reads_step|].
  destruct a0 as [hash|]; [|reads_step].
  destruct (negb (Js.truthy hash)); reads_step.
Qed.

Lemma getRepoTag_reads (n : string) : reads (getRepoTag n).
Proof.
  unfold getRepoTag, mbind, M_bind. reads_step; [reads_step|].
  destruct (negb a); [reads_step|]. reads_step; [|reads_step].
  reads_step; reads_step.
Qed.

(** The reconciler only reads: its answer depends on the store alone and
    the world comes back as it was. *)
Lemma needsReclone_reads (config : RepoConfig) : reads (needsReclone config).
Proof.
  unfold needsReclone, mbind, M_bind. reads_step; [reads_step|].
  destruct (negb a); [reads_step|].
  destruct (Js.truthy_opt (commit config)).
  - reads_step; [apply getRepoCommit_reads|reads_step].
  - destruct (Js.truthy_opt (tag config)); [|reads_step].
    reads_step; [apply getRepoTag_reads|reads_step].
Qed.

Lemma needsReclone_kept (config : RepoConfig) (w : World) (o : Outcome bool) :
  needsReclone config w = (o, w) ->
  needsReclone config (kept w) = (o, kept w).
Proof.
  intros Hn. rewrite (needsReclone_reads config w (kept w) eq_refl), Hn.
  reflexivity.
Qed.

(** A repository that is not cloned always needs a clone. *)
Lemma needsReclone_false_cloned (config : RepoConfig) (w w' : World) :
  needsReclone config w = (Ret false, w') ->
  isRepoCloned (store w) (name config) = true.
Proof.
  unfold needsReclone. run.
  destruct (isRepoCloned (store w) (name config)); [reflexivity|].
  discriminate.
Qed.




(** [cloneRepo], its first steps run. *)
Lemma cloneRepo_steps (config : RepoConfig) (force : bool) (w : World)
    (versionMismatch : bool) :
  needsReclone config w = (Ret versionMismatch, w) ->
  cloneRepo config force w
  = let after :=
      if (force || versionMismatch)
         && existsSync (store w) (getRepoPath (name config))
      then removed (getRepoPath (name config)) w else kept w in
    if isRepoCloned (store after) (name config)
    then updateRepo (name config) after
    else freshCheckout config after.
Proof.
  intros Hn. apply needsReclone_kept in Hn.
  unfold cloneRepo, ensureReposDir. run.
  fold (kept w). rewrite Hn. simpl.
  destruct ((force || versionMismatch)
            && existsSync (store w) (getRepoPath (name config))); simpl.
  - unfold rmSync, kept, emit, removed. simpl.
    rewrite <- app_assoc. simpl.
    destruct (isRepoCloned _ _); reflexivity.
  - destruct (isRepoCloned _ _); reflexivity.
Qed.


End Checkout.



(** ** The sync orchestrator *)

Section Orchestrator.
Import Config Git Sync SyncSpec.
Context `{HostEnv} `{GitEnv}.

(** The failure status of a caught exception carries the marker, in the
    form the batch looks for. *)
Lemma error_status_marked (m : string) :
  Js.includes ("Error: " +:+ m) "Error" = true
  /\ Js.includes (Js.toLowerCase ("Error: " +:+ m)) "error" = true.
Proof. split; reflexivity. Qed.

(** One turn of the loop never raises. *)
Lemma syncOne_recorded (force : bool) (config : RepoConfig) (w : World) :
  exists r w', syncOne force config w = (Ret r, w')
               /\ recorded force config w r w'.
Proof.
  unfold syncOne, recorded, catch, mbind, M_bind, bind, ret.
  destruct (cloneRepo config force w) as [[status|e] w'] eqn:Hrun.
  - eexists _, w'. split; [reflexivity|]. simpl. eauto.
  - eexists _, w'. split; [reflexivity|]. simpl. eauto.
Qed.

Lemma syncLoop_processed (force : bool) (todo : list RepoConfig) :
  forall (acc : list RepoStatus) (w : World),
  exists rs w',
    syncLoop force todo acc w = (Ret (acc ++ rs), w')
    /\ Processed force todo w rs w'.
Proof.
  induction todo as [|config rest IH]; intros acc w.
  - exists [], w. simpl. rewrite app_nil_r.
    split; [reflexivity|constructor].
  - destruct (syncOne_recorded force config w) as (r & w1 & Hone & Hrec).
    destruct (IH (acc ++ [r]) w1) as (rs & w2 & Hloop & Hproc).
    exists (r :: rs), w2. split.
    + simpl. unfold mbind, M_bind, bind. rewrite Hone, Hloop.
      rewrite <- app_assoc. reflexivity.
    + econstructor; eassumption.
Qed.

Lemma Processed_names (force : bool) (todo : list RepoConfig) (w w' : World)
    (rs : list RepoStatus) :
  Processed force todo w rs w' ->
  map Sync.name rs = map Config.name todo.
Proof.
  induction 1 as [|config rest w w1 w2 r rs [Hname _] _ IH];
    [reflexivity|].
  simpl. rewrite Hname, IH. reflexivity.
Qed.

Lemma forallb_not_failed (rs : list RepoStatus) :
  forallb (fun r => negb (looks_failed r)) rs = true
  <-> (forall r, In r rs ->
         Js.includes (Js.toLowerCase (Sync.status r)) "error" = false).
Proof.
  rewrite forallb_forall. unfold looks_failed.
  split; intros Hall r Hin; specialize (Hall r Hin).
  - apply negb_true_iff. exact Hall.
  - apply negb_true_iff. exact Hall.
Qed.

(** C3. For every non-empty selection of pins, [syncRepos] returns: the
    pins are processed one after the other, each from the world its
    predecessor left; an exception raised while syncing one repository is
    caught and recorded as that repository's status, the text [Error: ]
    followed by the message, which contains [Error]; the others are still
    processed, so the batch holds exactly one outcome per selected pin,
    in order; and the success flag is true exactly when no status
    contains [error] once put in lower case. *)
Theorem syncRepos_isolates_failures :
  forall (options : SyncOptions) (w : World),
    reposToSync options <> [] ->
    exists result w',
      syncRepos options w = (Ret result, w')
      /\ Processed (default false (opt_force options))
           (reposToSync options) w (repos result) w'
      /\ map Sync.name (repos result)
         = map Config.name (reposToSync options)
      /\ length (repos result) = length (reposToSync options)
      /\ (forall m, Js.includes ("Error: " +:+ m) "Error" = true
                    /\ looks_failed
                         {| Sync.name := EmptyString;
                            status := "Error: " +:+ m;
                            Sync.commit := None |} = true)
      /\ (success result = true
          <-> forall r, In r (repos result) ->
                Js.includes (Js.toLowerCase (status r)) "error" = false).
Proof.
  intros options w Hne.
  destruct (syncLoop_processed (default false (opt_force options))
              (reposToSync options) [] w) as (rs & w' & Hloop & Hproc).
  simpl in Hloop.
  eexists _, w'. split.
  - unfold syncRepos.
    destruct (reposToSync options) as [|c cs] eqn:Hsel; [congruence|].
    unfold mbind, M_bind, bind. rewrite Hloop. reflexivity.
  - simpl. split; [exact Hproc|].
    pose proof (Processed_names _ _ _ _ _ Hproc) as Hnames.
    split; [exact Hnames|]. split.
    + rewrite <- (length_map Sync.name), Hnames, length_map. reflexivity.
    + split; [intros m; apply error_status_marked|].
      apply forallb_not_failed.
Qed.

End Orchestrator.

Lemma syncRepos_isolates_failures_witness :
  let options := {| Sync.opt_force := None; Sync.opt_repos := None;
                    Sync.opt_version := None;
                    Sync.opt_categories := None |} in
  exists result w',
    Sync.syncRepos (H := Demo.host) options (Demo.world true ∅)
    = (Ret result, w')
    /\ map Sync.name (Sync.repos result) = ["noir"; "noir-examples"].
Proof.
  intros options.
  destruct (syncRepos_isolates_failures (H := Demo.host) options
              (Demo.world true ∅)) as (result & w' & Hrun & _ & Hn & _).
  - vm_compute. discriminate.
  - exists result, w'. split; [exact Hrun|]. rewrite Hn. reflexivity.
Defined.

(** A batch of two: the first repository is cloned, the second one's
    remote is gone. Two outcomes, the second one marked, no success. *)
Example syncRepos_one_of_two_fails :
  let options := {| Sync.opt_force := None; Sync.opt_repos := None;
                    Sync.opt_version := None;
                    Sync.opt_categories := None |} in
  let result := fst (Sync.syncRepos (H := Demo.host) options
                       (Demo.world true ∅)) in
  match result with
  | Ret r =>
      Sync.success r = false
      /\ map Sync.status (Sync.repos r)
         = [ "Cloned noir @ v1.0.0-beta.18 (tag, sparse: docs, noir_stdlib, tooling, examples)";
             "Error: fatal: repository not found" ]
  | Throw _ => False
  end.
Proof. vm_compute. split; reflexivity. Qed.

(** ** Trimming *)

Lemma trimEnd_cons (c : ascii) (s : string) :
  Js.trimEnd (String c s)
  = match Js.trimEnd s with
    | EmptyString => if Js.is_white c then EmptyString else Js.str1 c
    | String d t => String c (String d t)
    end.
Proof. reflexivity. Qed.

Lemma trimEnd_idem (s : string) : Js.trimEnd (Js.trimEnd s) = Js.trimEnd s.
Proof.
  induction s as [|c s IH]; [reflexivity|].
  rewrite trimEnd_cons. destruct (Js.trimEnd s) as [|d t] eqn:E.
  - destruct (Js.is_white c) eqn:W; [reflexivity|].
    unfold Js.str1. rewrite trimEnd_cons. simpl. rewrite W. reflexivity.
  - rewrite trimEnd_cons, IH. reflexivity.
Qed.

Lemma trimStart_head (s : string) :
  Js.trimStart s = EmptyString
  \/ exists c t, Js.trimStart s = String c t /\ Js.is_white c = false.
Proof.
  induction s as [|c s IH]; [left; reflexivity|].
  simpl. destruct (Js.is_white c) eqn:W; [exact IH|].
  right. exists c, s. split; [reflexivity|exact W].
Qed.

Lemma trimEnd_head (c : ascii) (t : string) :
  Js.is_white c = false -> exists t', Js.trimEnd (String c t) = String c t'.
Proof.
  intros W. rewrite trimEnd_cons.
  destruct (Js.trimEnd t); [rewrite W|]; eexists; reflexivity.
Qed.

(** What [trim] returns has no white space left at either end. *)
Lemma trim_idem (s : string) : Js.trim (Js.trim s) = Js.trim s.
Proof.
  unfold Js.trim.
  destruct (trimStart_head s) as [->|(c & t & -> & W)]; [reflexivity|].
  destruct (trimEnd_head c t W) as [t' E]. rewrite E.
  simpl Js.trimStart. rewrite W, <- E. apply trimEnd_idem.
Qed.

(** ** The search engine *)

Section SearchEngine.
Import Search SearchSpec.
Context `{HostEnv} `{SearchEnv}.

Lemma normalized_well_shaped (rawPath : string) (n : Z) (text : string) :
  well_shaped (normalized rawPath n text).
Proof.
  unfold well_shaped, normalized. simpl.
  split; [eexists; reflexivity|]. split; [eexists; reflexivity|].
  split; [apply trim_idem|reflexivity].
Qed.

Lemma length_snoc_le {A} (results : list A) (x : A) (limit : Z) :
  (Z.of_nat (length results) >=? limit) = false ->
  Z.of_nat (length (results ++ [x])) <= limit.
Proof.
  intros Hlt. rewrite Z.geb_leb in Hlt. apply Z.leb_gt in Hlt.
  rewrite length_app. simpl. lia.
Qed.

(** *** The primary path *)

Lemma parseLines_length (maxResults : Z) (lines : list string) :
  forall results,
    Z.of_nat (length results) <= maxResults ->
    Z.of_nat (length (parseLines lines maxResults results)) <= maxResults.
Proof.
  induction lines as [|l rest IH]; intros results Hle; [exact Hle|].
  simpl. destruct (Z.of_nat (length results) >=? maxResults) eqn:Hfull;
    [exact Hle|].
  destruct (match_rg_line l) as [[[filePath lineNum] text]|].
  - apply IH. apply length_snoc_le, Hfull.
  - apply IH, Hle.
Qed.

Lemma parseLines_inv (P : SearchResult -> Prop) (all : list string)
    (maxResults : Z) (lines : list string) :
  (forall l filePath lineNum text,
     In l all -> match_rg_line l = Some (filePath, lineNum, text) ->
     P (normalized filePath (Js.parseInt lineNum) text)) ->
  forall results,
    (forall l, In l lines -> In l all) ->
    Forall P results ->
    Forall P (parseLines lines maxResults results).
Proof.
  intros Hstep. induction lines as [|l rest IH]; intros results Hin Hall;
    [exact Hall|].
  simpl. destruct (Z.of_nat (length results) >=? maxResults); [exact Hall|].
  destruct (match_rg_line l) as [[[filePath lineNum] text]|] eqn:Hm.
  - apply IH; [intros l' Hl'; apply Hin; right; exact Hl'|].
    apply Forall_app. split; [exact Hall|].
    constructor; [|constructor].
    apply (Hstep l); [apply Hin; left; reflexivity|exact Hm].
  - apply IH; [intros l' Hl'; apply Hin; right; exact Hl'|exact Hall].
Qed.

Lemma filterBoolean_In (l : string) (lines : list string) :
  In l (Js.filterBoolean lines) -> In l lines.
Proof. unfold Js.filterBoolean. intros Hin. apply filter_In in Hin. tauto. Qed.

(** *** The fallback *)

Lemma scanLines_length (re : RegExp) (maxResults : Z) (f : string)
    (lines : list string) :
  forall i results,
    Z.of_nat (length results) <= maxResults ->
    Z.of_nat (length (scanLines re maxResults f lines i results))
    <= maxResults.
Proof.
  induction lines as [|l rest IH]; intros i results Hle; [exact Hle|].
  simpl. destruct (Z.of_nat (length results) >=? maxResults) eqn:Hfull;
    [exact Hle|].
  apply IH. destruct (re l); [apply length_snoc_le, Hfull|exact Hle].
Qed.

Lemma scanFiles_length (re : RegExp) (maxResults : Z) (files : list string) :
  forall results,
    Z.of_nat (length results) <= maxResults ->
    Z.of_nat (length (scanFiles re maxResults files results)) <= maxResults.
Proof.
  induction files as [|f rest IH]; intros results Hle; [exact Hle|].
  simpl. destruct (Z.of_nat (length results) >=? maxResults); [exact Hle|].
  apply IH. destruct (readFileSync f); [|exact Hle].
  apply scanLines_length, Hle.
Qed.

Lemma scanLines_inv (P : SearchResult -> Prop) (re : RegExp)
    (maxResults : Z) (f : string) (all : list string) :
  (forall i l, nth_error all i = Some l -> re l = true ->
               P (normalized f (Z.of_nat i + 1) l)) ->
  forall lines k results,
    (forall j l, nth_error lines j = Some l ->
                 nth_error all (k + j) = Some l) ->
    Forall P results ->
    Forall P (scanLines re maxResults f lines (Z.of_nat k) results).
Proof.
  intros Hstep. induction lines as [|l rest IH]; intros k results Hsuf Hall;
    [exact Hall|].
  simpl. destruct (Z.of_nat (length results) >=? maxResults); [exact Hall|].
  replace (Z.of_nat k + 1) with (Z.of_nat (S k)) by lia.
  apply IH.
  - intros j l' Hj. replace (S k + j)%nat with (k + S j)%nat by lia.
    apply Hsuf. exact Hj.
  - destruct (re l) eqn:Hre; [|exact Hall].
    apply Forall_app. split; [exact Hall|].
    constructor; [|constructor].
    replace (Z.of_nat (S k)) with (Z.of_nat k + 1) by lia.
    apply Hstep; [|exact Hre].
    specialize (Hsuf 0%nat l eq_refl).
    rewrite Nat.add_0_r in Hsuf. exact Hsuf.
Qed.

Lemma scanFiles_inv (P : SearchResult -> Prop) (re : RegExp)
    (maxResults : Z) (all : list string) :
  (forall f text i l,
     In f all -> readFileSync f = Ret text ->
     nth_error (Js.split Js.newline text) i = Some l -> re l = true ->
     P (normalized f (Z.of_nat i + 1) l)) ->
  forall files results,
    (forall f, In f files -> In f all) ->
    Forall P results ->
    Forall P (scanFiles re maxResults files results).
Proof.
  intros Hstep. induction files as [|f rest IH]; intros results Hin Hall;
    [exact Hall|].
  simpl. destruct (Z.of_nat (length results) >=? maxResults); [exact Hall|].
  apply IH; [intros f' Hf'; apply Hin; right; exact Hf'|].
  destruct (readFileSync f) as [text|e] eqn:Hread; [|exact Hall].
  apply (scanLines_inv P re maxResults f (Js.split Js.newline text))
    with (k := 0%nat).
  - intros i l Hnth Hre.
    apply (Hstep f text i l); auto. apply Hin. left. reflexivity.
  - intros j l Hj. exact Hj.
  - exact Hall.
Qed.



(** The fallback never raises: it returns the scan, or nothing when the
    file listing or both compilations fail. *)
Lemma manualSearch_cases (query searchPath filePattern : string)
    (maxResults : Z) (caseSensitive : bool) :
  manualSearch query searchPath filePattern maxResults caseSensitive = Ret []
  \/ exists files re,
       globbySync (Js.replaceFirst "*." "**/*." filePattern) searchPath
       = Ret files
       /\ try_catch (RegExp_new query (negb caseSensitive))
            (fun _ => RegExp_new (escapeRegExp query) (negb caseSensitive))
          = Ret re
       /\ manualSearch query searchPath filePattern maxResults caseSensitive
          = Ret (scanFiles re maxResults files []).
Proof.
  unfold manualSearch.
  destruct (globbySync _ searchPath) as [files|e] eqn:Hg;
    [|left; reflexivity].
  destruct (try_catch (RegExp_new query _) _) as [re|e] eqn:Hre.
  - right. exists files, re. repeat split; reflexivity.
  - left. reflexivity.
Qed.

End SearchEngine.

Section SearchClaims.
Import Search SearchSpec.
Context `{HostEnv} `{SearchEnv}.

(** The bound and the shape of the results for a limit that is not
    negative. *)
Lemma search_results_nonnegative_limit :
  forall (query output : string) (options : SearchOptions),
    let pattern := default "*.nr" (filePattern options) in
    let limit := default 50 (maxResults options) in
    let sensitive := default false (caseSensitive options) in
    let root := searchPathOf options in
    0 <= limit ->
    (Z.of_nat (length (parseRgOutput output limit)) <= limit
     /\ Forall well_shaped (parseRgOutput output limit)
     /\ Forall (from_matcher output) (parseRgOutput output limit))
    /\ (exists results,
          manualSearch query root pattern limit sensitive = Ret results
          /\ Z.of_nat (length results) <= limit
          /\ Forall well_shaped results
          /\ Forall (fun r => exists n, line r = Some n /\ 1 <= n) results
          /\ forall files re,
               globbySync (Js.replaceFirst "*." "**/*." pattern) root
               = Ret files ->
               try_catch (RegExp_new query (negb sensitive))
                 (fun _ => RegExp_new (escapeRegExp query) (negb sensitive))
               = Ret re ->
               Forall (from_scan re files) results)
    /\ (exists results,
          searchCode query options = Ret results
          /\ Z.of_nat (length results) <= limit
          /\ Forall well_shaped results).
Proof.
  intros query output options pattern limit sensitive root Hlimit.
  assert (Hparse : forall out,
            Z.of_nat (length (parseRgOutput out limit)) <= limit
            /\ Forall well_shaped (parseRgOutput out limit)
            /\ Forall (from_matcher out) (parseRgOutput out limit)).
  { intros out. unfold parseRgOutput. split; [|split].
    - apply parseLines_length. simpl. exact Hlimit.
    - apply (parseLines_inv well_shaped
               (Js.filterBoolean (Js.split Js.newline out)));
        [|auto|constructor].
      intros. apply normalized_well_shaped.
    - apply (parseLines_inv (from_matcher out)
               (Js.filterBoolean (Js.split Js.newline out)));
        [|auto|constructor].
      intros l filePath lineNum text Hin Hm.
      exists l, filePath, lineNum, text.
      split; [apply filterBoolean_In, Hin|]. split; [exact Hm|reflexivity]. }
  assert (Hscan : exists results,
            manualSearch query root pattern limit sensitive = Ret results
            /\ Z.of_nat (length results) <= limit
            /\ Forall well_shaped results
            /\ Forall (fun r => exists n, line r = Some n /\ 1 <= n) results
            /\ forall files re,
                 globbySync (Js.replaceFirst "*." "**/*." pattern) root
                 = Ret files ->
                 try_catch (RegExp_new query (negb sensitive))
                   (fun _ => RegExp_new (escapeRegExp query)
                               (negb sensitive))
                 = Ret re ->
                 Forall (from_scan re files) results).
  { destruct (manualSearch_cases query root pattern limit sensitive)
      as [Hnone|(files & re & Hg & Hre & Hrun)].
    - exists []. split; [exact Hnone|]. split; [exact Hlimit|].
      repeat split; constructor.
    - exists (scanFiles re limit files []). split; [exact Hrun|].
      split; [apply scanFiles_length; exact Hlimit|].
      split; [|split].
      + apply (scanFiles_inv well_shaped re limit files);
          [|auto|constructor].
        intros. apply normalized_well_shaped.
      + apply (scanFiles_inv _ re limit files); [|auto|constructor].
        intros f text i l _ _ _ _. exists (Z.of_nat i + 1).
        split; [reflexivity|lia].
      + intros files' re' Hg' Hre'.
        rewrite Hg in Hg'. injection Hg' as <-.
        rewrite Hre in Hre'. injection Hre' as <-.
        apply (scanFiles_inv _ re limit files); [|auto|constructor].
        intros f text i l Hin Hread Hnth Hacc.
        exists f, text, i, l. auto. }
  split; [apply Hparse|]. split; [exact Hscan|].
  unfold searchCode. fold pattern limit sensitive root.
  destruct (negb (existsSync root)).
  - exists []. split; [reflexivity|]. split; [exact Hlimit|constructor].
  - destruct (execSync _) as [out|e]; simpl.
    + exists (parseRgOutput out limit). split; [reflexivity|].
      destruct (Hparse out) as (Hlen & Hshape & _). auto.
    + destruct Hscan as (results & Hrun & Hlen & Hshape & _).
      exists results. auto.
Qed.

(** A limit that is not positive gives no result at all. *)
Lemma search_nonpositive_limit_empty (query output root pattern : string)
    (limit : Z) (sensitive : bool) :
  limit <= 0 ->
  parseRgOutput output limit = []
  /\ manualSearch query root pattern limit sensitive = Ret [].
Proof.
  intros Hlimit.
  assert (Hfull : (Z.of_nat (@length SearchResult []) >=? limit) = true).
  { rewrite Z.geb_leb. apply Z.leb_le. simpl. exact Hlimit. }
  split.
  - unfold parseRgOutput.
    destruct (Js.filterBoolean _) as [|l rest]; [reflexivity|].
    simpl parseLines. simpl in Hfull. rewrite Hfull. reflexivity.
  - destruct (manualSearch_cases query root pattern limit sensitive)
      as [Hnone|(files & re & _ & _ & Hrun)]; [exact Hnone|].
    rewrite Hrun. destruct files as [|f rest]; [reflexivity|].
    simpl scanFiles. simpl in Hfull. rewrite Hfull. reflexivity.
Qed.




(** C6. For every query and options, if the resolved search root does
    not exist on disk, [searchCode] returns the empty sequence and does
    not raise, whatever the external matcher would have done, so neither
    path is entered; the two paths on their own give the empty sequence
    too: the parser on an empty output, and the fallback on a root under
    which the file listing finds nothing or fails. *)
Theorem search_missing_root_is_empty :
  forall (query : string) (options : SearchOptions),
    existsSync (searchPathOf options) = false ->
    searchCode query options = Ret []
    /\ (forall limit, parseRgOutput EmptyString limit = [])
    /\ (forall filePattern limit caseSensitive,
          (forall files,
             globbySync (Js.replaceFirst "*." "**/*." filePattern)
               (searchPathOf options) = Ret files -> files = []) ->
          manualSearch query (searchPathOf options) filePattern limit
            caseSensitive = Ret []).
Proof.
  intros query options Hmissing. split; [|split].
  - unfold searchCode. rewrite Hmissing. reflexivity.
  - reflexivity.
  - intros filePattern limit caseSensitive Hnone.
    destruct (manualSearch_cases query (searchPathOf options) filePattern
                limit caseSensitive)
      as [Hempty|(files & re & Hg & _ & Hrun)]; [exact Hempty|].
    rewrite Hrun, (Hnone files Hg). reflexivity.
Qed.

(** The amended C4. For every query and options, the primary path
    (parsing the matcher's output) and the fallback scan both return at
    most [maxResults] results, none when [maxResults] is zero or
    negative, and so does [searchCode]; every result has the same shape:
    a path relative to the mirror root, a line number, the matched line
    trimmed at both ends, and a [repo] field equal to the first segment
    of the relative path. On the primary path the line number is the one
    the matcher printed on the line the result comes from, so it counts
    from 1 whenever the matcher's numbers do; in the fallback it is the
    index of the line plus one, so at least 1. *)
Theorem search_results_bounded_and_shaped :
  forall (query output : string) (options : SearchOptions),
    let pattern := default "*.nr" (filePattern options) in
    let limit := default 50 (maxResults options) in
    let sensitive := default false (caseSensitive options) in
    let root := searchPathOf options in
    (Z.of_nat (length (parseRgOutput output limit)) <= Z.max 0 limit
     /\ Forall well_shaped (parseRgOutput output limit)
     /\ Forall (from_matcher output) (parseRgOutput output limit)
     /\ ((forall l filePath lineNum text,
            In l (Js.split Js.newline output) ->
            match_rg_line l = Some (filePath, lineNum, text) ->
            1 <= Js.parseInt lineNum) ->
         Forall (fun r => exists n, line r = Some n /\ 1 <= n)
           (parseRgOutput output limit)))
    /\ (exists results,
          manualSearch query root pattern limit sensitive = Ret results
          /\ Z.of_nat (length results) <= Z.max 0 limit
          /\ Forall well_shaped results
          /\ Forall (fun r => exists n, line r = Some n /\ 1 <= n) results
          /\ forall files re,
               globbySync (Js.replaceFirst "*." "**/*." pattern) root
               = Ret files ->
               try_catch (RegExp_new query (negb sensitive))
                 (fun _ => RegExp_new (escapeRegExp query) (negb sensitive))
               = Ret re ->
               Forall (from_scan re files) results)
    /\ (exists results,
          searchCode query options = Ret results
          /\ Z.of_nat (length results) <= Z.max 0 limit
          /\ Forall well_shaped results).
Proof.
  intros query output options pattern limit sensitive root.
  assert (Hnumbered :
            Forall (from_matcher output) (parseRgOutput output limit) ->
            (forall l filePath lineNum text,
               In l (Js.split Js.newline output) ->
               match_rg_line l = Some (filePath, lineNum, text) ->
               1 <= Js.parseInt lineNum) ->
            Forall (fun r => exists n, line r = Some n /\ 1 <= n)
              (parseRgOutput output limit)).
  { intros Hfrom Hone. eapply Forall_impl; [exact Hfrom|].
    intros r (l & filePath & lineNum & text & Hin & Hm & ->).
    exists (Js.parseInt lineNum). split; [reflexivity|].
    exact (Hone l filePath lineNum text Hin Hm). }
  destruct (Z_le_gt_dec 0 limit) as [Hlimit|Hneg].
  - rewrite Z.max_r by exact Hlimit.
    destruct (search_results_nonnegative_limit query output options Hlimit)
      as ((Hlen & Hshape & Hfrom) & Hscan & Hcode).
    fold pattern limit sensitive root in Hlen, Hshape, Hfrom, Hscan, Hcode.
    split; [|split; [exact Hscan|exact Hcode]].
    split; [exact Hlen|]. split; [exact Hshape|]. split; [exact Hfrom|].
    apply Hnumbered, Hfrom.
  - rewrite Z.max_l by lia.
    assert (Hle : limit <= 0) by lia.
    assert (Hparse : forall out, parseRgOutput out limit = []).
    { intros out.
      exact (proj1 (search_nonpositive_limit_empty query out root pattern
                      limit sensitive Hle)). }
    pose proof (proj2 (search_nonpositive_limit_empty query output root
                         pattern limit sensitive Hle)) as Hscan.
    split; [|split].
    + rewrite Hparse. simpl. split; [lia|]. repeat split; constructor.
    + exists []. split; [exact Hscan|]. simpl. split; [lia|].
      repeat split; constructor.
    + unfold searchCode. fold pattern limit sensitive root.
      destruct (negb (existsSync root)).
      * exists []. split; [reflexivity|]. simpl. split; [lia|constructor].
      * destruct (execSync _) as [out|e]; simpl.
        -- exists []. rewrite Hparse. split; [reflexivity|]. simpl.
           split; [lia|constructor].
        -- exists []. split; [exact Hscan|]. simpl.
           split; [lia|constructor].
Qed.

End SearchClaims.

(** C10. [readFile] takes a path that begins with a slash as it is and
    reads it directly: the mirror root plays no part, so the answer is
    the same under any other choice of mirror root, and reads are not
    confined to the repos directory. Only a path that does not begin
    with a slash is joined to the mirror root. A file that is missing or
    cannot be read gives null, never an exception. The tool built on it,
    [readRepoFile], never raises either: it replies with the text
    [readFile] gave as its content when that text is not empty, and
    with a failure without content otherwise; so for a path that begins
    with a slash it returns the content of that very file, whatever the
    mirror root. *)
Theorem readFile_absolute_paths_not_confined :
  forall (host : HostEnv) (env : Search.SearchEnv) (filePath : string),
    let read (p : string) : option string :=
      if Search.existsSync p
      then match Search.readFileSync p with
           | Ret text => Some text
           | Throw _ => None
           end
      else None in
    let missing : Search.ReadResult :=
      {| Search.read_success := false; Search.read_content := None;
         Search.read_message :=
           "File not found: " +:+ filePath
           +:+ ". Make sure the path is relative to the repos directory." |} in
    let reply (answer : option string) : Search.ReadResult :=
      match answer with
      | Some text =>
          if Js.truthy text
          then {| Search.read_success := true;
                  Search.read_content := Some text;
                  Search.read_message := "Read file: " +:+ filePath |}
          else missing
      | None => missing
      end in
    (Js.startsWith filePath "/" = true ->
     Search.readFile filePath = Ret (read filePath)
     /\ Search.readRepoFile filePath = Ret (reply (read filePath))
     /\ (forall other : HostEnv,
           Search.readFile (H := other) filePath
           = Search.readFile (H := host) filePath
           /\ Search.readRepoFile (H := other) filePath
              = Search.readRepoFile (H := host) filePath)
     /\ (forall text,
           Search.existsSync filePath = true ->
           Search.readFileSync filePath = Ret text ->
           Js.truthy text = true ->
           exists result,
             Search.readRepoFile filePath = Ret result
             /\ Search.read_success result = true
             /\ Search.read_content result = Some text))
    /\ (Js.startsWith filePath "/" = false ->
        Search.readFile filePath
        = Ret (read (path_join Git.REPOS_DIR filePath))
        /\ Search.readRepoFile filePath
           = Ret (reply (read (path_join Git.REPOS_DIR filePath))))
    /\ (exists answer, Search.readFile filePath = Ret answer)
    /\ (exists result,
          Search.readRepoFile filePath = Ret result
          /\ (Search.read_success result = true
              <-> exists text, Search.readFile filePath = Ret (Some text)
                               /\ Js.truthy text = true)
          /\ (forall text,
                Search.readFile filePath = Ret (Some text) ->
                Js.truthy text = true ->
                Search.read_content result = Some text)
          /\ (Search.read_success result = false ->
              Search.read_content result = None)).
Proof.
  intros host env filePath read missing reply.
  assert (Hrun : forall (h : HostEnv),
            Search.readFile (H := h) filePath
            = Ret (read (if Js.startsWith filePath "/" then filePath
                         else path_join (Git.REPOS_DIR (H := h)) filePath))).
  { intros h. unfold Search.readFile, read.
    destruct (Js.startsWith filePath "/");
      (destruct (Search.existsSync _); simpl; [|reflexivity]);
      destruct (Search.readFileSync _); reflexivity. }
  assert (Htool : forall (h : HostEnv),
            Search.readRepoFile (H := h) filePath
            = Ret (reply (read (if Js.startsWith filePath "/" then filePath
                                else path_join (Git.REPOS_DIR (H := h))
                                       filePath)))).
  { intros h. unfold Search.readRepoFile, mbind, Outcome_bind.
    rewrite Hrun. simpl. unfold reply, missing.
    destruct (read _) as [text|]; [|reflexivity].
    destruct (Js.truthy text); reflexivity. }
  split; [|split; [|split]].
  - intros Habs. split; [rewrite Hrun, Habs; reflexivity|].
    split; [rewrite Htool, Habs; reflexivity|]. split.
    + intros other. rewrite !Hrun, !Htool, Habs. split; reflexivity.
    + intros text Hex Hread Ht. eexists. split; [apply Htool|].
      rewrite Habs. unfold reply, read. rewrite Hex, Hread, Ht.
      split; reflexivity.
  - intros Hrel. rewrite Hrun, Htool, Hrel. split; reflexivity.
  - rewrite Hrun. eauto.
  - eexists. split; [apply Htool|]. rewrite Hrun.
    unfold reply, missing. destruct (read _) as [text|].
    + destruct (Js.truthy text) eqn:Ht; simpl.
      * split; [split; [intros _; exists text; auto|reflexivity]|].
        split; [intros t [= <-] _; reflexivity|discriminate].
      * split; [split; [discriminate|]|].
        -- intros (t & [= <-] & Ht'). congruence.
        -- split; [|reflexivity]. intros t [= <-] Ht'. congruence.
    + simpl. split; [split; [discriminate|]|].
      * intros (t & Hsome & _). discriminate.
      * split; [|reflexivity]. intros t Hsome. discriminate.
Qed.

(** ** The properties at work on the example environment *)


(** C4, as stated, fails. A matcher line numbered 0 gives a result
    whose line number is 0, which is not a 1-based line number; and for
    the limit -1 the primary path returns no result, which is more than
    the limit. *)
Lemma search_results_one_based_counterexample :
  let output := "/home/dev/.noir-mcp/repos/noir/src/main.nr:0:fn main() {" in
  Search.parseRgOutput (H := Demo.host) output 5
  = [ {| Search.file := "noir/src/main.nr"; Search.line := Some 0;
         Search.content := "fn main() {"; Search.repo := "noir" |} ]
  /\ ~ (1 <= 0)
  /\ Search.parseRgOutput (H := Demo.host) output (-1) = []
  /\ ~ (Z.of_nat (length (Search.parseRgOutput (H := Demo.host) output (-1)))
        <= -1).
Proof.
  intros output. split; [vm_compute; reflexivity|].
  split; [lia|]. split; [vm_compute; reflexivity|].
  vm_compute. intros Hle. apply Hle. reflexivity.
Qed.

Lemma search_results_bounded_and_shaped_witness :
  let output :=
    "/home/dev/.noir-mcp/repos/noir/src/main.nr:1:fn main() {"
    +:+ Js.str1 Js.newline
    +:+ "/home/dev/.noir-mcp/repos/noir/src/lib.nr:7:  fn main_helper()" in
  Z.of_nat (length (Search.parseRgOutput (H := Demo.host) output 1)) <= 1
  /\ Forall (SearchSpec.well_shaped (H := Demo.host))
       (Search.parseRgOutput (H := Demo.host) output 1)
  /\ Forall (fun r => exists n, Search.line r = Some n /\ 1 <= n)
       (Search.parseRgOutput (H := Demo.host) output 1).
Proof.
  intros output.
  destruct (search_results_bounded_and_shaped (H := Demo.host)
              (H0 := DemoSearch.search_env) "fn main" output
              (DemoSearch.options 1)) as ((Hlen & Hshape & _ & Hone) & _).
  split; [exact Hlen|]. split; [exact Hshape|].
  apply Hone. intros l filePath lineNum text Hin Hm.
  vm_compute in Hin. destruct Hin as [<-|[<-|[]]];
    vm_compute in Hm; injection Hm as _ <- _; vm_compute; discriminate.
Defined.

(** The first match only, in scan order, when the limit is one. *)
Example parseRgOutput_first_match :
  Search.parseRgOutput (H := Demo.host)
    ("/home/dev/.noir-mcp/repos/noir/src/main.nr:1:fn main() {"
     +:+ Js.str1 Js.newline
     +:+ "/home/dev/.noir-mcp/repos/noir/src/lib.nr:7:  fn main_helper()")
    1
  = [ {| Search.file := "noir/src/main.nr"; Search.line := Some 1;
         Search.content := "fn main() {"; Search.repo := "noir" |} ].
Proof. vm_compute. reflexivity. Qed.


Lemma search_missing_root_is_empty_witness :
  let options := {| Search.filePattern := None;
                    Search.opt_repo := Some "not-synced-yet";
                    Search.maxResults := None;
                    Search.caseSensitive := None |} in
  Search.searchCode (H := Demo.host) (H0 := DemoSearch.search_env)
    "fn main" options = Ret []
  /\ Search.manualSearch (H := Demo.host) (H0 := DemoSearch.search_env)
       "fn main" (Search.searchPathOf (H := Demo.host) options) "*.nr" 50
       false = Ret [].
Proof.
  intros options.
  destruct (search_missing_root_is_empty (H := Demo.host)
              (H0 := DemoSearch.search_env) "fn main" options eq_refl)
    as (Hsearch & _ & Hscan).
  split; [exact Hsearch|].
  apply Hscan. intros files. vm_compute. intros [= <-]. reflexivity.
Defined.

Lemma readFile_absolute_paths_not_confined_witness :
  Js.startsWith "/etc/hostname" "/" = true
  /\ Js.startsWith "/etc/hostname" (Git.REPOS_DIR (H := Demo.host)) = false
  /\ Search.readFile (H := Demo.host) (H0 := DemoSearch.search_env)
       "/etc/hostname" = Ret (Some "devbox")
  /\ Search.readRepoFile (H := Demo.host) (H0 := DemoSearch.search_env)
       "/etc/hostname"
     = Ret {| Search.read_success := true;
              Search.read_content := Some "devbox";
              Search.read_message := "Read file: /etc/hostname" |}
  /\ Search.readFile (H := Demo.host) (H0 := DemoSearch.search_env)
       "noir/src/main.nr" = Ret (Some DemoSearch.main_text).
Proof.
  destruct (readFile_absolute_paths_not_confined Demo.host
              DemoSearch.search_env "/etc/hostname")
    as ((Habs & Htool & _) & _).
  { reflexivity. }
  destruct (readFile_absolute_paths_not_confined Demo.host
              DemoSearch.search_env "noir/src/main.nr")
    as (_ & (Hrel & _) & _).
  { reflexivity. }
  split; [reflexivity|]. split; [reflexivity|].
  split; [rewrite Habs; reflexivity|].
  split; [rewrite Htool; reflexivity|].
  rewrite Hrel; reflexivity.
Defined.

(** ** Agreement with the repository's test-suite

    The expectations of [tests/utils/search-helpers.test.ts] and of the
    git utilities' tests, replayed on the embedding. *)

Example test_escapeShell_plain :
  Search.escapeShell "hello" = "hello"
  /\ Search.escapeShell "fn main" = "fn main".
Proof. split; reflexivity. Qed.

Example test_escapeShell_specials :
  Search.escapeShell "$HOME" = "\$HOME"
  /\ Search.escapeShell "`whoami`" = "\`whoami\`"
  /\ Search.escapeShell "a\b" = "a\\b"
  /\ Search.escapeShell "hello!" = "hello\!"
  /\ Search.escapeShell "$(whoami)" = "\$(whoami)"
  /\ Search.escapeShell (Js.str1 Js.dquote +:+ "; rm -rf /")
     = String Js.bslash (Js.str1 Js.dquote +:+ "; rm -rf /").
Proof. repeat split; reflexivity. Qed.

Example test_escapeShell_keeps_regex_syntax :
  Search.escapeShell "foo|bar" = "foo|bar"
  /\ Search.escapeShell "a*b+c?" = "a*b+c?"
  /\ Search.escapeShell "(group)" = "(group)"
  /\ Search.escapeShell "[abc]" = "[abc]"
  /\ Search.escapeShell "a{2,3}" = "a{2,3}"
  /\ Search.escapeShell "^start$end" = "^start\$end".
Proof. repeat split; reflexivity. Qed.

Example test_parseRgOutput_skips_malformed_lines :
  map Search.file
    (Search.parseRgOutput (H := Demo.host)
       ("/home/dev/.noir-mcp/repos/noir/good.nr:1:valid line"
        +:+ Js.str1 Js.newline +:+ "this is not a valid rg line"
        +:+ Js.str1 Js.newline +:+ Js.str1 Js.newline
        +:+ "/home/dev/.noir-mcp/repos/noir-bignum/src/lib.nr:10:use dep;"
        +:+ Js.str1 Js.newline)
       10)
  = ["noir/good.nr"; "noir-bignum/src/lib.nr"].
Proof. vm_compute. reflexivity. Qed.

Example test_parseRgOutput_content_with_colons :
  map Search.content
    (Search.parseRgOutput (H := Demo.host)
       "/home/dev/.noir-mcp/repos/noir/test.nr:5:let x: Field = 42;" 10)
  = ["let x: Field = 42;"].
Proof. vm_compute. reflexivity. Qed.

Example test_getRepoCommit_short_and_full :
  let w := Demo.world true
             {[ Demo.noir_path :=
                  Demo.cloned_at (Some "abc1234def5678")
                    (Throw Demo.not_a_tag) ]} in
  fst (Git.getRepoCommit (H := Demo.host) "noir" false w)
  = Ret (Some "abc1234")
  /\ fst (Git.getRepoCommit (H := Demo.host) "noir" true w)
     = Ret (Some "abc1234def5678")
  /\ fst (Git.getRepoCommit (H := Demo.host) "noir" false
            (Demo.world true ∅)) = Ret None.
Proof. intros w. repeat apply conj; vm_compute; reflexivity. Qed.

Example test_needsReclone :
  let at_commit h :=
    Demo.world true
      {[ Demo.noir_path := Demo.cloned_at (Some h) (Throw Demo.not_a_tag) ]} in
  let at_tag t :=
    Demo.world true
      {[ Demo.noir_path :=
           Demo.cloned_at (Some "abc1234def5678")
             (Ret (t +:+ Js.str1 Js.newline)) ]} in
  let answer config w := fst (Git.needsReclone (H := Demo.host) config w) in
  answer (Demo.pin "noir" None None Config.core) (Demo.world true ∅)
  = Ret true
  /\ answer (Demo.pin "noir" None (Some "ccc3333") Config.core)
       (at_commit "aaa1111bbb2222") = Ret true
  /\ answer (Demo.pin "noir" None (Some "abc1234def5678") Config.core)
       (at_commit "abc1234def5678") = Ret false
  /\ answer (Demo.pin "noir" (Some "v1.0.0") None Config.core)
       (at_tag "v0.9.0") = Ret true
  /\ answer (Demo.pin "noir" (Some "v1.0.0") None Config.core)
       (at_tag "v1.0.0") = Ret false
  /\ answer (Demo.pin "noir" None None Config.core)
       (at_commit "abc1234def5678") = Ret false.
Proof.
  intros at_commit at_tag answer.
  repeat apply conj; vm_compute; reflexivity.
Qed.

(** * Further properties *)

(** ** Strings *)

Lemma startsWith_cons (a b : ascii) (s p : string) :
  Js.startsWith (String a s) (String b p) = Js.ceq a b && Js.startsWith s p.
Proof. reflexivity. Qed.

Lemma take_cons (n : nat) (c : ascii) (s : string) :
  Js.take (S n) (String c s) = String c (Js.take n s).
Proof. reflexivity. Qed.

Lemma ceq_refl (c : ascii) : Js.ceq c c = true.
Proof. apply Ascii.eqb_refl. Qed.

Lemma startsWith_take (n : nat) (s : string) :
  Js.startsWith s (Js.take n s) = true.
Proof.
  revert s. induction n as [|n IH]; intros [|c s]; try reflexivity.
  rewrite take_cons, startsWith_cons, ceq_refl. apply IH.
Qed.

Lemma length_take (n : nat) (s : string) :
  (String.length (Js.take n s) <= n)%nat.
Proof.
  revert s. induction n as [|n IH]; intros [|c s];
    try (cbv [Js.take String.length]; lia).
  rewrite take_cons. cbn [String.length]. specialize (IH s). lia.
Qed.

Lemma truthy_take (n : nat) (s : string) :
  Js.truthy s = true -> Js.truthy (Js.take (S n) s) = true.
Proof. destruct s; [discriminate|reflexivity]. Qed.

(** ** The mirror store's accessors *)

Section Accessors.
Import Config Git GitSpec MirrorSpec.
Context `{HostEnv} `{GitEnv}.

Ltac run :=
  unfold mbind, M_bind, bind, catch, gets, ret, throw; simpl.

(** X1. The short commit hash is the first seven characters of the full
    one: both lookups reject together and find nothing together (always
    so when the repository is not cloned), and when the full lookup
    gives a hash it is not empty, the short lookup gives its non-empty
    prefix of at most seven characters. Neither changes the world. *)
Theorem getRepoCommit_short_is_prefix_of_full :
  forall (repoName : string) (w : World),
    exists o,
      getRepoCommit repoName true w = (o, w)
      /\ getRepoCommit repoName false w
         = (match o with
            | Ret (Some h) => Ret (Some (Js.take 7 h))
            | _ => o
            end, w)
      /\ (isRepoCloned (store w) repoName = false -> o = Ret None)
      /\ (forall h, o = Ret (Some h) ->
            Js.truthy h = true
            /\ Js.truthy (Js.take 7 h) = true
            /\ Js.startsWith h (Js.take 7 h) = true
            /\ (String.length (Js.take 7 h) <= 7)%nat).
Proof.
  intros repoName w. unfold getRepoCommit, git_log. run.
  destruct (isRepoCloned (store w) repoName) eqn:Hc; simpl.
  - destruct (store w !! getRepoPath repoName) as [e|].
    + destruct (log_latest e) as [[h|]|err]; simpl.
      * destruct (Js.truthy h) eqn:Ht; simpl.
        -- eexists. split; [reflexivity|]. split; [reflexivity|].
           split; [discriminate|]. intros h' [= <-].
           split; [exact Ht|]. split; [apply truthy_take, Ht|].
           split; [apply startsWith_take|apply length_take].
        -- eexists. split; [reflexivity|]. split; [reflexivity|].
           split; [discriminate|]. discriminate.
      * eexists. split; [reflexivity|]. split; [reflexivity|].
        split; [discriminate|]. discriminate.
      * eexists. split; [reflexivity|]. split; [reflexivity|].
        split; [discriminate|]. discriminate.
    + eexists. split; [reflexivity|]. split; [reflexivity|].
      split; [discriminate|]. discriminate.
  - eexists. split; [reflexivity|]. split; [reflexivity|].
    split; [reflexivity|]. discriminate.
Qed.

(** X2. [getRepoTag] never raises and leaves the world as it is; the tag
    it gives is never the empty string and carries no white space at
    either end; it gives none when the repository is not cloned, when
    the describe query rejects, and when that query answers nothing but
    white space. *)
Theorem getRepoTag_gives_a_clean_tag_or_none :
  forall (repoName : string) (w : World),
    exists current,
      getRepoTag repoName w = (Ret current, w)
      /\ (forall t, current = Some t ->
            Js.truthy t = true /\ Js.trim t = t)
      /\ (isRepoCloned (store w) repoName = false -> current = None)
      /\ (forall e,
            store w !! getRepoPath repoName = Some e ->
            has_git e = true ->
            match describe_head e with
            | Throw _ => current = None
            | Ret out =>
                current = (if Js.truthy (Js.trim out)
                           then Some (Js.trim out) else None)
            end).
Proof.
  intros repoName w. unfold getRepoTag, git_describe, isRepoCloned. run.
  destruct (store w !! getRepoPath repoName) as [e|] eqn:He; simpl.
  - destruct (has_git e) eqn:Hg; simpl; rewrite ?He.
    + destruct (describe_head e) as [out|err] eqn:Hd; simpl.
      * destruct (Js.truthy (Js.trim out)) eqn:Ht.
        -- eexists. split; [reflexivity|]. split.
           ++ intros t [= <-]. split; [exact Ht|apply trim_idem].
           ++ split; [discriminate|].
              intros e' [= <-] _. rewrite Hd, Ht. reflexivity.
        -- eexists. split; [reflexivity|]. split; [discriminate|].
           split; [discriminate|].
           intros e' [= <-] _. rewrite Hd, Ht. reflexivity.
      * eexists. split; [reflexivity|]. split; [discriminate|].
        split; [discriminate|].
        intros e' [= <-] _. rewrite Hd. reflexivity.
    + eexists. split; [reflexivity|]. split; [discriminate|].
      split; [reflexivity|]. intros e' [= <-] Hg'. congruence.
  - eexists. split; [reflexivity|]. split; [discriminate|].
    split; [reflexivity|]. discriminate.
Qed.

(** X3. When the pin has a commit, the repository is cloned and the
    commit lookup rejects, [cloneRepo] raises that same error right
    after ensuring the base directory, whether or not [force] is set:
    nothing is removed and no git command is issued, so a forced sync
    does not replace such a mirror. *)
Theorem cloneRepo_raises_when_commit_lookup_rejects :
  forall (config : RepoConfig) (force : bool) (w : World)
         (entry : MirrorEntry) (e : Thrown),
    Js.truthy_opt (commit config) = true ->
    store w !! getRepoPath (name config) = Some entry ->
    has_git entry = true ->
    log_latest entry = Throw e ->
    cloneRepo config force w = (Throw e, kept w)
    /\ store (kept w) = store w
    /\ trace (kept w) = trace w ++ [EvMkdir REPOS_DIR].
Proof.
  intros config force w entry e Hc He Hg Hl.
  split; [|split; reflexivity].
  unfold cloneRepo, ensureReposDir, needsReclone, getRepoCommit, git_log,
    isRepoCloned.
  run. rewrite He, Hg. simpl. rewrite Hc. simpl. rewrite He, Hg. simpl.
  rewrite He, Hl. reflexivity.
Qed.

End Accessors.

Lemma cloneRepo_raises_when_commit_lookup_rejects_witness :
  let config := Demo.pin "noir" None (Some "abc1234") Config.core in
  let broken := {| Git.has_git := true;
                   Git.log_latest := Throw Demo.offline;
                   Git.describe_head := Throw Demo.not_a_tag |} in
  let w := Demo.world true {[ Demo.noir_path := broken ]} in
  fst (Git.cloneRepo (H := Demo.host) config true w) = Throw Demo.offline
  /\ Git.store (snd (Git.cloneRepo (H := Demo.host) config true w))
     = Git.store w.
Proof.
  intros config broken w.
  destruct (cloneRepo_raises_when_commit_lookup_rejects (H := Demo.host)
              config true w broken Demo.offline eq_refl eq_refl eq_refl
              eq_refl) as (Hrun & Hstore & _).
  rewrite Hrun. split; [reflexivity|exact Hstore].
Defined.

(** ** The fresh checkout *)

Section FreshCheckout.
Import Config Git GitSpec MirrorSpec.
Context `{HostEnv} `{GitEnv}.

Ltac run :=
  unfold mbind, M_bind, bind, catch, gets, ret, throw; simpl.

Ltac step_git :=
  match goal with
  | |- context [git ?c ?w] => destruct (git c w) as [[[]|?] ?]; simpl
  end.

(** A plan stops at the first command that fails and raises its error;
    the trace holds the commands issued so far. *)
Lemma run_plan_outcome (cmds : list GitCmd) :
  forall (w w' : World) (o : Outcome unit),
    run_plan cmds w = (o, w') ->
    (o = Ret tt /\ trace w' = trace w ++ map EvGit cmds)
    \/ (exists e done c later wmid,
          o = Throw e
          /\ cmds = done ++ c :: later
          /\ trace wmid = trace w ++ map EvGit done
          /\ git c wmid = (Throw e, w')
          /\ trace w' = trace w ++ map EvGit (done ++ [c])).
Proof.
  induction cmds as [|c rest IH]; intros w w' o Hrun.
  - injection Hrun as <- <-. left. rewrite app_nil_r. auto.
  - simpl in Hrun. unfold bind in Hrun.
    destruct (git c w) as [[[]|e] w1] eqn:Hc.
    + pose proof (git_trace _ _ _ _ Hc) as Ht.
      destruct (IH _ _ _ Hrun)
        as [[-> Hall]|(e & done & c' & later & wmid & -> & -> & Hm & Hf & Hall)].
      * left. split; [reflexivity|].
        rewrite Hall, Ht, <- app_assoc. reflexivity.
      * right. exists e, (c :: done), c', later, wmid.
        split; [reflexivity|]. split; [reflexivity|].
        split; [rewrite Hm, Ht, <- app_assoc; reflexivity|].
        split; [exact Hf|].
        rewrite Hall, Ht, <- app_assoc. reflexivity.
    + injection Hrun as <- <-. right.
      exists e, [], c, rest, w.
      split; [reflexivity|]. split; [reflexivity|].
      split; [rewrite app_nil_r; reflexivity|].
      split; [exact Hc|]. apply (git_trace _ _ _ _ Hc).
Qed.

(** The six branches of the fresh checkout are the one plan. *)
Lemma freshCheckout_runs_plan (config : RepoConfig) (w : World) :
  freshCheckout config w
  = bind (run_plan (checkout_plan config))
      (fun _ => ret (checkout_status config)) w.
Proof.
  unfold freshCheckout, checkout_plan, checkout_status, clone_options,
    sparse_commands, pin_commands, pinned_ref, has_sparse.
  destruct (sparse config) as [[|p ps]|];
    destruct (commit config) as [[|c0 c]|];
    destruct (tag config) as [[|t0 t]|];
    simpl; run; repeat step_git; reflexivity.
Qed.

Lemma checkout_plan_paths (config : RepoConfig) :
  Forall (fun c => cmd_path c = getRepoPath (name config))
    (checkout_plan config).
Proof.
  unfold checkout_plan, sparse_commands, pin_commands.
  constructor; [reflexivity|]. apply Forall_app. split.
  - destruct (sparse config) as [[|p ps]|]; repeat constructor.
  - destruct (Js.truthy_opt (commit config));
      [|destruct (Js.truthy_opt (tag config))]; repeat constructor.
Qed.

(** X4. A fresh checkout runs one plan of git commands: a clone of the
    pin's URL into the repository's directory, whose options filter the
    transfer exactly when sparse paths are given and skip the checkout
    exactly when a commit or tag is pinned (a branch pin is cloned
    shallow instead); then the sparse paths if any; then, for a pinned
    ref, its fetch and its checkout, the commit taking precedence over
    the tag. It returns its status exactly when every command of the
    plan succeeded, and then the trace holds the whole plan; otherwise
    it raises the error of the first command that failed and has issued
    nothing after it. *)
Theorem freshCheckout_follows_its_plan :
  forall (config : RepoConfig) (w w' : World) (o : Outcome string),
    freshCheckout config w = (o, w') ->
    let plan := checkout_plan config in
    hd_error plan
    = Some (GClone (url config) (getRepoPath (name config))
              (clone_options config))
    /\ ((o = Ret (checkout_status config)
         /\ trace w' = trace w ++ map EvGit plan)
        \/ (exists e done c later wmid,
              o = Throw e
              /\ plan = done ++ c :: later
              /\ trace wmid = trace w ++ map EvGit done
              /\ git c wmid = (Throw e, w')
              /\ trace w' = trace w ++ map EvGit (done ++ [c]))).
Proof.
  intros config w w' o Hrun plan. split; [reflexivity|].
  rewrite freshCheckout_runs_plan in Hrun. unfold bind in Hrun.
  destruct (run_plan (checkout_plan config) w) as [[[]|e] w1] eqn:Hplan.
  - injection Hrun as <- <-.
    destruct (run_plan_outcome _ _ _ _ Hplan)
      as [[_ Ht]|(e & done & c & later & wmid & Hthrow & _)];
      [|discriminate].
    left. auto.
  - injection Hrun as <- <-.
    destruct (run_plan_outcome _ _ _ _ Hplan)
      as [[Hret _]|(e' & done & c & later & wmid & [= <-] & Hrest)];
      [discriminate|].
    right. exists e, done, c, later, wmid. split; [reflexivity|exact Hrest].
Qed.

(** Whatever [cloneRepo] does after ensuring the base directory, it does
    to the directory of its own pin. *)
Lemma freshCheckout_trace (config : RepoConfig) (w w' : World)
    (o : Outcome string) :
  freshCheckout config w = (o, w') ->
  exists evs, trace w' = trace w ++ evs
              /\ Forall (fun ev => event_path ev = getRepoPath (name config))
                   evs.
Proof.
  intros Hrun.
  assert (Hmap : forall cmds,
            Forall (fun c => cmd_path c = getRepoPath (name config)) cmds ->
            Forall (fun ev => event_path ev = getRepoPath (name config))
              (map EvGit cmds)).
  { intros cmds Hall. apply Forall_map. exact Hall. }
  pose proof (checkout_plan_paths config) as Hpaths.
  destruct (freshCheckout_follows_its_plan _ _ _ _ Hrun)
    as [_ [[_ Ht]|(e & done & c & later & wmid & _ & Hplan & _ & _ & Ht)]].
  - eexists. split; [exact Ht|]. apply Hmap, Hpaths.
  - eexists. split; [exact Ht|]. apply Hmap.
    rewrite Hplan in Hpaths. apply Forall_app in Hpaths as [Hd Hc].
    apply Forall_app. split; [exact Hd|].
    constructor; [|constructor]. inversion Hc; assumption.
Qed.

End FreshCheckout.

(** ** What a sync touches *)

Section Confinement.
Import Config Git GitSpec MirrorSpec Sync.
Context `{HostEnv} `{GitEnv}.

Ltac run :=
  unfold mbind, M_bind, bind, catch, gets, ret, throw; simpl.

Lemma update_event_path (repoPath : string) (ev : Event) :
  update_event repoPath ev -> event_path ev = repoPath.
Proof. intros [->|[->| ->]]; reflexivity. Qed.

Lemma cloneRepo_rejected (config : RepoConfig) (force : bool) (w : World)
    (e : Thrown) :
  needsReclone config w = (Throw e, w) ->
  cloneRepo config force w = (Throw e, kept w).
Proof.
  intros Hn. unfold cloneRepo, ensureReposDir. run. fold (kept w).
  rewrite (needsReclone_reads config w (kept w) eq_refl), Hn. reflexivity.
Qed.

(** Apart from ensuring the base directory, [cloneRepo] only acts on the
    directory of its own pin. *)
Lemma cloneRepo_trace (config : RepoConfig) (force : bool) (w w' : World)
    (o : Outcome string) :
  cloneRepo config force w = (o, w') ->
  exists evs,
    trace w' = trace w ++ EvMkdir REPOS_DIR :: evs
    /\ Forall (fun ev => event_path ev = getRepoPath (Config.name config)) evs.
Proof.
  intros Hrun.
  pose proof (reads_self _ w (needsReclone_reads config)) as Hn.
  destruct (fst (needsReclone config w)) as [vm|e].
  - rewrite (cloneRepo_steps config force w vm Hn) in Hrun.
    cbv zeta in Hrun.
    set (after := if (force || vm)
                        && existsSync (store w)
                             (getRepoPath (Config.name config))
                  then removed (getRepoPath (Config.name config)) w
                  else kept w) in Hrun.
    assert (Hafter : exists pre,
              trace after = trace w ++ EvMkdir REPOS_DIR :: pre
              /\ Forall (fun ev => event_path ev = getRepoPath (Config.name config))
                   pre).
    { subst after. destruct (_ && _).
      - exists [EvRm (getRepoPath (Config.name config))].
        split; [reflexivity|]. repeat constructor.
      - exists []. split; [reflexivity|constructor]. }
    destruct Hafter as (pre & Hpre & Hall).
    assert (Hrest : exists evs,
              trace w' = trace after ++ evs
              /\ Forall (fun ev => event_path ev = getRepoPath (Config.name config))
                   evs).
    { destruct (isRepoCloned (store after) (Config.name config)).
      - destruct (updateRepo_trace _ _ _ _ Hrun) as (evs & Ht & Hev).
        exists evs. split; [exact Ht|].
        eapply Forall_impl; [exact Hev|].
        intros ev. apply update_event_path.
      - apply (freshCheckout_trace _ _ _ _ Hrun). }
    destruct Hrest as (evs & Ht & Hev).
    exists (pre ++ evs). split.
    + rewrite Ht, Hpre, <- app_assoc. reflexivity.
    + apply Forall_app. auto.
  - rewrite (cloneRepo_rejected config force w e Hn) in Hrun.
    injection Hrun as _ <-. exists []. split; [reflexivity|constructor].
Qed.

Lemma syncLoop_trace (force : bool) (selected : list RepoConfig) :
  forall (todo : list RepoConfig) (acc : list RepoStatus) (w w' : World)
         (o : Outcome (list RepoStatus)),
    (forall c, In c todo -> In c selected) ->
    syncLoop force todo acc w = (o, w') ->
    exists evs,
      trace w' = trace w ++ evs
      /\ Forall (fun ev =>
                   ev = EvMkdir REPOS_DIR
                   \/ exists c, In c selected
                                /\ event_path ev = getRepoPath (Config.name c))
           evs.
Proof.
  induction todo as [|config rest IH]; intros acc w w' o Hin Hrun.
  - injection Hrun as _ <-. exists []. rewrite app_nil_r.
    split; [reflexivity|constructor].
  - destruct (syncOne_recorded force config w)
      as (r & w1 & Hone & _ & Hrec).
    simpl in Hrun. unfold mbind, M_bind, bind in Hrun.
    rewrite Hone in Hrun.
    assert (Hclone : exists o1, cloneRepo config force w = (o1, w1)).
    { destruct Hrec as [(st & Hc & _)|(e & Hc & _)]; eauto. }
    destruct Hclone as (o1 & Hclone).
    destruct (cloneRepo_trace _ _ _ _ _ Hclone) as (evs1 & Ht1 & Hall1).
    rename Hrun into Hloop.
    destruct (IH _ _ _ _ (fun c Hc => Hin c (or_intror Hc)) Hloop)
      as (evs2 & Ht2 & Hall2).
    exists ((EvMkdir REPOS_DIR :: evs1) ++ evs2). split.
    + rewrite Ht2, Ht1, <- app_assoc. reflexivity.
    + apply Forall_app. split; [|exact Hall2].
      constructor; [left; reflexivity|].
      eapply Forall_impl; [exact Hall1|].
      intros ev Hev. right. exists config.
      split; [apply Hin; left; reflexivity|exact Hev].
Qed.

(** X5. A sync acts on nothing but the base directory, which it ensures,
    and the directories of the pins it selected: every directory it
    removes and every git command it issues is at the path of a selected
    repository. *)
Theorem syncRepos_touches_only_selected_repositories :
  forall (options : SyncOptions) (w w' : World) (o : Outcome SyncResult),
    syncRepos options w = (o, w') ->
    exists evs,
      trace w' = trace w ++ evs
      /\ Forall (fun ev =>
                   ev = EvMkdir REPOS_DIR
                   \/ exists c, In c (reposToSync options)
                                /\ event_path ev
                                   = getRepoPath (Config.name c))
           evs.
Proof.
  intros options w w' o Hrun. unfold syncRepos in Hrun.
  destruct (reposToSync options) as [|c cs] eqn:Hsel.
  - injection Hrun as _ <-. exists []. rewrite app_nil_r.
    split; [reflexivity|constructor].
  - unfold mbind, M_bind, bind in Hrun.
    destruct (syncLoop _ (c :: cs) [] w) as [o1 w1] eqn:Hloop.
    destruct (syncLoop_trace _ (c :: cs) _ _ _ _ _ (fun _ Hc => Hc) Hloop)
      as (evs & Ht & Hall).
    exists evs. split; [|exact Hall].
    destruct o1; injection Hrun as _ <-; exact Ht.
Qed.

End Confinement.

Lemma syncRepos_touches_only_selected_repositories_witness :
  let options := {| Sync.opt_force := Some true;
                    Sync.opt_repos := Some ["noir-bignum"];
                    Sync.opt_version := None;
                    Sync.opt_categories := None |} in
  let w := Demo.world true
             {[ Demo.noir_path :=
                  Demo.cloned_at (Some "abc1234def5678")
                    (Throw Demo.not_a_tag) ]} in
  exists evs,
    Git.trace (snd (Sync.syncRepos (H := Demo.host) options w)) = evs
    /\ Forall (fun ev => MirrorSpec.event_path ev <> Demo.noir_path) evs.
Proof.
  intros options w.
  destruct (Sync.syncRepos (H := Demo.host) options w) as [o w'] eqn:Hrun.
  destruct (syncRepos_touches_only_selected_repositories (H := Demo.host)
              options w w' o Hrun) as (evs & Ht & Hall).
  exists evs. split; [exact Ht|].
  eapply Forall_impl; [exact Hall|].
  intros ev [->|(c & Hc & ->)]; [discriminate|].
  vm_compute in Hc. destruct Hc as [<-|[]]. discriminate.
Defined.

(** ** Which statuses the batch counts as failures *)

Lemma includes_cons (a : ascii) (s sub : string) :
  Js.includes (String a s) sub
  = Js.startsWith (String a s) sub || Js.includes s sub.
Proof. reflexivity. Qed.

Lemma toLowerCase_append (a b : string) :
  Js.toLowerCase (a +:+ b) = Js.toLowerCase a +:+ Js.toLowerCase b.
Proof.
  induction a as [|c a IH]; [reflexivity|].
  rewrite append_cons. simpl. rewrite IH. reflexivity.
Qed.

(** A separator that does not occur in the text looked for cuts the
    search in two. *)
Lemma startsWith_append_sep (c : ascii) (x y sub : string) :
  Js.allb (fun d => negb (Js.ceq d c)) sub = true ->
  Js.startsWith (x +:+ String c y) sub = Js.startsWith x sub.
Proof.
  revert sub. induction x as [|a x IH]; intros [|b p] Hsub; try reflexivity.
  - simpl in Hsub. apply andb_true_iff in Hsub as [Hb _].
    rewrite append_nil_l, startsWith_cons.
    apply negb_true_iff in Hb. unfold Js.ceq in *.
    rewrite Ascii.eqb_sym, Hb. reflexivity.
  - simpl in Hsub. apply andb_true_iff in Hsub as [_ Hp].
    rewrite append_cons, !startsWith_cons, (IH p Hp). reflexivity.
Qed.

Lemma includes_append_sep (c : ascii) (x y sub : string) :
  Js.truthy sub = true ->
  Js.allb (fun d => negb (Js.ceq d c)) sub = true ->
  Js.includes (x +:+ String c y) sub
  = Js.includes x sub || Js.includes y sub.
Proof.
  intros Hne Hsub. induction x as [|a x IH].
  - rewrite append_nil_l, includes_cons.
    rewrite <- (append_nil_l (String c y)), (startsWith_append_sep _ _ _ _ Hsub).
    destruct sub; [discriminate|reflexivity].
  - rewrite append_cons, !includes_cons, IH, <- append_cons,
      (startsWith_append_sep _ _ _ _ Hsub), orb_assoc.
    reflexivity.
Qed.

Lemma flagged_updated (n : string) :
  Js.includes (Js.toLowerCase ("Updated " +:+ n)) "error"
  = Js.includes (Js.toLowerCase n) "error".
Proof.
  change (Js.toLowerCase ("Updated " +:+ n))
    with ("updated" +:+ String (Js.chr 32) (Js.toLowerCase n)).
  rewrite includes_append_sep by reflexivity. reflexivity.
Qed.

Lemma flagged_failed (n t : string) :
  Js.includes (Js.toLowerCase ("Failed to update " +:+ n +:+ ": " +:+ t))
    "error"
  = Js.includes (Js.toLowerCase n) "error"
    || Js.includes (Js.toLowerCase t) "error".
Proof.
  change (Js.toLowerCase ("Failed to update " +:+ n +:+ ": " +:+ t))
    with ("failed to update"
          +:+ String (Js.chr 32) (Js.toLowerCase (n +:+ ": " +:+ t))).
  rewrite includes_append_sep by reflexivity.
  rewrite toLowerCase_append.
  change (Js.toLowerCase (": " +:+ t))
    with (String (Js.chr 58)
            (EmptyString +:+ String (Js.chr 32) (Js.toLowerCase t))).
  rewrite includes_append_sep by reflexivity.
  rewrite includes_append_sep by reflexivity.
  reflexivity.
Qed.

Section FailureDetection.
Import Config Git GitSpec Sync.
Context `{HostEnv} `{GitEnv}.

(** X6. The status an update in place returns is counted as a failure
    by the batch exactly when it contains the marker: a successful
    update when the repository's name contains [error] (in any case); a
    failed one when the name or the text of the error does. So a failed
    update whose error text lacks the word is counted as a success,
    while one that failed with an [Error] named [Error] is always
    counted as a failure. *)
Theorem update_status_flagged_only_by_the_marker :
  forall (repoName : string) (w w' : World) (status : string),
    updateRepo repoName w = (Ret status, w') ->
    let flagged :=
      looks_failed {| Sync.name := repoName; Sync.status := status;
                      Sync.commit := None |} in
    (status = "Updated " +:+ repoName
     /\ flagged = Js.includes (Js.toLowerCase repoName) "error")
    \/ (exists perr,
          status = "Failed to update " +:+ repoName +:+ ": "
                   +:+ thrown_toString perr
          /\ flagged
             = Js.includes (Js.toLowerCase repoName) "error"
               || Js.includes (Js.toLowerCase (thrown_toString perr)) "error"
          /\ (forall m, perr = ErrorObj "Error" m -> flagged = true)).
Proof.
  intros repoName w w' status Hrun flagged. subst flagged.
  unfold looks_failed. simpl.
  destruct (isRepoCloned (store w) repoName) eqn:Hc.
  - rewrite (updateRepo_cloned _ _ Hc) in Hrun. unfold pull_phase in Hrun.
    destruct (fetch_and_reset _ w) as [[[]|e] w1].
    + injection Hrun as <- _. left. split; [reflexivity|].
      apply flagged_updated.
    + destruct (git (GPull _) w1) as [[[]|perr] w2];
        injection Hrun as <- _.
      * left. split; [reflexivity|apply flagged_updated].
      * right. exists perr. split; [reflexivity|].
        split; [apply flagged_failed|].
        intros m ->. rewrite flagged_failed.
        apply orb_true_iff. right. destruct m; reflexivity.
  - rewrite (updateRepo_not_cloned _ _ Hc) in Hrun. discriminate.
Qed.

End FailureDetection.

Lemma update_status_flagged_only_by_the_marker_witness :
  let w := Demo.world false
             {[ Demo.noir_path :=
                  Demo.cloned_at (Some "abc1234def5678")
                    (Throw Demo.not_a_tag) ]} in
  Sync.looks_failed
    {| Sync.name := "noir";
       Sync.status :=
         "Failed to update noir: Error: fatal: unable to access the remote";
       Sync.commit := None |} = true.
Proof.
  intros w.
  destruct (Git.updateRepo (H := Demo.host) "noir" w) as [o w'] eqn:Hrun.
  assert (Ho : o = Ret "Failed to update noir: Error: fatal: unable to access the remote").
  { apply (f_equal fst) in Hrun. vm_compute in Hrun. congruence. }
  subst o.
  destruct (update_status_flagged_only_by_the_marker (H := Demo.host)
              "noir" w w' _ Hrun) as [[Hup _]|(perr & Hst & Hflag & _)].
  - discriminate.
  - assert (Ht : thrown_toString perr
                 = "Error: fatal: unable to access the remote").
    { apply (String.app_inj "Failed to update noir: "). symmetry. exact Hst. }
    rewrite Hflag, Ht. reflexivity.
Defined.

(** ** The table of repositories *)

Section Table.
Import Config Repos TableSpec.
Context `{HostEnv}.

Lemma env_or_truthy (v : option string) (fallback : string) :
  Js.truthy fallback = true -> Js.truthy (env_or v fallback) = true.
Proof.
  intros Hf. unfold env_or. destruct v as [s|]; [|exact Hf].
  destruct (Js.truthy s) eqn:Hs; [exact Hs|exact Hf].
Qed.

Lemma DEFAULT_NOIR_VERSION_truthy : Js.truthy DEFAULT_NOIR_VERSION = true.
Proof. apply env_or_truthy. reflexivity. Qed.

Lemma DEFAULT_BB_VERSION_truthy : Js.truthy DEFAULT_BB_VERSION = true.
Proof. apply env_or_truthy. reflexivity. Qed.

Lemma getNoirRepos_map (version : option string) :
  getNoirRepos version
  = map (fun repo => with_tag repo (tag_for version (name repo))) BASE_REPOS.
Proof. reflexivity. Qed.

Lemma getNoirRepos_names (version : option string) :
  map name (getNoirRepos version) = map name BASE_REPOS.
Proof. rewrite getNoirRepos_map, map_map. reflexivity. Qed.

Lemma BASE_REPOS_names_NoDup : NoDup (map name BASE_REPOS).
Proof. apply (bool_decide_unpack _). vm_compute. exact I. Qed.

(** X7. Whatever the version and the environment, [getNoirRepos] keeps
    the table as it is, in order, but for the tags: taking the tags off
    again gives the base table back. The [noir] repository gets the
    requested version, or the default one when none (or an empty one) is
    requested, [bb.js] gets the default bb version, both non-empty, and
    no other repository gets a tag; no repository has a commit. *)
Theorem getNoirRepos_sets_only_the_two_tags :
  forall (version : option string),
    map (fun r => with_tag r None) (getNoirRepos version) = BASE_REPOS
    /\ (forall r, In r (getNoirRepos version) ->
          tag r = tag_for version (name r) /\ commit r = None)
    /\ Js.truthy (env_or version DEFAULT_NOIR_VERSION) = true
    /\ Js.truthy DEFAULT_BB_VERSION = true
    /\ (forall v, version = Some v -> Js.truthy v = true ->
          env_or version DEFAULT_NOIR_VERSION = v)
    /\ (Js.truthy_opt version = false ->
        getNoirRepos version = NOIR_REPOS).
Proof.
  intros version. split; [|split; [|split; [|split; [|split]]]].
  - rewrite getNoirRepos_map, map_map. reflexivity.
  - intros r Hin. rewrite getNoirRepos_map in Hin.
    apply in_map_iff in Hin as (r0 & <- & Hin).
    simpl in Hin.
    repeat (destruct Hin as [<-|Hin]; [split; reflexivity|]).
    destruct Hin.
  - apply env_or_truthy, DEFAULT_NOIR_VERSION_truthy.
  - apply DEFAULT_BB_VERSION_truthy.
  - intros v -> Hv. simpl. rewrite Hv. reflexivity.
  - intros Hv. unfold NOIR_REPOS. rewrite !getNoirRepos_map.
    apply map_ext. intros r. f_equal. unfold tag_for.
    destruct version as [v|]; [|reflexivity].
    simpl in Hv. simpl. rewrite Hv. reflexivity.
Qed.

Lemma NoDup_map_inj {A B} (f : A -> B) (l : list A) :
  NoDup (map f l) ->
  forall x y, In x l -> In y l -> f x = f y -> x = y.
Proof.
  induction l as [|a l IH]; intros Hnd x y Hx Hy Hf; [destruct Hx|].
  inversion Hnd as [|? ? Hnotin Hnd']; subst.
  destruct Hx as [->|Hx], Hy as [->|Hy].
  - reflexivity.
  - exfalso. apply Hnotin. apply list_elem_of_In. rewrite Hf.
    apply in_map, Hy.
  - exfalso. apply Hnotin. apply list_elem_of_In. rewrite <- Hf.
    apply in_map, Hx.
  - apply IH; assumption.
Qed.

(** X8. [getRepoConfig] finds exactly the names [getRepoNames] lists:
    the names of the table are pairwise distinct, a listed name gives
    the one configuration of that name, and any other name gives
    nothing. *)
Theorem getRepoConfig_finds_exactly_the_listed_names :
  forall (n : string),
    NoDup getRepoNames
    /\ match getRepoConfig n with
       | Some r => name r = n /\ In r NOIR_REPOS /\ In n getRepoNames
       | None => ~ In n getRepoNames
       end
    /\ (forall r r', In r NOIR_REPOS -> In r' NOIR_REPOS ->
          name r = name r' -> r = r').
Proof.
  intros n. unfold getRepoNames, NOIR_REPOS.
  split; [rewrite getNoirRepos_names; apply BASE_REPOS_names_NoDup|].
  split.
  - unfold getRepoConfig, NOIR_REPOS.
    destruct (find _ _) as [r|] eqn:Hfind.
    + apply find_some in Hfind as [Hin Heq].
      apply String.eqb_eq in Heq. split; [exact Heq|].
      split; [exact Hin|]. rewrite <- Heq. apply in_map, Hin.
    + intros Hin. apply in_map_iff in Hin as (r & Hname & Hin).
      pose proof (find_none _ _ Hfind r Hin) as Hno. simpl in Hno.
      rewrite Hname, String.eqb_refl in Hno. discriminate.
  - apply NoDup_map_inj. rewrite getNoirRepos_names.
    apply BASE_REPOS_names_NoDup.
Qed.

Lemma filter_map_swap {A B} (p : B -> bool) (f : A -> B) (l : list A) :
  List.filter p (map f l) = map f (List.filter (fun x => p (f x)) l).
Proof.
  induction l as [|x l IH]; [reflexivity|].
  simpl. rewrite IH. destruct (p (f x)); reflexivity.
Qed.

Lemma category_eqb_eq (a b : RepoCategory) :
  category_eqb a b = true <-> a = b.
Proof. destruct a, b; simpl; split; congruence. Qed.

Lemma category_partition (l : list RepoConfig) :
  (length (List.filter (fun r => category_eqb (category r) core) l)
   + length (List.filter (fun r => category_eqb (category r) libraries) l)
   + length (List.filter (fun r => category_eqb (category r) reference) l)
   = length l)%nat.
Proof.
  induction l as [|r l IH]; [reflexivity|].
  simpl. destruct (category r); simpl; lia.
Qed.

Lemma getReposByCategory_map (c : RepoCategory) (version : option string) :
  getReposByCategory c version
  = map (fun repo =>
           with_tag repo
             (tag_for (if Js.truthy_opt version then version else None)
                (name repo)))
      (List.filter (fun r => category_eqb (category r) c) BASE_REPOS).
Proof.
  unfold getReposByCategory, NOIR_REPOS.
  destruct (Js.truthy_opt version);
    rewrite getNoirRepos_map, filter_map_swap; reflexivity.
Qed.

(** X9. [getReposByCategory] gives exactly the configured repositories
    of the category; every repository falls in exactly one of the three
    categories, so the three answers together have the size of the
    table; and the version only changes tags, never which repositories
    are returned. *)
Theorem getReposByCategory_partitions_the_table :
  forall (version : option string),
    let table :=
      if Js.truthy_opt version then getNoirRepos version else NOIR_REPOS in
    (forall c r, In r (getReposByCategory c version)
                 <-> In r table /\ category r = c)
    /\ (length (getReposByCategory core version)
        + length (getReposByCategory libraries version)
        + length (getReposByCategory reference version)
        = length table)%nat
    /\ (forall c, map name (getReposByCategory c version)
                  = map name (getReposByCategory c None)).
Proof.
  intros version table. split; [|split].
  - intros c r. unfold getReposByCategory. fold table.
    rewrite filter_In, category_eqb_eq. tauto.
  - unfold getReposByCategory. fold table. apply category_partition.
  - intros c. rewrite !getReposByCategory_map, !map_map. reflexivity.
Qed.

End Table.

(** ** The selection of a sync *)

Section Selection.
Import Config Git Sync TableSpec.
Context `{HostEnv} `{GitEnv}.

Lemma configuredRepos_names (options : SyncOptions) :
  map Config.name (configuredRepos options) = map Config.name BASE_REPOS.
Proof.
  unfold configuredRepos, NOIR_REPOS.
  destruct (Js.truthy_opt (opt_version options));
    apply getNoirRepos_names.
Qed.

Lemma NoDup_map_filter {A B} (f : A -> B) (p : A -> bool) (l : list A) :
  NoDup (map f l) -> NoDup (map f (List.filter p l)).
Proof.
  induction l as [|a l IH]; intros Hnd; [exact Hnd|].
  inversion Hnd as [|? ? Hnotin Hnd']; subst. simpl.
  destruct (p a); [|apply IH, Hnd'].
  simpl. constructor; [|apply IH, Hnd'].
  intros Hin. apply Hnotin.
  apply list_elem_of_In in Hin. apply list_elem_of_In.
  apply in_map_iff in Hin as (x & Hx & Hin).
  apply filter_In in Hin as [Hin _].
  rewrite <- Hx. apply in_map, Hin.
Qed.

Lemma includes_name_In (names : list string) (n : string) :
  includes_name names n = true <-> In n names.
Proof.
  unfold includes_name. rewrite existsb_exists. split.
  - intros (x & Hin & Heq). apply String.eqb_eq in Heq. subst. exact Hin.
  - intros Hin. exists n. split; [exact Hin|apply String.eqb_refl].
Qed.

Lemma includes_category_In (cs : list RepoCategory) (c : RepoCategory) :
  includes_category cs c = true <-> In c cs.
Proof.
  unfold includes_category. rewrite existsb_exists. split.
  - intros (x & Hin & Heq). apply category_eqb_eq in Heq. subst. exact Hin.
  - intros Hin. exists c. split; [exact Hin|]. apply category_eqb_eq.
    reflexivity.
Qed.

(** X10. The selection of a sync follows a fixed priority: a non-empty
    list of names decides alone (the categories are then ignored, and
    names that are not in the table select nothing); failing that, a
    non-empty list of categories; failing that, the core category. What
    is selected is always a part of the configured table, and no
    repository is selected twice, however often it is named. *)
Theorem reposToSync_priority :
  forall (options : SyncOptions),
    let chosen (r : RepoConfig) : Prop :=
      match opt_repos options with
      | Some (n :: ns) => In (Config.name r) (n :: ns)
      | _ =>
          match opt_categories options with
          | Some (c :: cs) => In (category r) (c :: cs)
          | _ => category r = core
          end
      end in
    (forall r, In r (reposToSync options)
               <-> In r (configuredRepos options) /\ chosen r)
    /\ NoDup (map Config.name (reposToSync options))
    /\ (forall n ns categories,
          opt_repos options = Some (n :: ns) ->
          reposToSync
            {| opt_force := opt_force options;
               opt_repos := opt_repos options;
               opt_version := opt_version options;
               opt_categories := categories |}
          = reposToSync options).
Proof.
  intros options chosen. split; [|split].
  - intros r. unfold reposToSync, chosen.
    destruct (opt_repos options) as [[|n ns]|];
      try (destruct (opt_categories options) as [[|c cs]|]);
      rewrite filter_In;
      rewrite ?includes_name_In, ?includes_category_In, ?category_eqb_eq;
      tauto.
  - assert (Hnd : NoDup (map Config.name (configuredRepos options))).
    { rewrite configuredRepos_names. apply BASE_REPOS_names_NoDup. }
    unfold reposToSync.
    destruct (opt_repos options) as [[|n ns]|];
      try (destruct (opt_categories options) as [[|c cs]|]);
      apply NoDup_map_filter, Hnd.
  - intros n ns categories Hrepos. unfold reposToSync. simpl.
    rewrite Hrepos. reflexivity.
Qed.

(** X11. When every requested name is unknown to the table, whatever
    categories are given with them, [syncRepos] reports a failure with
    no outcome and the fixed message, and the world is left exactly as
    it was: no directory is created and no git command is issued. *)
Theorem syncRepos_unknown_names_change_nothing :
  forall (options : SyncOptions) (w : World) (n : string) (ns : list string),
    opt_repos options = Some (n :: ns) ->
    (forall m, In m (n :: ns) -> ~ In m (map Config.name BASE_REPOS)) ->
    syncRepos options w
    = (Ret {| success := false;
              message :=
                "No repositories matched the specified names or categories";
              version := env_or (opt_version options) DEFAULT_NOIR_VERSION;
              repos := [] |}, w).
Proof.
  intros options w n ns Hrepos Hunknown.
  assert (Hsel : reposToSync options = []).
  { unfold reposToSync. rewrite Hrepos.
    destruct (List.filter _ _) as [|r rest] eqn:Hf; [reflexivity|].
    assert (Hin : In r (List.filter
                          (fun r => includes_name (n :: ns) (Config.name r))
                          (configuredRepos options))).
    { rewrite Hf. left. reflexivity. }
    apply filter_In in Hin as [Hin Hname].
    apply includes_name_In in Hname.
    exfalso. apply (Hunknown _ Hname).
    rewrite <- (configuredRepos_names options). apply in_map, Hin. }
  unfold syncRepos. rewrite Hsel. reflexivity.
Qed.

End Selection.

Lemma syncRepos_unknown_names_change_nothing_witness :
  let options := {| Sync.opt_force := Some true;
                    Sync.opt_repos := Some ["nonexistent"];
                    Sync.opt_version := None;
                    Sync.opt_categories := Some [Config.core] |} in
  let w := Demo.world true ∅ in
  snd (Sync.syncRepos (H := Demo.host) options w) = w
  /\ match fst (Sync.syncRepos (H := Demo.host) options w) with
     | Ret r => Sync.success r = false /\ Sync.repos r = []
     | Throw _ => False
     end.
Proof.
  intros options w.
  rewrite (syncRepos_unknown_names_change_nothing (H := Demo.host)
             options w "nonexistent" [] eq_refl).
  - split; [reflexivity|]. split; reflexivity.
  - intros m [<-|[]]. vm_compute.
    intros Hin. repeat (destruct Hin as [Hin|Hin]; [discriminate|]).
    exact Hin.
Defined.

Lemma reposToSync_priority_witness :
  let options := {| Sync.opt_force := None;
                    Sync.opt_repos := Some ["noir-bignum"; "noir-bignum"];
                    Sync.opt_version := None;
                    Sync.opt_categories := Some [Config.core] |} in
  map Config.name (Sync.reposToSync (H := Demo.host) options)
  = ["noir-bignum"]
  /\ Sync.reposToSync (H := Demo.host)
       {| Sync.opt_force := None;
          Sync.opt_repos := Some ["noir-bignum"; "noir-bignum"];
          Sync.opt_version := None;
          Sync.opt_categories := None |}
     = Sync.reposToSync (H := Demo.host) options.
Proof.
  intros options.
  destruct (reposToSync_priority (H := Demo.host) options) as (_ & _ & Hcat).
  split; [reflexivity|].
  apply (Hcat "noir-bignum" ["noir-bignum"] None eq_refl).
Defined.

(** ** The status of the mirror *)

Section MirrorStatus.
Import Config Git Status StatusSpec.
Context `{HostEnv} `{GitEnv}.

Ltac run :=
  unfold mbind, M_bind, bind, catch, gets, ret, throw; simpl.

(** The short lookup, case by case. *)
Lemma getRepoCommit_short_cases (n : string) (w : World) :
  (isRepoCloned (store w) n = false
   /\ getRepoCommit n false w = (Ret None, w))
  \/ (isRepoCloned (store w) n = true
      /\ ((exists c, getRepoCommit n false w = (Ret c, w)
                     /\ or_undefined c = c)
          \/ (exists e, getRepoCommit n false w = (Throw e, w)
                        /\ lookup_rejects w n e))).
Proof.
  unfold getRepoCommit, git_log, lookup_rejects. run.
  destruct (isRepoCloned (store w) n) eqn:Hc; simpl; [right|left; auto].
  split; [reflexivity|].
  destruct (isRepoCloned_entry _ _ Hc) as (entry & He & Hg). rewrite He.
  destruct (log_latest entry) as [[h|]|e] eqn:Hl; simpl.
  - destruct (Js.truthy h) eqn:Ht; simpl.
    + left. eexists. split; [reflexivity|].
      unfold or_undefined. rewrite (truthy_take 6 h Ht). reflexivity.
    + left. exists None. auto.
  - left. exists None. auto.
  - right. exists e. split; [reflexivity|]. exists entry. auto.
Qed.

(** What the loop records for a name. *)
Lemma statusLoop_spec (configs : list RepoConfig) :
  forall (status : gmap string RepoState) (w w' : World)
         (o : Outcome (gmap string RepoState)),
    statusLoop configs status w = (o, w') ->
    w' = w
    /\ match o with
       | Throw e =>
           exists c, In c configs /\ lookup_rejects w (Config.name c) e
       | Ret m =>
           forall n,
             (In n (map Config.name configs) ->
              exists st,
                m !! n = Some st
                /\ st_cloned st = isRepoCloned (store w) n
                /\ getRepoCommit n false w = (Ret (st_commit st), w))
             /\ (~ In n (map Config.name configs) -> m !! n = status !! n)
       end.
Proof.
  induction configs as [|c rest IH]; intros status w w' o Hrun.
  - injection Hrun as <- <-. split; [reflexivity|].
    intros n. split; [intros []|reflexivity].
  - simpl in Hrun. unfold mbind, M_bind, bind, gets, ret in Hrun.
    simpl in Hrun.
    destruct (getRepoCommit_short_cases (Config.name c) w)
      as [[Hc Hcommit]|[Hc [(cm & Hcommit & Hcm)|(e & Hcommit & Hrej)]]];
      rewrite Hc in Hrun; simpl in Hrun; rewrite ?Hcommit in Hrun;
      simpl in Hrun.
    + destruct (IH _ _ _ _ Hrun) as [-> Hrest]. split; [reflexivity|].
      destruct o as [m|e].
      * intros n. destruct (Hrest n) as [Hin Hout].
        destruct (in_dec string_dec n (map Config.name rest)) as [Hr|Hr].
        -- split; [intros _; apply Hin, Hr|].
           intros Hn. exfalso. apply Hn. right. exact Hr.
        -- rewrite (Hout Hr). split.
           ++ intros [<-|Hn]; [|contradiction].
              rewrite lookup_insert_eq. eexists. split; [reflexivity|].
              simpl. rewrite Hc. split; [reflexivity|exact Hcommit].
           ++ intros Hn. rewrite lookup_insert_ne; [reflexivity|].
              intros Heq. apply Hn. left. exact Heq.
      * destruct Hrest as (c' & Hin & Hrej). exists c'.
        split; [right; exact Hin|exact Hrej].
    + rewrite Hcm in Hrun.
      destruct (IH _ _ _ _ Hrun) as [-> Hrest]. split; [reflexivity|].
      destruct o as [m|e].
      * intros n. destruct (Hrest n) as [Hin Hout].
        destruct (in_dec string_dec n (map Config.name rest)) as [Hr|Hr].
        -- split; [intros _; apply Hin, Hr|].
           intros Hn. exfalso. apply Hn. right. exact Hr.
        -- rewrite (Hout Hr). split.
           ++ intros [<-|Hn]; [|contradiction].
              rewrite lookup_insert_eq. eexists. split; [reflexivity|].
              simpl. rewrite Hc. split; [reflexivity|exact Hcommit].
           ++ intros Hn. rewrite lookup_insert_ne; [reflexivity|].
              intros Heq. apply Hn. left. exact Heq.
      * destruct Hrest as (c' & Hin & Hrej). exists c'.
        split; [right; exact Hin|exact Hrej].
    + injection Hrun as <- <-. split; [reflexivity|].
      exists c. split; [left; reflexivity|exact Hrej].
Qed.

(** X12. [getStatus] only reads the mirror. It raises only when the
    commit lookup of some configured, cloned repository rejects, with
    that error. Otherwise it reports the mirror root and one entry per
    configured repository, in the order of the table, with the name, the
    description and the category of the table; the entry says [cloned]
    exactly when the repository is cloned, and its commit is the short
    hash [getRepoCommit] gives: none when the repository is not
    cloned. *)
Theorem getStatus_reports_every_configured_repository :
  forall (w : World),
    snd (getStatus w) = w
    /\ match fst (getStatus w) with
       | Throw e =>
           exists c, In c NOIR_REPOS /\ lookup_rejects w (Config.name c) e
       | Ret report =>
           reposDir report = REPOS_DIR
           /\ map name (repos report) = map Config.name NOIR_REPOS
           /\ map description (repos report)
              = map Config.description NOIR_REPOS
           /\ map category (repos report) = map Config.category NOIR_REPOS
           /\ (forall entry, In entry (repos report) ->
                 cloned entry = isRepoCloned (store w) (name entry)
                 /\ getRepoCommit (name entry) false w
                    = (Ret (commit entry), w)
                 /\ (cloned entry = false -> commit entry = None))
       end.
Proof.
  intros w.
  destruct (statusLoop NOIR_REPOS ∅ w) as [o w'] eqn:Hloop.
  destruct (statusLoop_spec _ _ _ _ _ Hloop) as [-> Hspec].
  unfold getStatus, getReposStatus, mbind, M_bind, bind, ret.
  rewrite Hloop.
  destruct o as [m|e]; cbn [fst snd]; (split; [reflexivity|]);
    [|exact Hspec].
  cbn [reposDir repos]. split; [reflexivity|]. rewrite !map_map.
  split; [reflexivity|]. split; [reflexivity|]. split; [reflexivity|].
  intros entry Hin. apply in_map_iff in Hin as (c & <- & Hc).
  cbn [name cloned commit].
  destruct (Hspec (Config.name c)) as [Hfound _].
  destruct (Hfound (in_map _ _ _ Hc)) as (st & -> & Hcl & Hcommit).
  split; [exact Hcl|]. split; [exact Hcommit|].
  intros Hnot. rewrite Hcl in Hnot.
  destruct (getRepoCommit_short_cases (Config.name c) w)
    as [[_ Hnone]|[Hyes _]]; [|congruence].
  rewrite Hcommit in Hnone. congruence.
Qed.

End MirrorStatus.

(** ** Lines of the matcher *)

Section MatcherLines.
Import Search SearchSpec ScanSpec.

Lemma allb_append (p : ascii -> bool) (a b : string) :
  Js.allb p (a +:+ b) = Js.allb p a && Js.allb p b.
Proof.
  induction a as [|c a IH]; [reflexivity|].
  rewrite append_cons. simpl. rewrite IH, andb_assoc. reflexivity.
Qed.

Lemma span_digits_spec (s : string) :
  forall ds r,
    span_digits s = (ds, r) ->
    s = ds +:+ r /\ Js.allb Js.is_digit ds = true.
Proof.
  induction s as [|c s IH]; intros ds r Hspan; simpl in Hspan.
  - injection Hspan as <- <-. auto.
  - destruct (Js.is_digit c) eqn:Hd.
    + destruct (span_digits s) as [ds' r'] eqn:Hs.
      injection Hspan as <- <-. destruct (IH _ _ eq_refl) as [-> Hall].
      split; [reflexivity|]. simpl. rewrite Hd, Hall. reflexivity.
    + injection Hspan as <- <-. auto.
Qed.

Lemma span_digits_stop (ds : string) (c : ascii) (r : string) :
  Js.allb Js.is_digit ds = true -> Js.is_digit c = false ->
  span_digits (ds +:+ String c r) = (ds, String c r).
Proof.
  intros Hds Hc. induction ds as [|d ds IH].
  - rewrite append_nil_l. simpl. rewrite Hc. reflexivity.
  - simpl in Hds. apply andb_true_iff in Hds as [Hd Hds].
    rewrite append_cons. simpl. rewrite Hd, (IH Hds). reflexivity.
Qed.

Lemma match_tail_spec (s ds text : string) :
  match_tail s = Some (ds, text) ->
  s = Js.str1 Js.colon +:+ ds +:+ Js.str1 Js.colon +:+ text
  /\ Js.truthy ds = true
  /\ Js.allb Js.is_digit ds = true
  /\ Js.allb is_dot text = true.
Proof.
  unfold match_tail. destruct s as [|c s1]; [discriminate|].
  destruct (Js.ceq c Js.colon) eqn:Hc; simpl; [|discriminate].
  apply ceq_true in Hc. subst c.
  destruct (span_digits s1) as [d r] eqn:Hspan.
  destruct (span_digits_spec _ _ _ Hspan) as [-> Hall].
  destruct d as [|d0 d]; [discriminate|].
  destruct r as [|c2 s3]; [discriminate|].
  destruct (Js.ceq c2 Js.colon) eqn:Hc2; simpl; [|discriminate].
  apply ceq_true in Hc2. subst c2.
  destruct (Js.allb is_dot s3) eqn:Hdots; [|discriminate].
  intros [= <- <-]. repeat split; auto.
Qed.

Lemma match_lazy_eq (acc s : string) :
  match_lazy acc s =
  match match_tail s with
  | Some (ds, c) => Some (acc, ds, c)
  | None =>
      match s with
      | EmptyString => None
      | String ch s' =>
          if is_dot ch then match_lazy (acc +:+ Js.str1 ch) s' else None
      end
  end.
Proof. destruct s; reflexivity. Qed.

Lemma match_lazy_spec (s : string) :
  forall acc filePath lineNum text,
    match_lazy acc s = Some (filePath, lineNum, text) ->
    exists mid,
      filePath = acc +:+ mid
      /\ Js.allb is_dot mid = true
      /\ s = mid +:+ Js.str1 Js.colon +:+ lineNum +:+ Js.str1 Js.colon
             +:+ text
      /\ Js.truthy lineNum = true
      /\ Js.allb Js.is_digit lineNum = true
      /\ Js.allb is_dot text = true.
Proof.
  induction s as [|ch s IH]; intros acc filePath lineNum text Hm;
    rewrite match_lazy_eq in Hm.
  - simpl in Hm. discriminate.
  - destruct (match_tail (String ch s)) as [[ds c]|] eqn:Ht.
    + injection Hm as <- <- <-.
      destruct (match_tail_spec _ _ _ Ht) as (Hs & Hne & Hd & Hdots).
      exists EmptyString. rewrite Hs, append_nil_r.
      repeat split; auto.
    + destruct (is_dot ch) eqn:Hdot; [|discriminate].
      destruct (IH _ _ _ _ Hm) as (mid & -> & Hmid & -> & Hrest).
      exists (String ch mid). rewrite append_assoc.
      split; [reflexivity|]. split; [simpl; rewrite Hdot; exact Hmid|].
      split; [reflexivity|exact Hrest].
Qed.

Lemma match_tail_path_char (c : ascii) (s : string) :
  path_char c = true -> match_tail (String c s) = None.
Proof.
  unfold path_char, match_tail. intros Hc.
  apply andb_true_iff in Hc as [_ Hc]. rewrite Hc. reflexivity.
Qed.

Lemma match_tail_written (lineNum text : string) :
  Js.truthy lineNum = true ->
  Js.allb Js.is_digit lineNum = true ->
  Js.allb is_dot text = true ->
  match_tail (Js.str1 Js.colon +:+ lineNum +:+ Js.str1 Js.colon +:+ text)
  = Some (lineNum, text).
Proof.
  intros Hne Hd Hdots. unfold match_tail.
  change (Js.str1 Js.colon +:+ lineNum +:+ Js.str1 Js.colon +:+ text)
    with (String Js.colon (lineNum +:+ String Js.colon text)).
  cbv beta iota. rewrite ceq_refl. simpl negb. cbv iota.
  rewrite (span_digits_stop lineNum Js.colon text Hd eq_refl).
  destruct lineNum as [|d ds]; [discriminate|].
  cbv beta iota. rewrite ceq_refl, Hdots. reflexivity.
Qed.

Lemma match_lazy_written (mid lineNum text : string) :
  Js.allb path_char mid = true ->
  Js.truthy lineNum = true ->
  Js.allb Js.is_digit lineNum = true ->
  Js.allb is_dot text = true ->
  forall acc,
    match_lazy acc
      (mid +:+ Js.str1 Js.colon +:+ lineNum +:+ Js.str1 Js.colon +:+ text)
    = Some (acc +:+ mid, lineNum, text).
Proof.
  intros Hmid Hne Hd Hdots. induction mid as [|c mid IH]; intros acc;
    rewrite match_lazy_eq.
  - rewrite append_nil_l, (match_tail_written _ _ Hne Hd Hdots), append_nil_r.
    reflexivity.
  - simpl in Hmid. apply andb_true_iff in Hmid as [Hc Hmid].
    rewrite append_cons, (match_tail_path_char c _ Hc).
    assert (Hdot : is_dot c = true).
    { unfold path_char in Hc. apply andb_true_iff in Hc as [Hc _]. exact Hc. }
    rewrite Hdot, (IH Hmid), append_assoc. reflexivity.
Qed.

(** X13. A line of the matcher is read back as it was written: the line
    made of a non-empty path without colon or line terminator, a colon,
    a non-empty run of digits, a colon and a text without line
    terminator gives back that path, those digits and that text (the
    text may hold colons). Conversely whatever [match_rg_line] accepts
    is such a line: the three parts joined by two colons are the line,
    the path is not empty, and the number is a non-empty run of
    digits. *)
Theorem match_rg_line_round_trip :
  forall (filePath lineNum text : string),
    (Js.truthy filePath = true ->
     Js.allb path_char filePath = true ->
     Js.truthy lineNum = true ->
     Js.allb Js.is_digit lineNum = true ->
     Js.allb is_dot text = true ->
     match_rg_line (rg_line filePath lineNum text)
     = Some (filePath, lineNum, text))
    /\ (forall l,
          match_rg_line l = Some (filePath, lineNum, text) ->
          l = rg_line filePath lineNum text
          /\ Js.truthy filePath = true
          /\ Js.allb is_dot filePath = true
          /\ Js.truthy lineNum = true
          /\ Js.allb Js.is_digit lineNum = true
          /\ Js.allb is_dot text = true).
Proof.
  intros filePath lineNum text. split.
  - intros Hne Hpath Hnum Hd Hdots. unfold rg_line, match_rg_line.
    destruct filePath as [|c p]; [discriminate|].
    simpl in Hpath. apply andb_true_iff in Hpath as [Hc Hp].
    rewrite append_cons.
    assert (Hdot : is_dot c = true).
    { unfold path_char in Hc. apply andb_true_iff in Hc as [Hc _]. exact Hc. }
    rewrite Hdot, (match_lazy_written p lineNum text Hp Hnum Hd Hdots).
    reflexivity.
  - intros l Hm. unfold match_rg_line in Hm.
    destruct l as [|ch s]; [discriminate|].
    destruct (is_dot ch) eqn:Hdot; [|discriminate].
    destruct (match_lazy_spec _ _ _ _ _ Hm)
      as (mid & -> & Hmid & -> & Hnum & Hd & Hdots).
    unfold rg_line. split; [reflexivity|]. split; [reflexivity|].
    split; [simpl; rewrite Hdot; exact Hmid|auto].
Qed.

End MatcherLines.

Lemma match_rg_line_round_trip_witness :
  Search.match_rg_line "noir/src/main.nr:42:let x: Field = 1;"
  = Some ("noir/src/main.nr", "42", "let x: Field = 1;").
Proof.
  destruct (match_rg_line_round_trip "noir/src/main.nr" "42"
              "let x: Field = 1;") as [Hwrite _].
  apply Hwrite; reflexivity.
Defined.

(** ** Truncation of the results *)

Section Truncation.
Import Search SearchSpec ScanSpec.
Context `{HostEnv} `{SearchEnv}.

Lemma parsed_line_empty : parsed_line EmptyString = [].
Proof. reflexivity. Qed.

Lemma flat_map_filterBoolean (lines : list string) :
  flat_map parsed_line (Js.filterBoolean lines) = flat_map parsed_line lines.
Proof.
  unfold Js.filterBoolean. induction lines as [|l lines IH]; [reflexivity|].
  simpl. destruct l as [|c l]; simpl.
  - exact IH.
  - rewrite IH. reflexivity.
Qed.

Lemma limit_reached (A : Type) (acc : list A) (k : nat) (limit : Z) :
  Z.of_nat (length acc) + Z.of_nat k = limit ->
  (Z.of_nat (length acc) >=? limit) = match k with O => true | S _ => false end.
Proof.
  intros Hk. rewrite Z.geb_leb.
  destruct k; [apply Z.leb_le | apply Z.leb_gt]; lia.
Qed.

Lemma parseLines_firstn (limit : Z) (lines : list string) :
  forall (acc : list SearchResult) (k : nat),
    Z.of_nat (length acc) + Z.of_nat k = limit ->
    parseLines lines limit acc
    = acc ++ firstn k (flat_map parsed_line lines).
Proof.
  induction lines as [|l lines IH]; intros acc k Hk.
  - simpl. rewrite firstn_nil, app_nil_r. reflexivity.
  - cbn [parseLines]. rewrite (limit_reached _ _ _ _ Hk).
    destruct k as [|k]; [simpl; rewrite app_nil_r; reflexivity|].
    cbn [flat_map]. unfold parsed_line at 1.
    destruct (match_rg_line l) as [[[filePath lineNum] text]|].
    + cbv zeta. rewrite (IH _ k).
      * rewrite <- app_assoc. reflexivity.
      * rewrite length_app. simpl. lia.
    + apply IH. exact Hk.
Qed.

Lemma parseLines_nonpositive (limit : Z) (lines : list string) :
  limit <= 0 -> parseLines lines limit [] = [].
Proof.
  intros Hle. destruct lines as [|l lines]; [reflexivity|].
  cbn [parseLines].
  replace (Z.of_nat (length (@nil SearchResult)) >=? limit) with true;
    [reflexivity|].
  symmetry. apply Z.geb_le. simpl. lia.
Qed.

Lemma parseRgOutput_firstn (output : string) (limit : Z) :
  parseRgOutput output limit
  = firstn (Z.to_nat limit)
      (flat_map parsed_line (Js.split Js.newline output)).
Proof.
  unfold parseRgOutput. rewrite <- flat_map_filterBoolean.
  destruct (Z_le_gt_dec limit 0) as [Hle|Hgt].
  - rewrite (parseLines_nonpositive _ _ Hle).
    replace (Z.to_nat limit) with 0%nat by lia. reflexivity.
  - rewrite (parseLines_firstn limit _ [] (Z.to_nat limit)); [reflexivity|].
    simpl. lia.
Qed.

(** X14. [parseRgOutput] returns the first [maxResults] matches of the
    matcher's output in the order of its lines: each line of the form
    path, colon, digits, colon, text gives one result, every other line
    (an empty one too) gives none, and the list of these results is cut
    after [maxResults] of them (nothing is returned for a limit of zero or
    less). So raising the limit only appends results: the results for a
    limit are the first ones of the results for any larger limit. *)
Theorem parseRgOutput_keeps_the_first_matches :
  forall (output : string) (limit : Z),
    parseRgOutput output limit
    = firstn (Z.to_nat limit)
        (flat_map parsed_line (Js.split Js.newline output))
    /\ (forall larger,
          limit <= larger ->
          parseRgOutput output limit
          = firstn (Z.to_nat limit) (parseRgOutput output larger)).
Proof.
  intros output limit. split; [apply parseRgOutput_firstn|].
  intros larger Hle. rewrite !parseRgOutput_firstn, firstn_firstn.
  f_equal. lia.
Qed.

Lemma scanLines_firstn (re : RegExp) (limit : Z) (f : string)
    (lines : list string) :
  forall (i : Z) (acc : list SearchResult) (k : nat),
    Z.of_nat (length acc) + Z.of_nat k = limit ->
    scanLines re limit f lines i acc
    = acc ++ firstn k (line_hits re f lines i).
Proof.
  induction lines as [|l lines IH]; intros i acc k Hk.
  - simpl. rewrite firstn_nil, app_nil_r. reflexivity.
  - cbn [scanLines line_hits]. rewrite (limit_reached _ _ _ _ Hk).
    destruct k as [|k]; [simpl; rewrite app_nil_r; reflexivity|].
    destruct (re l).
    + cbv zeta. rewrite (IH _ _ k).
      * rewrite <- app_assoc. reflexivity.
      * rewrite length_app. simpl. lia.
    + apply IH. exact Hk.
Qed.

Lemma firstn_app_rest (A : Type) (k : nat) (l1 l2 : list A) :
  firstn k (l1 ++ l2)
  = firstn k l1 ++ firstn (k - length (firstn k l1)) l2.
Proof.
  rewrite firstn_app, length_firstn.
  destruct (Nat.le_gt_cases k (length l1)) as [Hle|Hgt].
  - replace (k - length l1)%nat with 0%nat by lia.
    replace (k - Nat.min k (length l1))%nat with 0%nat by lia. reflexivity.
  - replace (k - Nat.min k (length l1))%nat with (k - length l1)%nat by lia.
    reflexivity.
Qed.

Lemma scanFiles_firstn (re : RegExp) (limit : Z) (files : list string) :
  forall (acc : list SearchResult) (k : nat),
    Z.of_nat (length acc) + Z.of_nat k = limit ->
    scanFiles re limit files acc
    = acc ++ firstn k (flat_map (file_hits re) files).
Proof.
  induction files as [|f files IH]; intros acc k Hk.
  - simpl. rewrite firstn_nil, app_nil_r. reflexivity.
  - cbn [scanFiles flat_map]. rewrite (limit_reached _ _ _ _ Hk).
    destruct k as [|k]; [simpl; rewrite app_nil_r; reflexivity|].
    unfold file_hits at 1. destruct (readFileSync f) as [text|e].
    + rewrite (scanLines_firstn re limit f _ 0 acc (S k) Hk).
      rewrite firstn_app_rest.
      set (hits := firstn (S k) (line_hits re f (Js.split Js.newline text) 0)).
      assert (Hlen : (length hits <= S k)%nat)
        by (subst hits; rewrite length_firstn; lia).
      rewrite (IH _ (S k - length hits)%nat).
      * rewrite <- app_assoc. reflexivity.
      * rewrite length_app. lia.
    + apply IH. exact Hk.
Qed.

Lemma scanFiles_nonpositive (re : RegExp) (limit : Z) (files : list string) :
  limit <= 0 -> scanFiles re limit files [] = [].
Proof.
  intros Hle. destruct files as [|f files]; [reflexivity|].
  cbn [scanFiles].
  replace (Z.of_nat (length (@nil SearchResult)) >=? limit) with true;
    [reflexivity|].
  symmetry. apply Z.geb_le. simpl. lia.
Qed.

Lemma scanFiles_all (re : RegExp) (limit : Z) (files : list string) :
  scanFiles re limit files []
  = firstn (Z.to_nat limit) (flat_map (file_hits re) files).
Proof.
  destruct (Z_le_gt_dec limit 0) as [Hle|Hgt].
  - rewrite (scanFiles_nonpositive _ _ _ Hle).
    replace (Z.to_nat limit) with 0%nat by lia. reflexivity.
  - rewrite (scanFiles_firstn re limit _ [] (Z.to_nat limit)); [reflexivity|].
    simpl. lia.
Qed.

Lemma file_hits_readable (re : RegExp) (files : list string) :
  flat_map (file_hits re) (List.filter readable files)
  = flat_map (file_hits re) files.
Proof.
  induction files as [|f files IH]; [reflexivity|].
  cbn [List.filter flat_map].
  assert (Hf : readable f = false -> file_hits re f = []).
  { unfold readable, file_hits. destruct (readFileSync f); [discriminate|].
    reflexivity. }
  destruct (readable f).
  - cbn [flat_map]. rewrite IH. reflexivity.
  - rewrite (Hf eq_refl). exact IH.
Qed.

(** X15. When the file listing succeeds and the query (or its escaped
    form) compiles, the fallback scan returns the first [maxResults]
    matching lines, files in the order of the listing and lines in the
    order of each file, each with its line number counted from 1. A file
    that cannot be read contributes nothing and does not stop the scan:
    the results are those of the listing without the unreadable files. *)
Theorem manualSearch_keeps_the_first_matches :
  forall (query searchPath filePattern : string) (limit : Z)
         (caseSensitive : bool) (files : list string) (re : RegExp),
    globbySync (Js.replaceFirst "*." "**/*." filePattern) searchPath
    = Ret files ->
    try_catch (RegExp_new query (negb caseSensitive))
      (fun _ => RegExp_new (escapeRegExp query) (negb caseSensitive))
    = Ret re ->
    manualSearch query searchPath filePattern limit caseSensitive
    = Ret (firstn (Z.to_nat limit) (flat_map (file_hits re) files))
    /\ manualSearch query searchPath filePattern limit caseSensitive
       = Ret (scanFiles re limit (List.filter readable files) []).
Proof.
  intros query searchPath filePattern limit caseSensitive files re Hg Hre.
  assert (Hm : manualSearch query searchPath filePattern limit caseSensitive
               = Ret (scanFiles re limit files [])).
  { unfold manualSearch. rewrite Hg. simpl. rewrite Hre. reflexivity. }
  rewrite Hm, !scanFiles_all, file_hits_readable. split; reflexivity.
Qed.

End Truncation.

Lemma parseRgOutput_keeps_the_first_matches_witness :
  @Search.parseRgOutput Demo.host
    ("/home/dev/.noir-mcp/repos/noir/a.nr:1:fn a() {}" +:+ Js.str1 Js.newline
     +:+ "/home/dev/.noir-mcp/repos/noir/b.nr:2:fn b() {}") 1
  = firstn 1
      (@Search.parseRgOutput Demo.host
         ("/home/dev/.noir-mcp/repos/noir/a.nr:1:fn a() {}"
          +:+ Js.str1 Js.newline
          +:+ "/home/dev/.noir-mcp/repos/noir/b.nr:2:fn b() {}") 2).
Proof.
  destruct (@parseRgOutput_keeps_the_first_matches Demo.host
              ("/home/dev/.noir-mcp/repos/noir/a.nr:1:fn a() {}"
               +:+ Js.str1 Js.newline
               +:+ "/home/dev/.noir-mcp/repos/noir/b.nr:2:fn b() {}") 1)
    as [_ Hmono].
  apply (Hmono 2). lia.
Defined.

Lemma manualSearch_keeps_the_first_matches_witness :
  @Search.manualSearch Demo.host DemoScan.search_env
    "fn" "/home/dev/.noir-mcp/repos" "*.nr" 2 false
  = Ret (firstn 2
           (flat_map
              (@ScanSpec.file_hits Demo.host DemoScan.search_env
                 (SearchSpec.literal_test true "fn"))
              [DemoScan.lib_nr; DemoScan.locked_nr; DemoScan.main_nr])).
Proof.
  destruct (@manualSearch_keeps_the_first_matches Demo.host
              DemoScan.search_env
              "fn" "/home/dev/.noir-mcp/repos" "*.nr" 2 false
              [DemoScan.lib_nr; DemoScan.locked_nr; DemoScan.main_nr]
              (SearchSpec.literal_test true "fn") eq_refl eq_refl)
    as [Hfirst _].
  exact Hfirst.
Defined.

(** ** The shell escape loses nothing *)

Section Escape.
Import Search ScanSpec.

Lemma unescape_escapeClass (cls : ascii -> bool) (s : string) :
  cls Js.bslash = true ->
  unescape (Js.escapeClass cls s) = s.
Proof.
  intros Hb. induction s as [|c s IH]; [reflexivity|].
  simpl. destruct (cls c) eqn:Hc.
  - simpl. rewrite ?ceq_refl, IH. reflexivity.
  - simpl. destruct (Js.ceq c Js.bslash) eqn:Hcb.
    + apply ceq_true in Hcb. congruence.
    + rewrite IH. reflexivity.
Qed.

Lemma length_escapeClass (cls : ascii -> bool) (s : string) :
  (String.length s <= String.length (Js.escapeClass cls s)
   <= 2 * String.length s)%nat.
Proof.
  induction s as [|c s IH]; simpl; [lia|].
  destruct (cls c); simpl; lia.
Qed.

Lemma escapeClass_plain (cls : ascii -> bool) (s : string) :
  Js.escapeClass cls s = s <-> Js.allb (fun c => negb (cls c)) s = true.
Proof.
  induction s as [|c s IH]; simpl; [tauto|].
  destruct (cls c) eqn:Hc; simpl.
  - split; [|discriminate]. intros Heq. exfalso.
    apply (f_equal String.length) in Heq. simpl in Heq.
    pose proof (length_escapeClass cls s). lia.
  - rewrite <- IH. split; [intros [= Heq]; exact Heq|intros ->; reflexivity].
Qed.

(** X16. [escapeShell] loses nothing of the query: dropping the
    backslashes it added gives the query back, so two different queries
    never give the same escaped text. A query is returned unchanged
    exactly when it holds none of the five characters of the class
    (double quote, dollar, backtick, backslash, exclamation mark), and
    the escaped text is never shorter than the query nor longer than
    twice its length. *)
Theorem escapeShell_loses_nothing :
  forall (query : string),
    unescape (escapeShell query) = query
    /\ (forall other, escapeShell query = escapeShell other -> query = other)
    /\ (escapeShell query = query
        <-> Js.allb (fun c => negb (shell_special c)) query = true)
    /\ (String.length query <= String.length (escapeShell query)
        <= 2 * String.length query)%nat.
Proof.
  intros query. unfold escapeShell.
  split; [apply unescape_escapeClass; reflexivity|].
  split.
  - intros other Heq.
    rewrite <- (unescape_escapeClass shell_special query eq_refl).
    rewrite <- (unescape_escapeClass shell_special other eq_refl).
    rewrite Heq. reflexivity.
  - split; [apply escapeClass_plain|apply length_escapeClass].
Qed.

End Escape.

Lemma escapeShell_loses_nothing_witness :
  Search.escapeShell "fn (main|test)" = "fn (main|test)".
Proof.
  destruct (escapeShell_loses_nothing "fn (main|test)")
    as (_ & _ & [_ Hplain] & _).
  apply Hplain. reflexivity.
Defined.

(** ** The searches of the documentation and of the standard library *)

Section LibrarySearches.
Import Search SearchSpec ScanSpec SearchLib.
Context `{HostEnv} `{SearchEnv}.

Lemma searchCode_bounded (query : string) (options : SearchOptions) :
  exists found,
    searchCode query options = Ret found
    /\ (length found <= Z.to_nat (default 50%Z (maxResults options)))%nat.
Proof.
  unfold searchCode.
  destruct (existsSync (searchPathOf options)); simpl;
    [|exists []; split; [reflexivity|simpl; lia]].
  destruct (execSync _) as [output|e]; simpl.
  - eexists. split; [reflexivity|].
    rewrite parseRgOutput_firstn. apply firstn_le_length.
  - destruct (manualSearch_cases query (searchPathOf options)
                (default "*.nr" (filePattern options))
                (default 50 (maxResults options))
                (default false (caseSensitive options)))
      as [->|(files & re & _ & _ & ->)].
    + exists []. split; [reflexivity|simpl; lia].
    + eexists. split; [reflexivity|].
      rewrite scanFiles_all. apply firstn_le_length.
Qed.

Lemma searchCode_missing_root (query : string) (options : SearchOptions) :
  existsSync (searchPathOf options) = false ->
  searchCode query options = Ret [].
Proof. intros Hroot. unfold searchCode. rewrite Hroot. reflexivity. Qed.

(** X17. [searchDocs] never raises and returns at most [maxResults]
    results (30 when no limit is given, none for a limit of zero or
    less). A section that is missing, empty or has no directory under
    [noir/docs] of the mirror is ignored: the search is then the one of
    the whole [noir] repository, and it is empty when that repository's
    directory does not exist. *)
Theorem searchDocs_bounded_and_falls_back_to_noir :
  forall (query : string) (section : option string) (limit : option Z),
    (exists found,
       searchDocs query section limit = Ret found
       /\ (length found <= Z.to_nat (default 30%Z limit))%nat)
    /\ ((forall s,
           section = Some s -> Js.truthy s = true ->
           existsSync
             (path_join (path_join (path_join Git.REPOS_DIR "noir") "docs") s)
           = false) ->
        searchDocs query section limit = searchDocs query None limit
        /\ (existsSync (Git.getRepoPath "noir") = false ->
            searchDocs query section limit = Ret [])).
Proof.
  intros query section limit. split.
  - unfold searchDocs. apply searchCode_bounded.
  - intros Hsection.
    assert (Hnone : searchDocs query section limit
                    = searchDocs query None limit).
    { unfold searchDocs. destruct section as [s|]; [|reflexivity].
      destruct (Js.truthy s) eqn:Hs; [|reflexivity].
      rewrite (Hsection s eq_refl Hs). reflexivity. }
    split; [exact Hnone|]. intros Hroot. rewrite Hnone.
    unfold searchDocs. apply searchCode_missing_root. exact Hroot.
Qed.

(** X18. [searchStdlib] never raises and returns at most [maxResults]
    results (30 when no limit is given). It returns nothing when the
    [noir_stdlib] directory of the [noir] repository does not exist, and
    nothing either when the directory it searches, the mirror path of
    [noir/noir_stdlib], does not exist. *)
Theorem searchStdlib_bounded_and_empty_without_stdlib :
  forall (query : string) (limit : option Z),
    (exists found,
       searchStdlib query limit = Ret found
       /\ (length found <= Z.to_nat (default 30%Z limit))%nat)
    /\ (existsSync (path_join (Git.getRepoPath "noir") "noir_stdlib") = false
        \/ existsSync (Git.getRepoPath "noir/noir_stdlib") = false ->
        searchStdlib query limit = Ret []).
Proof.
  intros query limit. unfold searchStdlib. split.
  - destruct (existsSync (path_join _ "noir_stdlib")); simpl.
    + apply searchCode_bounded.
    + exists []. split; [reflexivity|simpl; lia].
  - intros [Hdir|Hroot].
    + rewrite Hdir. reflexivity.
    + destruct (existsSync (path_join _ "noir_stdlib")); simpl;
        [|reflexivity].
      apply searchCode_missing_root. exact Hroot.
Qed.

End LibrarySearches.

(** ** Libraries, circuits and examples *)

Section Libraries.
Import Config Search SearchLib Tools LibrarySpec.
Context `{HostEnv} `{SearchEnv}.

Lemma shown_categories (category : option string) (c : RepoCategory) :
  existsb (category_eqb c)
    match validCategory category with
    | Some c0 => [c0]
    | None => [libraries; reference]
    end = true
  <-> shows category c.
Proof.
  unfold shows, validCategory.
  destruct category as [s|].
  - destruct (String.eqb s "libraries") eqn:Hl.
    + apply String.eqb_eq in Hl. subst s.
      destruct c; simpl; split; try discriminate;
        try (intros (Hcore & Hlib & Href); first
               [ now contradiction Hcore
               | specialize (Hlib eq_refl); discriminate ]);
        intros _; repeat split; try discriminate; reflexivity.
    + destruct (String.eqb s "reference") eqn:Hr.
      * apply String.eqb_eq in Hr. subst s.
        destruct c; simpl; split; try discriminate;
          try (intros (Hcore & Hlib & Href); first
                 [ now contradiction Hcore
                 | specialize (Href eq_refl); discriminate ]);
          intros _; repeat split; try discriminate; reflexivity.
      * apply String.eqb_neq in Hl, Hr.
        destruct c; simpl; split; try discriminate;
          try (intros (Hcore & _); now contradiction Hcore);
          intros _; repeat split; try discriminate;
          intros [= ->]; contradiction.
  - destruct c; simpl; split; try discriminate;
      try (intros (Hcore & _); now contradiction Hcore);
      intros _; repeat split; discriminate.
Qed.

(** X19. [listNoirLibraries] always succeeds and lists exactly the
    configured repositories of the categories it shows, each with its
    name, description, category and URL from the table and with its
    clone state in the mirror. Whatever category string is passed, a core
    repository is never listed; the string [libraries] or [reference]
    narrows the list to that category, and any other string (the string
    [core] too) is ignored, the reply being the one without category. *)
Theorem listNoirLibraries_never_lists_core :
  forall (category : option string),
    lib_success (listNoirLibraries category) = true
    /\ (forall l,
          In l (lib_libraries (listNoirLibraries category))
          <-> exists r,
                In r NOIR_REPOS
                /\ shows category (Config.category r)
                /\ l = {| lib_name := Config.name r;
                          lib_description := Config.description r;
                          lib_category := Config.category r;
                          lib_url := Config.url r;
                          lib_cloned := isRepoCloned (Config.name r) |})
    /\ (category <> Some "libraries" -> category <> Some "reference" ->
        listNoirLibraries category = listNoirLibraries None).
Proof.
  intros category. split; [reflexivity|]. split.
  - intros l. unfold listNoirLibraries, listLibraries. cbn [lib_libraries].
    rewrite in_map_iff. split.
    + intros (r & <- & Hr). apply filter_In in Hr as [Hin Hshow].
      exists r. split; [exact Hin|]. split; [|reflexivity].
      apply shown_categories. exact Hshow.
    + intros (r & Hin & Hshow & ->). exists r. split; [reflexivity|].
      apply filter_In. split; [exact Hin|].
      apply shown_categories. exact Hshow.
  - intros Hl Hr. unfold listNoirLibraries.
    replace (validCategory category) with (validCategory None);
      [reflexivity|].
    unfold validCategory. destruct category as [s|]; [|reflexivity].
    destruct (String.eqb s "libraries") eqn:El;
      [apply String.eqb_eq in El; subst s; contradiction|].
    destruct (String.eqb s "reference") eqn:Er;
      [apply String.eqb_eq in Er; subst s; contradiction|].
    reflexivity.
Qed.

End Libraries.

Section Circuits.
Import Search SearchLib ExampleSpec.
Context `{HostEnv} `{SearchEnv}.

Lemma indexOf_first (x : string) (before after : list string) :
  ~ In x before ->
  indexOf x (before ++ x :: after) = Some (length before).
Proof.
  induction before as [|p before IH]; intros Hnot; simpl.
  - rewrite String.eqb_refl. reflexivity.
  - destruct (String.eqb p x) eqn:Hp.
    + apply String.eqb_eq in Hp. subst p. exfalso. apply Hnot. left.
      reflexivity.
    + rewrite IH; [reflexivity|]. intros Hin. apply Hnot. right. exact Hin.
Qed.

Lemma circuitName_src_parent (before after : list string) (d : string) :
  ~ In "src" before -> d <> "src" ->
  circuitName (before ++ d :: "src" :: after) = Some d.
Proof.
  intros Hnot Hd. unfold circuitName.
  replace (before ++ d :: "src" :: after)
    with ((before ++ [d]) ++ "src" :: after)
    by (rewrite <- app_assoc; reflexivity).
  rewrite indexOf_first.
  - rewrite length_app, Nat.add_comm. simpl.
    rewrite <- app_assoc, nth_error_app2, Nat.sub_diag by lia. reflexivity.
  - intros Hin. apply in_app_or in Hin as [Hin|[Hin|[]]]; [tauto|].
    apply Hd. exact Hin.
Qed.

Lemma circuitName_leading_src (rest : list string) :
  circuitName ("src" :: rest)
  = match rest with
    | [] => None
    | _ :: _ => nth_error ("src" :: rest) (length rest - 1)
    end.
Proof.
  unfold circuitName. simpl indexOf. cbv iota.
  destruct rest as [|p rest]; [reflexivity|].
  simpl length. cbv iota.
  replace (S (length rest) - 1)%nat with (length rest) by lia. reflexivity.
Qed.

(** X20. [findCircuits] gives one entry for each file of the listing, in
    its order, with the path relative to the mirror root, the given
    repository name and the type [circuit]; it gives nothing when the
    listing fails. An entry is named after the directory that holds the
    first [src] segment of its relative path. When that path starts with
    [src] the second-to-last segment is taken instead, and the name is
    undefined when [src] is the only segment. *)
Theorem findCircuits_names_circuits_by_src_parent :
  forall (basePath repoName : string),
    (forall files,
       globbySync "**/src/main.nr" basePath = Ret files ->
       map path (findCircuits basePath repoName)
       = map (path_relative Git.REPOS_DIR) files)
    /\ (forall err,
          globbySync "**/src/main.nr" basePath = Throw err ->
          findCircuits basePath repoName = [])
    /\ (forall e,
          In e (findCircuits basePath repoName) ->
          repo e = repoName
          /\ type e = circuit
          /\ (forall before d after,
                Js.split Js.slash (path e) = before ++ d :: "src" :: after ->
                ~ In "src" before -> d <> "src" ->
                name e = Some d)
          /\ (forall rest,
                Js.split Js.slash (path e) = "src" :: rest ->
                name e = match rest with
                         | [] => None
                         | _ :: _ =>
                             nth_error ("src" :: rest) (length rest - 1)
                         end)).
Proof.
  intros basePath repoName. unfold findCircuits. split; [|split].
  - intros files ->. rewrite map_map. reflexivity.
  - intros err ->. reflexivity.
  - intros e Hin. destruct (globbySync _ basePath) as [files|err]; [|destruct Hin].
    apply in_map_iff in Hin as (file & <- & _).
    unfold circuitOf. cbn [repo type path name].
    split; [reflexivity|]. split; [reflexivity|]. split.
    + intros before d after ->. apply circuitName_src_parent.
    + intros rest ->. apply circuitName_leading_src.
Qed.

Lemma named_mentions (q : string) (e : FileInfo) :
  named_b q e = true -> mentions_b q e = true.
Proof.
  unfold named_b, mentions_b. destruct (name e) as [n|]; [|discriminate].
  intros Heq. apply String.eqb_eq in Heq. rewrite Heq.
  apply orb_true_iff. left.
  assert (Hrefl : forall s, Js.startsWith s s = true).
  { intros s. induction s as [|c s IH]; [reflexivity|].
    rewrite startsWith_cons, ceq_refl. exact IH. }
  destruct q as [|c q]; [reflexivity|].
  rewrite includes_cons, Hrefl. reflexivity.
Qed.

Lemma named_total (q : string) (e : FileInfo) :
  has_name e -> named q e = Ret (named_b q e).
Proof.
  unfold has_name, named, named_b, lowerName.
  destruct (name e); [reflexivity|contradiction].
Qed.

Lemma mentions_total (q : string) (e : FileInfo) :
  has_name e -> mentions q e = Ret (mentions_b q e).
Proof.
  unfold has_name, mentions, mentions_b, lowerName.
  destruct (name e); [reflexivity|contradiction].
Qed.

Lemma find_exn_named (q : string) (l : list FileInfo) :
  Forall has_name l ->
  find_exn (named q) l = Ret (List.find (named_b q) l).
Proof.
  induction 1 as [|e l He _ IH]; [reflexivity|].
  cbn [find_exn List.find]. rewrite (named_total q e He). simpl.
  destruct (named_b q e); [reflexivity|exact IH].
Qed.

Lemma find_exn_mentions (q : string) (l : list FileInfo) :
  Forall has_name l ->
  find_exn (mentions q) l = Ret (List.find (mentions_b q) l).
Proof.
  induction 1 as [|e l He _ IH]; [reflexivity|].
  cbn [find_exn List.find]. rewrite (mentions_total q e He). simpl.
  destruct (mentions_b q e); [reflexivity|exact IH].
Qed.

Lemma filter_exn_mentions (q : string) (l : list FileInfo) :
  Forall has_name l ->
  filter_exn (mentions q) l = Ret (List.filter (mentions_b q) l).
Proof.
  induction 1 as [|e l He _ IH]; [reflexivity|].
  cbn [filter_exn List.filter]. rewrite IH, (mentions_total q e He). simpl.
  destruct (mentions_b q e); reflexivity.
Qed.

Lemma findExample_total (query : string) (examples : list FileInfo) :
  listExamples None = Ret examples ->
  Forall has_name examples ->
  findExample query
  = Ret match List.find (named_b (Js.toLowerCase query)) examples with
        | Some e => Some e
        | None => List.find (mentions_b (Js.toLowerCase query)) examples
        end.
Proof.
  intros Hlist Hnames. unfold findExample. rewrite Hlist. simpl.
  rewrite (find_exn_named _ _ Hnames). simpl.
  destruct (List.find (named_b _) examples); [reflexivity|].
  apply find_exn_mentions. exact Hnames.
Qed.

Lemma findExample_found (q : string) (examples : list FileInfo) :
  let found :=
    match List.find (named_b q) examples with
    | Some e => Some e
    | None => List.find (mentions_b q) examples
    end in
  (forall e, found = Some e -> In e examples /\ mentions_b q e = true)
  /\ (forall e,
        In e examples -> named_b q e = true ->
        exists e', found = Some e' /\ named_b q e' = true)
  /\ (found = None <-> forall e, In e examples -> mentions_b q e = false).
Proof.
  cbv zeta.
  destruct (List.find (named_b q) examples) as [e0|] eqn:Hexact.
  - apply find_some in Hexact as [Hin Hq].
    split; [intros e [= <-]; split; [exact Hin|apply named_mentions, Hq]|].
    split; [intros e _ _; exists e0; split; [reflexivity|exact Hq]|].
    split; [discriminate|]. intros Hnone.
    pose proof (named_mentions q e0 Hq) as Hm.
    rewrite (Hnone e0 Hin) in Hm. discriminate.
  - split; [intros e He; apply find_some in He; exact He|].
    split.
    + intros e Hin Hq. rewrite (find_none _ _ Hexact e Hin) in Hq.
      discriminate.
    + split; [intros Hnone e Hin; exact (find_none _ _ Hnone e Hin)|].
      intros Hnone.
      destruct (List.find (mentions_b q) examples) as [e1|] eqn:Hpart;
        [|reflexivity].
      apply find_some in Hpart as [Hin Hq].
      rewrite (Hnone e1 Hin) in Hq. discriminate.
Qed.

(** X21. When every listed example has a name, [findExample] does not
    raise. What it returns is one of the listed examples whose name or
    path holds the query, case of the query ignored; an example whose
    name is the query is preferred to one that only holds it, wherever it
    stands in the list; nothing is returned exactly when no example
    holds the query. When the first listed example has no name the call
    raises a [TypeError]. *)
Theorem findExample_prefers_the_exact_name :
  forall (query : string) (examples : list FileInfo),
    listExamples None = Ret examples ->
    let q := Js.toLowerCase query in
    (Forall has_name examples ->
     exists found,
       findExample query = Ret found
       /\ (forall e, found = Some e -> In e examples /\ mentions_b q e = true)
       /\ (forall e,
             In e examples -> named_b q e = true ->
             exists e', found = Some e' /\ named_b q e' = true)
       /\ (found = None
           <-> forall e, In e examples -> mentions_b q e = false))
    /\ (forall e rest,
          examples = e :: rest -> name e = None ->
          findExample query = Throw type_error).
Proof.
  intros query examples Hlist q. split.
  - intros Hnames. eexists.
    split; [exact (findExample_total query examples Hlist Hnames)|].
    apply findExample_found.
  - intros e rest -> Hname. unfold findExample. rewrite Hlist. simpl.
    unfold named, lowerName. rewrite Hname. reflexivity.
Qed.

(** X22. [listExamples] lists the circuits of [noir-examples] before
    those of [noir/examples] and lists nothing when neither directory
    exists. Without a category, or with an empty one, it returns them
    all; with a category it keeps, in the same order, the examples whose
    name or path holds the category, case of the category ignored, and
    does not raise as long as every example has a name. *)
Theorem listExamples_filters_by_category :
  forall (category : option string) (examples : list FileInfo),
    listExamples None = Ret examples ->
    (examples
     = (if existsSync (Git.getRepoPath "noir-examples")
        then findCircuits (Git.getRepoPath "noir-examples") "noir-examples"
        else [])
       ++ (if existsSync (path_join (Git.getRepoPath "noir") "examples")
           then findCircuits (path_join (Git.getRepoPath "noir") "examples")
                  "noir"
           else []))
    /\ (existsSync (Git.getRepoPath "noir-examples") = false ->
        existsSync (path_join (Git.getRepoPath "noir") "examples") = false ->
        listExamples category = Ret [])
    /\ (Js.truthy_opt category = false ->
        listExamples category = Ret examples)
    /\ (forall c,
          category = Some c -> Js.truthy c = true ->
          Forall has_name examples ->
          listExamples category
          = Ret (List.filter (mentions_b (Js.toLowerCase c)) examples)).
Proof.
  intros category examples Hlist.
  unfold listExamples in Hlist. injection Hlist as Hall.
  split; [symmetry; exact Hall|]. split; [|split].
  - intros Ha Hb. unfold listExamples. rewrite Ha, Hb. simpl.
    destruct category as [c|]; [|reflexivity].
    destruct (Js.truthy c); reflexivity.
  - intros Hfalsy. unfold listExamples. rewrite Hall.
    destruct category as [c|]; [|reflexivity].
    simpl in Hfalsy. rewrite Hfalsy. reflexivity.
  - intros c -> Hc Hnames. unfold listExamples. rewrite Hall, Hc.
    apply filter_exn_mentions. exact Hnames.
Qed.

Lemma readFile_total (filePath : string) :
  exists answer, Search.readFile filePath = Ret answer.
Proof.
  unfold Search.readFile. destruct (existsSync _); simpl; [|eauto].
  destruct (readFileSync _); simpl; eauto.
Qed.

(** X23. When every listed example has a name, [readNoirExample] always
    replies, without raising. A success carries an example of the list
    whose name or path holds the query and the text [readFile] gave for
    its path, which is not empty; a reply carries no example exactly when
    no listed example holds the query; and a failure carries no content,
    so an example whose file is missing, unreadable or empty is a
    failure that still names the example. *)
Theorem readNoirExample_reads_a_listed_example :
  forall (query : string) (examples : list FileInfo),
    listExamples None = Ret examples ->
    Forall has_name examples ->
    exists reply,
      Tools.readNoirExample query = Ret reply
      /\ (Tools.ex_success reply = true ->
          exists e text,
            Tools.ex_example reply = Some e
            /\ In e examples
            /\ mentions_b (Js.toLowerCase query) e = true
            /\ Tools.ex_content reply = Some text
            /\ Js.truthy text = true
            /\ Search.readFile (path e) = Ret (Some text))
      /\ (Tools.ex_example reply = None
          <-> forall e,
                In e examples -> mentions_b (Js.toLowerCase query) e = false)
      /\ (Tools.ex_success reply = false -> Tools.ex_content reply = None)
      /\ (forall e,
            Tools.ex_example reply = Some e ->
            Search.readFile (path e) = Ret (Some EmptyString) ->
            Tools.ex_success reply = false).
Proof.
  intros query examples Hlist Hnames. unfold Tools.readNoirExample.
  rewrite (findExample_total _ _ Hlist Hnames).
  destruct (findExample_found (Js.toLowerCase query) examples)
    as (Hin & _ & Hnone).
  cbv zeta in Hin, Hnone.
  destruct (match List.find (named_b _) examples with
            | Some e => Some e
            | None => List.find (mentions_b _) examples
            end) as [e|]; simpl.
  - destruct (Hin e eq_refl) as [He Hm].
    destruct (readFile_total (path e)) as (answer & Hread). rewrite Hread.
    simpl. destruct (Js.truthy_opt answer) eqn:Htext.
    + eexists. split; [reflexivity|]. cbn [Tools.ex_success
        Tools.ex_example Tools.ex_content Tools.ex_message].
      destruct answer as [text|]; [|discriminate]. simpl in Htext.
      split; [intros _; exists e, text; repeat split; assumption|].
      split; [split; [discriminate|]|].
      * intros Hall. rewrite (Hall e He) in Hm. discriminate.
      * split; [discriminate|]. intros e' [= <-] Hempty.
        rewrite Hread in Hempty. injection Hempty as ->. discriminate.
    + eexists. split; [reflexivity|]. cbn [Tools.ex_success
        Tools.ex_example Tools.ex_content Tools.ex_message].
      split; [discriminate|]. split; [split; [discriminate|]|].
      * intros Hall. rewrite (Hall e He) in Hm. discriminate.
      * split; reflexivity.
  - eexists. split; [reflexivity|]. cbn [Tools.ex_success
      Tools.ex_example Tools.ex_content Tools.ex_message].
    split; [discriminate|]. split; [split; [intros _; apply Hnone|]|].
    + reflexivity.
    + reflexivity.
    + split; [reflexivity|discriminate].
Qed.

End Circuits.

(** ** The replies of the search tools *)

Section SearchTools.
Import Search SearchLib Tools.
Context `{HostEnv} `{SearchEnv}.

Lemma startsWith_append (p x : string) : Js.startsWith (p +:+ x) p = true.
Proof.
  induction p as [|c p IH]; [destruct x; reflexivity|].
  rewrite append_cons, startsWith_cons, ceq_refl. exact IH.
Qed.

Lemma countMessage_none (what none : string) (found : list SearchResult) :
  Js.startsWith none "Found " = false ->
  (found = [] <-> countMessage what none found = none).
Proof.
  intros Hnone. destruct found as [|r found]; [simpl; tauto|].
  split; [discriminate|]. intros Heq. rewrite <- Heq in Hnone.
  unfold countMessage in Hnone. rewrite startsWith_append in Hnone.
  discriminate.
Qed.

Lemma searchDocs_bounded (q : string) (section : option string)
    (limit : option Z) :
  exists found,
    searchDocs q section limit = Ret found
    /\ (length found <= Z.to_nat (default 30%Z limit))%nat.
Proof. unfold searchDocs. apply searchCode_bounded. Qed.

Lemma searchStdlib_bounded (q : string) (limit : option Z) :
  exists found,
    searchStdlib q limit = Ret found
    /\ (length found <= Z.to_nat (default 30%Z limit))%nat.
Proof.
  unfold searchStdlib. destruct (existsSync (path_join _ "noir_stdlib")); simpl.
  - apply searchCode_bounded.
  - exists []. split; [reflexivity|simpl; lia].
Qed.

(** X24. [searchNoirCode] always replies, without raising. The reply is
    a success exactly when the repository named in the request, if one
    is named, is cloned and at least one configured repository is
    cloned; a failure carries no results. A success carries at most
    [maxResults] results (30 when the request gives no limit), and its
    message is [No matches found] exactly when there are none. *)
Theorem searchNoirCode_replies_without_raising :
  forall (options : SearchRequest),
    exists reply,
      searchNoirCode options = Ret reply
      /\ (success reply = true
          <-> (forall r,
                 req_repo options = Some r -> Js.truthy r = true ->
                 isRepoCloned r = true)
              /\ exists n,
                   In n Repos.getRepoNames /\ isRepoCloned n = true)
      /\ (success reply = false -> results reply = [])
      /\ (length (results reply)
          <= Z.to_nat (default 30%Z (req_maxResults options)))%nat
      /\ (success reply = true ->
          (results reply = [] <-> message reply = "No matches found")).
Proof.
  intros options. unfold searchNoirCode.
  destruct (Js.truthy_opt (req_repo options)
            && negb (isRepoCloned (default EmptyString (req_repo options))))
    eqn:Hrepo.
  - eexists. split; [reflexivity|]. cbn [success results message].
    split; [|split; [reflexivity|split; [simpl; lia|discriminate]]].
    split; [discriminate|]. intros [Hnamed _]. exfalso.
    apply andb_true_iff in Hrepo as [Ht Hc].
    destruct (req_repo options) as [r|]; [|discriminate].
    simpl in Ht, Hc. rewrite (Hnamed r eq_refl Ht) in Hc. discriminate.
  - assert (Hnamed : forall r,
               req_repo options = Some r -> Js.truthy r = true ->
               isRepoCloned r = true).
    { intros r Hr Ht. rewrite Hr in Hrepo. simpl in Hrepo.
      rewrite Ht in Hrepo. simpl in Hrepo.
      apply negb_false_iff in Hrepo. exact Hrepo. }
    destruct (existsb isRepoCloned Repos.getRepoNames) eqn:Hany; simpl.
    + destruct (searchCode_bounded (query options)
                  {| filePattern :=
                       Some (default "*.nr" (req_filePattern options));
                     opt_repo := req_repo options;
                     maxResults :=
                       Some (default 30%Z (req_maxResults options));
                     caseSensitive := None |}) as (found & -> & Hlen).
      eexists. split; [reflexivity|]. cbn [success results message].
      split.
      * split; [|reflexivity]. intros _. split; [exact Hnamed|].
        apply existsb_exists in Hany. exact Hany.
      * split; [discriminate|]. split; [exact Hlen|].
        intros _. apply countMessage_none. reflexivity.
    + eexists. split; [reflexivity|]. cbn [success results message].
      split; [|split; [reflexivity|split; [simpl; lia|discriminate]]].
      split; [discriminate|]. intros [_ (n & Hin & Hn)]. exfalso.
      assert (Htrue : existsb isRepoCloned Repos.getRepoNames = true)
        by (apply existsb_exists; exists n; split; assumption).
      congruence.
Qed.

(** X25. [searchNoirDocs] and [searchNoirStdlib] always reply, without
    raising, and fail exactly when the [noir] repository is not cloned,
    with no results. A success of the documentation search carries at
    most [maxResults] results, 20 when the request gives no limit (the
    default of 30 of [searchDocs] is never used by the tool); a success
    of the standard library search carries at most [maxResults] results,
    30 by default. *)
Theorem doc_and_stdlib_tools_need_the_noir_repo :
  forall (q : string) (section : option string) (limit : option Z),
    (exists reply,
       searchNoirDocs q section limit = Ret reply
       /\ success reply = isRepoCloned "noir"
       /\ (success reply = false -> results reply = [])
       /\ (length (results reply) <= Z.to_nat (default 20%Z limit))%nat
       /\ (success reply = true ->
           (results reply = []
            <-> message reply = "No documentation matches found")))
    /\ (exists reply,
          searchNoirStdlib q limit = Ret reply
          /\ success reply = isRepoCloned "noir"
          /\ (success reply = false -> results reply = [])
          /\ (length (results reply) <= Z.to_nat (default 30%Z limit))%nat
          /\ (success reply = true ->
              (results reply = []
               <-> message reply = "No stdlib matches found"))).
Proof.
  intros q section limit. split.
  - unfold searchNoirDocs. destruct (isRepoCloned "noir"); simpl.
    + destruct (searchDocs_bounded q section (Some (default 20%Z limit)))
        as (found & -> & Hlen).
      eexists. split; [reflexivity|]. cbn [success results message].
      split; [reflexivity|]. split; [discriminate|].
      split; [exact Hlen|]. intros _. apply countMessage_none. reflexivity.
    + eexists. split; [reflexivity|]. cbn [success results message].
      split; [reflexivity|]. split; [reflexivity|].
      split; [simpl; lia|discriminate].
  - unfold searchNoirStdlib. destruct (isRepoCloned "noir"); simpl.
    + destruct (searchStdlib_bounded q (Some (default 30%Z limit)))
        as (found & -> & Hlen).
      eexists. split; [reflexivity|]. cbn [success results message].
      split; [reflexivity|]. split; [discriminate|].
      split; [exact Hlen|]. intros _. apply countMessage_none. reflexivity.
    + eexists. split; [reflexivity|]. cbn [success results message].
      split; [reflexivity|]. split; [reflexivity|].
      split; [simpl; lia|discriminate].
Qed.

End SearchTools.

(** ** The properties above on the demonstration mirror *)

Lemma freshCheckout_follows_its_plan_witness :
  let config := Demo.pin "noir" (Some "v1.0.0") None Config.core in
  let w := Demo.world true ∅ in
  hd_error (MirrorSpec.checkout_plan (H := Demo.host) config)
  = Some (Git.GClone (Config.url config)
            (Git.getRepoPath (H := Demo.host) (Config.name config))
            (MirrorSpec.clone_options config)).
Proof.
  intros config w.
  destruct (freshCheckout_follows_its_plan (H := Demo.host) config w
              (snd (Git.freshCheckout (H := Demo.host) config w))
              (fst (Git.freshCheckout (H := Demo.host) config w))
              (surjective_pairing _)) as [Hhead _].
  exact Hhead.
Defined.

Lemma demo_examples_listed :
  @SearchLib.listExamples Demo.host DemoExamples.search_env None
  = Ret DemoExamplesList.examples.
Proof. vm_compute. reflexivity. Qed.

Lemma demo_examples_named :
  Forall ExampleSpec.has_name DemoExamplesList.examples.
Proof. repeat constructor; discriminate. Qed.

Lemma findExample_prefers_the_exact_name_witness :
  exists e,
    @SearchLib.findExample Demo.host DemoExamples.search_env "Recursion"
    = Ret (Some e)
    /\ ExampleSpec.named_b "recursion" e = true.
Proof.
  destruct (@findExample_prefers_the_exact_name Demo.host
              DemoExamples.search_env "Recursion" DemoExamplesList.examples
              demo_examples_listed) as [Hnamed _].
  destruct (Hnamed demo_examples_named) as (found & Hrun & _ & Hexact & _).
  destruct (Hexact DemoExamplesList.recursion
              (or_intror (or_introl eq_refl)) eq_refl)
    as (e' & Hfound & He').
  exists e'. rewrite Hrun, Hfound. split; [reflexivity|exact He'].
Defined.

Lemma listExamples_filters_by_category_witness :
  @SearchLib.listExamples Demo.host DemoExamples.search_env (Some "LIB")
  = Ret (List.filter (ExampleSpec.mentions_b "lib")
           DemoExamplesList.examples).
Proof.
  destruct (@listExamples_filters_by_category Demo.host
              DemoExamples.search_env (Some "LIB") DemoExamplesList.examples
              demo_examples_listed) as (_ & _ & _ & Hfilter).
  exact (Hfilter "LIB" eq_refl eq_refl demo_examples_named).
Defined.

Lemma readNoirExample_reads_a_listed_example_witness :
  exists reply,
    @Tools.readNoirExample Demo.host DemoExamples.search_env "recursion"
    = Ret reply
    /\ (Tools.ex_success reply = false -> Tools.ex_content reply = None).
Proof.
  destruct (@readNoirExample_reads_a_listed_example Demo.host
              DemoExamples.search_env "recursion" DemoExamplesList.examples
              demo_examples_listed demo_examples_named)
    as (reply & Hrun & _ & _ & Hfail & _).
  exists reply. split; [exact Hrun|exact Hfail].
Defined.
